(** * trns bot: task registry, chunked delivery and daily capacity

    A shallow embedding of the controller code of the bot
    ([src/trns/bot/output_handler.py], [src/trns/bot/utils.py],
    [src/trns/bot/routes.py]) and the properties proved about it.

    Layout: the definitions come first, one module per source file
    ([PyStr] holds the few [str] operations the code relies on, [Py] the
    exceptions and the monad the effectful functions are written in,
    [Race] the interleaving of concurrent start requests), then the
    vocabulary of the statements; the lemmas and theorems follow, a
    module of facts and a module of theorems per part. *)

From stdpp Require Import gmap strings list fin_maps.
From Stdlib Require Import ZArith Lia.

Local Open Scope Z_scope.

(* ===================================================================== *)
(** * Python strings *)
(* ===================================================================== *)

Module PyStr.

(** A Python [str] is a sequence of Unicode code points. *)
Definition char : Type := N.
Abbreviation str := (list char).

Definition newline : char := 10%N.

(** [str.isspace] on one code point: the characters [str.strip()] removes. *)
Definition isspace (c : char) : bool :=
  ((9 <=? c) && (c <=? 13) || (28 <=? c) && (c <=? 32)
   || (c =? 133) || (c =? 160) || (c =? 5760)
   || (8192 <=? c) && (c <=? 8202)
   || (c =? 8232) || (c =? 8233) || (c =? 8239) || (c =? 8287)
   || (c =? 12288))%N.

(** [len(s)] *)
Definition len (s : str) : Z := Z.of_nat (length s).

(** A slice bound: negative bounds count from the end, and [take] and
    [drop] clamp at the length as Python does. *)
Definition bound (s : str) (n : Z) : nat :=
  if n <? 0 then Z.to_nat (len s + n) else Z.to_nat n.

(** [s[:n]] *)
Definition slice_to (s : str) (n : Z) : str := take (bound s n) s.

(** [s[n:]] *)
Definition slice_from (s : str) (n : Z) : str := drop (bound s n) s.

(** [s.rfind(c)] for a one-character needle, scanning [s] from index [i]:
    the highest index holding [c], or [-1]. *)
Fixpoint rfind_from (c : char) (s : str) (i : Z) : Z :=
  match s with
  | [] => -1
  | x :: r =>
      let k := rfind_from c r (i + 1) in
      if 0 <=? k then k else if (x =? c)%N then i else -1
  end.

Definition rfind (c : char) (s : str) : Z := rfind_from c s 0.

(** [s.lstrip()], [s.rstrip()], [s.strip()] *)
Fixpoint lstrip (s : str) : str :=
  match s with
  | [] => []
  | x :: r => if isspace x then lstrip r else s
  end.

Definition rstrip (s : str) : str := reverse (lstrip (reverse s)).

Definition strip (s : str) : str := rstrip (lstrip s).

(** Truthiness of a [str]: non-empty. *)
Definition truthy (s : str) : bool :=
  match s with [] => false | _ => true end.

End PyStr.

(* ===================================================================== *)
(** * Exceptions and effects *)
(* ===================================================================== *)

Module Py.

(** The exception classes the code distinguishes.  [CancelledError] is a
    [BaseException] that is not an [Exception]; the others are
    subclasses of [Exception]. *)
Variant exn : Type :=
  | Exception (msg : string)
  | TimeoutError
  | OverflowError
  | TypeError
  | CancelledError.

Definition is_Exception (e : exn) : bool :=
  match e with CancelledError => false | _ => true end.

Definition is_TimeoutError (e : exn) : bool :=
  match e with TimeoutError => true | _ => false end.

Definition is_CancelledError (e : exn) : bool :=
  match e with CancelledError => true | _ => false end.

(** The outcome of a call: [inl e] is "raised [e]". *)
Definition result (A : Type) : Type := exn + A.

(** A computation over a state [St] that may raise. *)
Definition M (St A : Type) : Type := St -> St * result A.

Definition ret {St A} (a : A) : M St A := fun s => (s, inr a).

Definition raise {St A} (e : exn) : M St A := fun s => (s, inl e).

Definition bind {St A B} (m : M St A) (k : A -> M St B) : M St B :=
  fun s =>
    match m s with
    | (s', inr a) => k a s'
    | (s', inl e) => (s', inl e)
    end.

(** [lift r]: an external call whose outcome [r] is given. *)
Definition lift {St A} (r : result A) : M St A := fun s => (s, r).

Definition modify {St} (f : St -> St) : M St unit := fun s => (f s, inr tt).

Definition gets {St A} (f : St -> A) : M St A := fun s => (s, inr (f s)).

(** [try: body / except <class>: handler]: the first clause whose class
    test accepts the exception runs; with no match it propagates. *)
Fixpoint dispatch {St A} (clauses : list ((exn -> bool) * (exn -> M St A)))
    (e : exn) : M St A :=
  match clauses with
  | [] => raise e
  | (accepts, handler) :: rest =>
      if accepts e then handler e else dispatch rest e
  end.

Definition try_except {St A} (body : M St A)
    (clauses : list ((exn -> bool) * (exn -> M St A))) : M St A :=
  fun s =>
    match body s with
    | (s', inr a) => (s', inr a)
    | (s', inl e) => dispatch clauses e s'
    end.

(** [try: body / finally: fin]: [fin] always runs; when it raises, its
    exception replaces the outcome of [body]. *)
Definition try_finally {St A} (body : M St A) (fin : M St unit) : M St A :=
  fun s =>
    match body s with
    | (s', r) =>
        match fin s' with
        | (s'', inr _) => (s'', r)
        | (s'', inl e) => (s'', inl e)
        end
    end.

Declare Scope py_scope.
Delimit Scope py_scope with py.
Notation "x <- m ;; k" := (bind m (fun x => k))
  (at level 100, m at next level, right associativity) : py_scope.
Notation "m ;; k" := (bind m (fun _ => k))
  (at level 100, right associativity) : py_scope.

End Py.

(* ===================================================================== *)
(** * output_handler.py *)
(* ===================================================================== *)

Module OutputHandler.
Import PyStr.

(** [max_length = 4000] (line 107). *)
Definition max_length : Z := 4000.

(** [last_newline > max_length * 0.7] (line 114).  The product is a
    double; for [max_length = 4000] it is exactly [2800.0], so the test
    is the integer test [7 * max_length < 10 * last_newline]. *)
Definition newline_close_to_end (limit last_newline : Z) : bool :=
  7 * limit <? 10 * last_newline.

(** The [while len(text) > max_length] loop (lines 110-119).  [fuel]
    bounds the number of iterations; [None] is "out of fuel". *)
Fixpoint split_loop (limit : Z) (fuel : nat) (text : str) (chunks : list str)
  : option (str * list str) :=
  if limit <? len text then
    match fuel with
    | O => None
    | S fuel' =>
        let chunk := slice_to text limit in
        let last_newline := rfind newline chunk in
        if newline_close_to_end limit last_newline then
          split_loop limit fuel' (slice_from text (last_newline + 1))
            (chunks ++ [slice_to text (last_newline + 1)])
        else
          split_loop limit fuel' (slice_from text limit) (chunks ++ [chunk])
    end
  else Some (text, chunks).

(** Lines 108-122: the loop, then the remainder is appended unless it is
    empty or whitespace-only. *)
Definition split_with (limit : Z) (text : str) : option (list str) :=
  match split_loop limit (length text) text [] with
  | None => None
  | Some (rest, chunks) =>
      Some (if truthy (strip rest) then chunks ++ [rest] else chunks)
  end.

Definition split_chunks (text : str) : option (list str) :=
  split_with max_length text.

(** What the function does to the outside world, in order. *)
Variant event : Type :=
  | EvSend (chat_id : Z) (chunk : str)     (* client.send_message(chat_id, chunk) *)
  | EvSleep (milliseconds : Z).            (* asyncio.sleep(wait_time) *)

Section Send.
Import Py.
Local Open Scope py_scope.

(** The client: its state, and the outcome of
    [await asyncio.wait_for(client.send_message(chat_id=..., text=...), 30.0)]
    in a given state ([inl TimeoutError] when the 30 s run out). *)
Context {Client : Type}.
Variable send_message : Client -> Z -> str -> Client * result unit.

Record world : Type := World { client_of : Client; trace_of : list event }.

Definition emit (ev : event) : M world unit :=
  modify (fun w => World (client_of w) (trace_of w ++ [ev])).

Definition do_send (chat_id : Z) (chunk : str) : M world unit :=
  fun w =>
    let '(c, r) := send_message (client_of w) chat_id chunk in
    (World c (trace_of w ++ [EvSend chat_id chunk]), r).

(** [wait_time = 0.5 * (2 ** attempt)] (line 147), in milliseconds.  The
    power is an [int]; the product converts it to a double, which raises
    [OverflowError] from [2 ** 1024] on.  Below that the value is a power
    of two and exact. *)
Definition wait_time (attempt : Z) : M world Z :=
  if attempt <? 1024 then ret (500 * 2 ^ attempt) else raise OverflowError.

(** One pass of the body of [for attempt in range(max_retries)]
    (lines 135-160): [true] is the [break] after a successful send. *)
Definition attempt_send (chat_id : Z) (chunk : str) (max_retries attempt : Z)
  : M world bool :=
  try_except
    (do_send chat_id chunk ;; ret true)
    [ (is_Exception, fun _ =>
         (if attempt <? max_retries - 1 then
            w <- wait_time attempt ;; emit (EvSleep w)
          else ret tt) ;;
         ret false) ].

Fixpoint retry_loop (chat_id : Z) (chunk : str) (max_retries : Z)
    (attempts : list Z) : M world unit :=
  match attempts with
  | [] => ret tt
  | attempt :: rest =>
      sent <- attempt_send chat_id chunk max_retries attempt ;;
      if sent then ret tt else retry_loop chat_id chunk max_retries rest
  end.

(** [not chunk or not chunk.strip()] *)
Definition blank (s : str) : bool := negb (truthy s) || negb (truthy (strip s)).

(** [for i, chunk in enumerate(chunks)] (lines 128-160). *)
Fixpoint send_chunks (chat_id : Z) (max_retries : Z) (chunks : list str)
  : M world unit :=
  match chunks with
  | [] => ret tt
  | chunk :: rest =>
      (if blank chunk then ret tt
       else retry_loop chat_id chunk max_retries (seqZ 0 max_retries)) ;;
      send_chunks chat_id max_retries rest
  end.

(** [send_text_to_telegram(client, chat_id, text, max_retries)]: the
    client afterwards, the trace and the outcome; [None] only if the
    splitting loop ran out of fuel.  Logging is not modelled. *)
Definition send_text_to_telegram (client : option Client) (chat_id : Z)
    (text : str) (max_retries : Z)
  : option (option Client * list event * result unit) :=
  if blank text then Some (client, [], inr tt)
  else
    match client with
    | None => Some (None, [], inr tt)
    | Some c =>
        match split_chunks text with
        | None => None
        | Some [] => Some (Some c, [], inr tt)
        | Some chunks =>
            let '(w, r) := send_chunks chat_id max_retries chunks (World c []) in
            Some (Some (client_of w), trace_of w, r)
        end
    end.

End Send.

(** [max_retries: int = 3] *)
Definition default_max_retries : Z := 3.

End OutputHandler.

(* ===================================================================== *)
(** * utils.py: the daily capacity counter *)
(* ===================================================================== *)

Module Utils.
Import Py.
Local Open Scope py_scope.
Local Open Scope string_scope.

(** A value of [metadata.json]: an integer, a string, or anything else
    that does not order against an [int] (null, a list, an object).
    Fractional numbers and booleans are not modelled. *)
Variant value : Type :=
  | VInt (n : Z)
  | VStr (s : string)
  | VOther.

(** The persisted metadata: the dict [json.load] returns and [json.dump]
    writes.  The state of the computations below is the file's content;
    failures of the file system are not modelled. *)
Abbreviation metadata_dict := (gmap string value).

Definition DAILY_CAPACITY : Z := 1000.
Definition WARNING_THRESHOLD : Z := 50.

(** [last_date != today_utc], with [last_date = metadata.get(...)]. *)
Definition differs_from_date (last_date : option value) (today_utc : string) : bool :=
  match last_date with
  | Some (VStr d) => negb (String.eqb d today_utc)
  | _ => true
  end.

(** [capacity <= 0], [capacity > 0], [capacity < n] on a loaded value. *)
Definition as_int {St} (v : value) : M St Z :=
  match v with
  | VInt n => ret n
  | _ => raise TypeError
  end.

(** [get_daily_capacity] (lines 302-330); [today_utc] is
    [datetime.now(timezone.utc).date().isoformat()]. *)
Definition get_daily_capacity (today_utc : string) : M metadata_dict value :=
  fun persisted =>
    let metadata := persisted in
    match metadata !! "daily_capacity" with
    | None =>
        let metadata := <["daily_capacity" := VInt DAILY_CAPACITY]> metadata in
        let metadata := <["last_capacity_date" := VStr today_utc]> metadata in
        (metadata, inr (VInt DAILY_CAPACITY))
    | Some current =>
        let last_date := metadata !! "last_capacity_date" in
        if differs_from_date last_date today_utc then
          let metadata := <["daily_capacity" := VInt DAILY_CAPACITY]> metadata in
          let metadata := <["last_capacity_date" := VStr today_utc]> metadata in
          (metadata, inr (VInt DAILY_CAPACITY))
        else (persisted, inr current)
    end.

(** [decrement_daily_capacity] (lines 333-370).  The dict is changed in
    memory and reaches the file only at [save_metadata]. *)
Definition decrement_daily_capacity (today_utc : string) : M metadata_dict bool :=
  fun persisted =>
    let metadata := persisted in
    let metadata :=
      match metadata !! "daily_capacity" with
      | None =>
          <["last_capacity_date" := VStr today_utc]>
            (<["daily_capacity" := VInt DAILY_CAPACITY]> metadata)
      | Some _ => metadata
      end in
    let last_date := metadata !! "last_capacity_date" in
    let metadata :=
      if differs_from_date last_date today_utc then
        <["last_capacity_date" := VStr today_utc]>
          (<["daily_capacity" := VInt DAILY_CAPACITY]> metadata)
      else metadata in
    match default (VInt DAILY_CAPACITY) (metadata !! "daily_capacity") with
    | VInt capacity =>
        if (capacity <=? 0)%Z then (persisted, inr false)
        else
          let capacity := capacity - 1 in
          let metadata := <["daily_capacity" := VInt capacity]> metadata in
          (metadata, inr (0 <? capacity)%Z)
    | _ => (persisted, inl TypeError)
    end.

(** [check_capacity_at_start] (lines 373-381). *)
Definition check_capacity_at_start (today_utc : string) : M metadata_dict (value * bool) :=
  capacity <- get_daily_capacity today_utc ;;
  n <- as_int capacity ;;
  ret (capacity, (n <? WARNING_THRESHOLD)%Z).

(** [check_token_warning] (lines 390-393). *)
Definition check_token_warning (today_utc : string) : M metadata_dict bool :=
  capacity <- get_daily_capacity today_utc ;;
  n <- as_int capacity ;;
  ret (n <? WARNING_THRESHOLD)%Z.

(** [calls] successive calls of [decrement_daily_capacity] on the same
    UTC day: the file afterwards and the outcomes in call order. *)
Fixpoint decrement_times (calls : nat) (today_utc : string) (persisted : metadata_dict)
  : metadata_dict * list (result bool) :=
  match calls with
  | O => (persisted, [])
  | S n =>
      let '(persisted', r) := decrement_daily_capacity today_utc persisted in
      let '(final, rs) := decrement_times n today_utc persisted' in
      (final, r :: rs)
  end.

(** The persisted [remaining] and [day]. *)
Definition remaining (persisted : metadata_dict) : option value :=
  persisted !! "daily_capacity".

Definition day (persisted : metadata_dict) : option value :=
  persisted !! "last_capacity_date".

(** A counter file [{remaining, day}]. *)
Definition counter (n : Z) (d : string) : metadata_dict :=
  <["daily_capacity" := VInt n]> (<["last_capacity_date" := VStr d]> ∅).

End Utils.

(* ===================================================================== *)
(** * routes.py *)
(* ===================================================================== *)

Module Routes.
Import Py.
Local Open Scope py_scope.

(** ** The task table *)

(** The ["type"] of an entry. *)
Variant task_type : Type := youtube | twitter | file.

(** An entry of [user_processing_tasks].  A [threading.Event] and a task
    are objects; the model holds their identities. *)
Record task_info : Type := TaskInfo {
  shutdown_flag : nat;
  type_of : task_type;
  executor_task : option nat;
  output_task : option nat;
  task : option nat }.

(** The entry written at registration:
    [{"shutdown_flag": shutdown_flag, "type": ...}]. *)
Definition new_task (flag : nat) (ty : task_type) : task_info :=
  TaskInfo flag ty None None None.

Variant user_state : Type :=
  STATE_WAITING_KEY | STATE_WAITING_CONTEXT | STATE_PROCESSING.

(** ** Messages to the user *)

Variant error_detail : Type :=
  | missing_shutdown_flag        (* " Internal error: missing shutdown flag." *)
  | client_invalid               (* " Client instance is invalid." *)
  | raised (e : exn).            (* f" {str(e)}" *)

(** The texts, by their [get_text] key. *)
Variant notice : Type :=
  | not_authenticated
  | no_video_file
  | file_too_large (file_size : Z)
  | token_warning
  | processing_video
  | downloading_video
  | processing_started
  | processing_complete
  | cancel_success
  | error_occurred (detail : error_detail).

Variant action : Type :=
  | Reply (n : notice)            (* await message.reply_text(...) *)
  | SendMessage (n : notice)      (* await client.send_message(chat_id, ...) *)
  | ScheduleReply (n : notice)    (* asyncio.create_task(message.reply_text(...)) *)
  | Download                      (* await message.download(...) *)
  | CreateTask.                   (* asyncio.create_task(process_with_cleanup()) *)

(** ** The state the handlers share *)

Record world : Type := World {
  user_processing_tasks : gmap Z task_info;
  user_states : gmap Z user_state;
  metadata_file : Utils.metadata_dict;
  actions : list action;          (* what was done, in order *)
  next_object : nat }.            (* identity of the next object created *)

Definition with_tasks (f : gmap Z task_info -> gmap Z task_info) (w : world) : world :=
  World (f (user_processing_tasks w)) (user_states w) (metadata_file w)
        (actions w) (next_object w).

Definition with_states (f : gmap Z user_state -> gmap Z user_state) (w : world) : world :=
  World (user_processing_tasks w) (f (user_states w)) (metadata_file w)
        (actions w) (next_object w).

Definition record (a : action) (w : world) : world :=
  World (user_processing_tasks w) (user_states w) (metadata_file w)
        (actions w ++ [a]) (next_object w).

(** A computation on [metadata.json], run inside the shared state. *)
Definition on_metadata {A} (m : M Utils.metadata_dict A) : M world A :=
  fun w =>
    let '(md, r) := m (metadata_file w) in
    (World (user_processing_tasks w) (user_states w) md (actions w) (next_object w), r).

(** A new object ([threading.Event()], a task): its identity. *)
Definition new_object : M world nat :=
  fun w =>
    (World (user_processing_tasks w) (user_states w) (metadata_file w)
           (actions w) (S (next_object w)),
     inr (next_object w)).

(** [set_user_state] (lines 59-64). *)
Definition set_user_state (user_id : Z) (state : option user_state) : M world unit :=
  modify (with_states (fun states =>
    match state with
    | None => delete user_id states
    | Some st => <[user_id := st]> states
    end)).

(** An awaited call to the chat: the action is recorded, the outcome is
    the environment's. *)
Definition perform (outcome : action -> result unit) (a : action) : M world unit :=
  fun w => (record a w, outcome a).

(** [try: ... except Exception as e: logger...(...)] around one call. *)
Definition logged {St} (m : M St unit) : M St unit :=
  try_except m [ (is_Exception, fun _ => ret tt) ].

(** The block under [with processing_lock] of the three start paths
    (lines 1155-1167, 1219-1231, 1325-1338): [true] when the entry was
    created, [false] after scheduling the "already processing" reply. *)
Definition try_register (user_id : Z) (flag : nat) (ty : task_type) : M world bool :=
  tasks <- gets user_processing_tasks ;;
  match tasks !! user_id with
  | Some _ => modify (record (ScheduleReply processing_video)) ;; ret false
  | None => modify (with_tasks <[user_id := new_task flag ty]>) ;; ret true
  end.

(** [del user_processing_tasks[user_id]] under the lock, when present. *)
Definition unregister (user_id : Z) : M world unit :=
  modify (with_tasks (delete user_id)).

(** ** handle_video_message (lines 1284-1398) *)

Record video : Type := Video { file_size : Z; file_id : string }.

Definition MAX_FILE_SIZE : Z := 2 * 1024 * 1024 * 1024.

Record upload_env : Type := UploadEnv {
  up_authenticated : bool;                 (* is_user_authenticated(user_id) *)
  up_video : option video;                 (* message.video or message.document *)
  up_today : string;                       (* the UTC date *)
  up_outcome : action -> result unit }.    (* of each awaited call *)

Definition handle_video_message (env : upload_env) (user_id : Z) : M world unit :=
  if negb (up_authenticated env) then
    perform (up_outcome env) (Reply not_authenticated)
  else
    match up_video env with
    | None => perform (up_outcome env) (Reply no_video_file)
    | Some video =>
        if MAX_FILE_SIZE <? file_size video then
          perform (up_outcome env) (Reply (file_too_large (file_size video)))
        else
          warn <- on_metadata (Utils.check_token_warning (up_today env)) ;;
          (if warn then perform (up_outcome env) (Reply token_warning) else ret tt) ;;
          set_user_state user_id (Some STATE_PROCESSING) ;;
          flag <- new_object ;;
          registered <- try_register user_id flag file ;;
          if negb registered then set_user_state user_id None
          else
            perform (up_outcome env) (Reply downloading_video) ;;
            try_except
              (perform (up_outcome env) Download ;;
               task <- new_object ;;
               modify (record CreateTask) ;;
               modify (with_tasks (fun tasks =>
                 match tasks !! user_id with
                 | Some info =>
                     <[user_id := TaskInfo (shutdown_flag info) (type_of info)
                                    (executor_task info) (output_task info) (Some task)]> tasks
                 | None => tasks
                 end)))
              [ (is_Exception, fun e =>
                   logged (perform (up_outcome env) (Reply (error_occurred (raised e)))) ;;
                   unregister user_id ;;
                   set_user_state user_id None) ]
    end.

(** ** process_youtube_video (lines 230-466) *)

(** Where [reset_context()] is called. *)
Variant site : Type := at_end | on_cancel | on_error.

(** What the surroundings do during one job. *)
Record job_env : Type := JobEnv {
  job_prepare : result unit;           (* extract_video_id, load_config_main,
                                          apply_config_to_args (lines 253-267) *)
  job_outcome : action -> result unit; (* of each awaited call to the chat *)
  job_executor : result unit;          (* run_in_executor; await executor_task (396-405) *)
  job_executor_done : bool;            (* executor_task.done() (409) *)
  job_executor_again : result unit;    (* await executor_task (412) *)
  job_output : result unit;            (* wait_for(output_task, 30.0) (424) *)
  job_output_again : result unit;      (* wait_for(output_task, 5.0) (429) *)
  job_shutdown_is_set : bool;          (* shutdown_flag.is_set() (436) *)
  job_reset_context : site -> result unit }.

(** [client.send_message]; on a [None] client the attribute lookup raises. *)
Definition client_send (env : job_env) (client_present : bool) (n : notice) : M world unit :=
  if client_present then perform (job_outcome env) (SendMessage n)
  else raise (Exception "AttributeError").

(** Lines 394-420: wait for the worker; a cancellation of the wait is
    passed on to the executor future, an [Exception] is reported. *)
Definition await_executor (env : job_env) (client_present : bool) : M world unit :=
  try_except (lift (job_executor env))
    [ (is_CancelledError, fun _ =>
         if negb (job_executor_done env) then
           try_except (lift (job_executor_again env))
             [ (is_CancelledError, fun _ => ret tt) ]
         else ret tt);
      (is_Exception, fun e =>
         logged (client_send env client_present (error_occurred (raised e)))) ].

(** Lines 421-433, the [finally] block: wait for the output task.  The
    environment gives each wait the outcome it ends with, so it describes
    the runs in which the waits end.  The wait of line 424 need not: the
    output sender polls the queue without awaiting (lines 343-355), and
    as long as it has no text to send and gets neither the end marker nor
    a set shutdown flag, nothing else runs, the timeout included.  That
    is so when [run_in_executor] raises at line 396, since the end marker
    of line 332 is then never queued: the job stays in this wait, does
    not reach line 462, and no environment describes it.  What is proved
    about the way a job ends is therefore proved under
    [output_settles]. *)
Definition await_output_task (env : job_env) : M world unit :=
  try_except (lift (job_output env))
    [ (is_TimeoutError, fun _ =>
         try_except (lift (job_output_again env))
           [ (fun e => is_TimeoutError e || is_CancelledError e, fun _ => ret tt) ]);
      (is_CancelledError, fun _ => ret tt) ].

Definition process_youtube_video (env : job_env) (user_id : Z) (client_present : bool)
  : M world unit :=
  tasks <- gets user_processing_tasks ;;
  match shutdown_flag <$> tasks !! user_id with
  | None =>
      logged (client_send env client_present (error_occurred missing_shutdown_flag))
  | Some _ =>
      try_finally
        (try_except
           (lift (job_prepare env) ;;
            if negb client_present then
              logged (perform (job_outcome env) (Reply (error_occurred client_invalid)))
            else
              logged (client_send env client_present processing_started) ;;
              try_finally (await_executor env client_present) (await_output_task env) ;;
              (if negb (job_shutdown_is_set env) then
                 logged (client_send env client_present processing_complete)
               else ret tt) ;;
              lift (job_reset_context env at_end))
           [ (is_CancelledError, fun _ =>
                logged (client_send env client_present cancel_success) ;;
                lift (job_reset_context env on_cancel));
             (is_Exception, fun e =>
                logged (client_send env client_present (error_occurred (raised e))) ;;
                lift (job_reset_context env on_error)) ])
        (unregister user_id)
  end.

(** The final notices of a job, among what was sent. *)
Definition final_notice (a : action) : option notice :=
  match a with
  | SendMessage processing_complete => Some processing_complete
  | SendMessage cancel_success => Some cancel_success
  | SendMessage (error_occurred d) | Reply (error_occurred d) => Some (error_occurred d)
  | _ => None
  end.

Definition final_notices (l : list action) : list notice := omap final_notice l.

End Routes.

(* ===================================================================== *)
(** * Concurrent start requests *)
(* ===================================================================== *)

(** The start paths of [handle_text_message] (lines 1153-1167 and
    1217-1231) and [handle_video_message] (lines 1324-1338) run
    concurrently, one per incoming message.  Each creates its own
    [threading.Event], enters [with processing_lock], tests
    [user_id in user_processing_tasks] and either schedules the
    "already processing" reply and returns, or writes its entry and goes
    on to start the worker.  The model interleaves these steps under an
    arbitrary schedule; the user state set along the way does not bear on
    the table and is left out, and removal of entries (job end, cancel,
    failed start) happens after the race and is not part of it. *)

Module Race.
Import Routes.

Record request : Type := Request { owner : Z; kind : task_type }.

(** Where a request stands. *)
Variant pc : Type :=
  | AtLock       (* before [with processing_lock:] *)
  | AtTest       (* lock held, before [if user_id in user_processing_tasks] *)
  | AtReply      (* lock held, entry found, before [asyncio.create_task(reply)] *)
  | AtReturn     (* lock held, before [return] leaves the block *)
  | AtInsert     (* lock held, no entry found, before the assignment *)
  | AtExit       (* lock held, entry written, before the block ends *)
  | Accepted     (* lock released, before the worker is started *)
  | Started      (* the worker was started *)
  | Rejected.    (* returned *)

Record state : Type := State {
  lock : option nat;               (* the request holding [processing_lock] *)
  table : gmap Z task_info;        (* [user_processing_tasks] *)
  pcs : list pc;                   (* per request *)
  replied : list nat;              (* requests that scheduled the reply *)
  started : list nat }.            (* requests that started a worker *)

Definition goto (i : nat) (p : pc) (s : state) : state :=
  State (lock s) (table s) (<[i := p]> (pcs s)) (replied s) (started s).

(** Request [i] takes its next step; a request that waits for the lock,
    or has finished, stays where it is.  The [threading.Event] of
    request [i] has identity [i]. *)
Definition step (reqs : list request) (i : nat) (s : state) : state :=
  match reqs !! i, pcs s !! i with
  | Some r, Some p =>
      match p with
      | AtLock =>
          match lock s with
          | None => goto i AtTest (State (Some i) (table s) (pcs s) (replied s) (started s))
          | Some _ => s
          end
      | AtTest =>
          match table s !! owner r with
          | Some _ => goto i AtReply s
          | None => goto i AtInsert s
          end
      | AtReply =>
          goto i AtReturn (State (lock s) (table s) (pcs s) (replied s ++ [i]) (started s))
      | AtReturn =>
          goto i Rejected (State None (table s) (pcs s) (replied s) (started s))
      | AtInsert =>
          goto i AtExit
            (State (lock s) (<[owner r := new_task i (kind r)]> (table s)) (pcs s)
                   (replied s) (started s))
      | AtExit =>
          goto i Accepted (State None (table s) (pcs s) (replied s) (started s))
      | Accepted =>
          goto i Started (State (lock s) (table s) (pcs s) (replied s) (started s ++ [i]))
      | Started | Rejected => s
      end
  | _, _ => s
  end.

(** A schedule names the request that moves next. *)
Definition run (reqs : list request) (schedule : list nat) (s : state) : state :=
  foldl (fun s i => step reqs i s) s schedule.

Definition init (table0 : gmap Z task_info) (reqs : list request) : state :=
  State None table0 (replicate (length reqs) AtLock) [] [].

(** The request has written its entry. *)
Definition holds_entry (p : pc) : bool :=
  match p with AtExit | Accepted | Started => true | _ => false end.

(** The request is inside [with processing_lock:]. *)
Definition in_critical (p : pc) : bool :=
  match p with AtTest | AtReply | AtReturn | AtInsert | AtExit => true | _ => false end.

Definition finished (p : pc) : bool :=
  match p with Started | Rejected => true | _ => false end.

Definition all_done (s : state) : bool := forallb finished (pcs s).

End Race.

(* ===================================================================== *)
(** * routes.py: the output sender *)
(* ===================================================================== *)

(** [send_output_task] (lines 337-386, and the same text at 583-623 and
    955-995): the loop that takes the worker's output from the queue,
    collects it in a buffer and hands the buffer to
    [send_text_to_telegram]. *)

Module Sender.
Import PyStr Py.

(** [c in text] for a one-character [c]. *)
Definition contains (c : char) (text : str) : bool := existsb (N.eqb c) text.

(** ['[' in text and ']' in text] *)
Definition is_transcription (text : str) : bool :=
  contains 91%N text && contains 93%N text.

(** [buffer.strip()] as a condition. *)
Definition nonblank (s : str) : bool := truthy (strip s).

(** What one [output_queue.get(timeout=1.0)] gives, with what the
    iteration reads from its surroundings. *)
Variant poll (Time : Type) : Type :=
  | Fragment (text : str) (current_time : Time)  (* a text; [time.time()] *)
  | EndOfOutput                                  (* [None] *)
  | Empty (shutdown_is_set : bool).              (* [queue.Empty]; [shutdown_flag.is_set()] *)
Arguments Fragment {Time} text current_time.
Arguments EndOfOutput {Time}.
Arguments Empty {Time} shutdown_is_set.

(** How an iteration ends. *)
Variant control : Type :=
  | Continue
  | Break
  | Raise (e : exn).

Section Loop.
Context {Time Chat : Type}.

(** [current_time - last_send_time >= send_interval] *)
Variable long_enough : Time -> Time -> bool.

(** [await send_text_to_telegram(client, chat_id, buffer)] on the chat in
    a given state. *)
Variable deliver : Chat -> str -> Chat * result unit.

Record state : Type := State {
  buffer : str;
  last_send_time : Time;
  chat : Chat;
  delivered : list str }.       (* the buffers whose delivery returned *)

(** [await send_text_to_telegram(client, chat_id, buffer)]; a buffer whose
    delivery returned is entered in [delivered]. *)
Definition send_buffer (st : state) : state * result unit :=
  let '(c, r) := deliver (chat st) (buffer st) in
  match r with
  | inr _ => (State (buffer st) (last_send_time st) c (delivered st ++ [buffer st]), r)
  | inl _ => (State (buffer st) (last_send_time st) c (delivered st), r)
  end.

(** [except Exception as e: logger.error(...)] around the iteration: the
    loop goes on; anything else leaves the loop. *)
Definition guarded (e : exn) : control :=
  if is_Exception e then Continue else Raise e.

(** The last flush, before [break] (lines 350-354 and 358-362). *)
Definition flush_and_break (st : state) : control * state :=
  if nonblank (buffer st) then
    match send_buffer st with
    | (st', inr _) => (Break, st')
    | (st', inl e) => (guarded e, st')
    end
  else (Break, st).

(** One pass of the body of [while True]. *)
Definition iteration (p : poll Time) (st : state) : control * state :=
  match p with
  | Empty shutdown_is_set =>
      if shutdown_is_set then flush_and_break st else (Continue, st)
  | EndOfOutput => flush_and_break st
  | Fragment text current_time =>
      let st := State (buffer st ++ text) (last_send_time st) (chat st) (delivered st) in
      let should_send :=
        is_transcription text
        || (long_enough current_time (last_send_time st) && nonblank (buffer st)) in
      if should_send && nonblank (buffer st) then
        match send_buffer st with
        | (st', inr _) =>
            (Continue, State [] current_time (chat st') (delivered st'))
        | (st', inl e) => (guarded e, st')
        end
      else (Continue, st)
  end.

(** The loop over what the queue gives: how it ended ([Continue]: it is
    still waiting for the queue), the state, and what it did not take. *)
Fixpoint send_output_task (polls : list (poll Time)) (st : state)
  : control * state * list (poll Time) :=
  match polls with
  | [] => (Continue, st, [])
  | p :: rest =>
      match iteration p st with
      | (Continue, st') => send_output_task rest st'
      | (c, st') => (c, st', rest)
      end
  end.

(** [buffer = ""], [last_send_time = 0]. *)
Definition start (zero : Time) (c : Chat) : state := State [] zero c [].

End Loop.

(** The texts among what the queue gave. *)
Definition fragments {Time} (polls : list (poll Time)) : list str :=
  omap (fun p => match p with Fragment text _ => Some text | _ => None end) polls.

End Sender.

Module Pipeline.
Import PyStr Py OutputHandler Sender.

(** The chat as the output sender sees it: the client and what was done
    with it so far. *)
Definition chat_state (Client : Type) : Type := Client * list event.

(** [await send_text_to_telegram(client, chat_id, buffer)] with the
    default [max_retries].  The last branch stands for a call that does not
    return; there is none ([DeliverTextFacts.deliver_text_returns]). *)
Definition deliver_text {Client : Type}
    (send_message : Client -> Z -> str -> Client * result unit) (chat_id : Z)
    (c : chat_state Client) (buffer : str) : chat_state Client * result unit :=
  match send_text_to_telegram send_message (Some c.1) chat_id buffer
          default_max_retries with
  | Some (Some client, trace, r) => ((client, c.2 ++ trace), r)
  | _ => (c, inl (Exception "does not return"))
  end.

(** What the queue gives when the worker prints [texts] and ends. *)
Definition output_of {Time} (texts : list (str * Time)) : list (poll Time) :=
  ((fun item => Fragment item.1 item.2) <$> texts) ++ [EndOfOutput].

End Pipeline.

(* ===================================================================== *)
(** * output_handler.py: TelegramOutputHandler *)
(* ===================================================================== *)

Module Handler.
Import PyStr Py.

(** ** TelegramOutputHandler (output_handler.py, lines 16-85) *)

Section Callback.
Context {Time Chat : Type}.

(** [current_time - self.last_send_time >= self.send_interval] *)
Variable due : Time -> Time -> bool.

(** [await self.send_message_callback(text_to_send)] on the chat in a
    given state. *)
Variable send_message_callback : Chat -> str -> Chat * result unit.

Record handler : Type := Handler {
  buffer : str;                 (* self.buffer.getvalue() *)
  last_send_time : Time;
  chat : Chat;
  handed : list str }.          (* the texts given to the callback *)

(** Lines 60-68 and 74-81: the buffer is replaced by an empty one, then
    its text goes to the callback unless it is blank; [current_time] is
    what [write] stores in [last_send_time] when the callback returns. *)
Definition send_and_reset (current_time : option Time) (h : handler)
  : handler * result unit :=
  let text_to_send := buffer h in
  if truthy (strip text_to_send) then
    match send_message_callback (chat h) text_to_send with
    | (chat', inr _) =>
        (Handler [] (default (last_send_time h) current_time) chat'
                 (handed h ++ [text_to_send]), inr tt)
    | (chat', inl e) =>
        (Handler [] (last_send_time h) chat' (handed h ++ [text_to_send]),
         if is_Exception e then inr tt else inl e)
    end
  else (Handler [] (last_send_time h) (chat h) (handed h), inr tt).

(** [write] (lines 37-68). *)
Definition write (text : str) (current_time : Time) (h : handler)
  : handler * result unit :=
  if negb (truthy text) then (h, inr tt)
  else
    let h := Handler (buffer h ++ text) (last_send_time h) (chat h) (handed h) in
    let is_transcription := Sender.is_transcription text in
    let should_send := due current_time (last_send_time h) || is_transcription in
    if should_send && (0 <? len (buffer h)) then send_and_reset (Some current_time) h
    else (h, inr tt).

(** [flush] (lines 70-81). *)
Definition flush (h : handler) : handler * result unit :=
  if 0 <? len (buffer h) then send_and_reset None h else (h, inr tt).

(** The calls a client makes, with [time.time()] at each [write]. *)
Variant call : Type :=
  | Write (text : str) (current_time : Time)
  | Flush.

Definition step (c : call) (h : handler) : handler * result unit :=
  match c with
  | Write text current_time => write text current_time h
  | Flush => flush h
  end.

(** The handler after a series of calls, whatever each of them
    returned or raised. *)
Definition run (calls : list call) (h : handler) : handler :=
  foldl (fun h c => (step c h).1) h calls.

(** [__init__]: an empty buffer, [last_send_time = 0.0]. *)
Definition init (zero : Time) (c : Chat) : handler := Handler [] zero c [].

End Callback.

(** The texts written. *)
Definition written {Time} (calls : list (@call Time)) : list str :=
  omap (fun c => match c with Write text _ => Some text | Flush => None end) calls.

End Handler.

(* ===================================================================== *)
(** * routes.py: the background task, cancelling, links *)
(* ===================================================================== *)

Module Background.
Import Py Routes.

(** [process_with_cleanup] (lines 1195-1201): the task the handler
    creates for a YouTube link.  The tasks for a Twitter link (lines
    1259-1265) and for an upload (lines 1365-1371) wrap
    [process_twitter_video] and [process_video_file] in the same way. *)
Definition process_with_cleanup (env : job_env) (user_id : Z) (client_present : bool)
  : M world unit :=
  try_finally (process_youtube_video env user_id client_present)
              (set_user_state user_id None).

End Background.

Module Cancel.
Import Py Routes.
Local Open Scope py_scope.

(** ** cancel_user_processing (lines 145-201) *)

(** What the function does to the objects of an entry. *)
Variant effect : Type :=
  | SetFlag (flag : nat)                 (* shutdown_flag.set() *)
  | CancelTask (task : nat)              (* task.cancel() *)
  | WaitFor (task : nat) (seconds : Z).  (* await asyncio.wait_for(task, timeout=...) *)

Record state : Type := State {
  shared : world;
  effects : list effect }.

Definition effect_of (e : effect) (s : state) : state :=
  State (shared s) (effects s ++ [e]).

(** A computation on the shared tables, run inside the state. *)
Definition on_shared {A} (m : M world A) : M state A :=
  fun s => let '(w, r) := m (shared s) in (State w (effects s), r).

Record cancel_env : Type := CancelEnv {
  is_done : nat -> bool;              (* task.done() *)
  wait_for : nat -> result unit;      (* of asyncio.wait_for(task, ...) *)
  ca_reset_context : result unit;     (* reset_context() *)
  ca_outcome : action -> result unit }.

(** [await asyncio.wait_for(task, timeout=seconds)]. *)
Definition await (env : cancel_env) (task : nat) (seconds : Z) : M state unit :=
  modify (effect_of (WaitFor task seconds)) ;; lift (wait_for env task).

(** [if t and not t.done(): ...]. *)
Definition when_running (env : cancel_env) (t : option nat) (body : nat -> M state unit)
  : M state unit :=
  match t with
  | Some t => if negb (is_done env t) then body t else ret tt
  | None => ret tt
  end.

Definition cancel_user_processing (env : cancel_env) (user_id : Z) : M state unit :=
  tasks <- gets (fun s => user_processing_tasks (shared s)) ;;
  match tasks !! user_id with
  | None => ret tt
  | Some task_info =>
      modify (effect_of (SetFlag (shutdown_flag task_info))) ;;
      when_running env (output_task task_info) (fun t =>
        modify (effect_of (CancelTask t)) ;;
        try_except (await env t 3)
          [ (fun e => is_TimeoutError e || is_CancelledError e, fun _ => ret tt) ]) ;;
      when_running env (executor_task task_info) (fun t =>
        try_except (await env t 10)
          [ (is_TimeoutError, fun _ => ret tt);
            (is_Exception, fun _ => ret tt) ]) ;;
      when_running env (task task_info) (fun t =>
        modify (effect_of (CancelTask t)) ;;
        try_except (await env t 5)
          [ (fun e => is_TimeoutError e || is_CancelledError e, fun _ => ret tt) ]) ;;
      on_shared (unregister user_id)
  end.

(** ** cancel_command (lines 98-118) *)

Definition cancel_command (env : cancel_env) (user_id : Z) : M state unit :=
  cancel_user_processing env user_id ;;
  lift (ca_reset_context env) ;;
  on_shared (set_user_state user_id None) ;;
  on_shared (perform (ca_outcome env) (Reply cancel_success)).

End Cancel.

Module Links.
Import Py Routes.
Local Open Scope py_scope.

(** ** handle_text_message: the start of a job from a link
    (lines 1153-1211 for YouTube, 1217-1275 for Twitter/X) *)

Variant link : Type := youtube_link | twitter_link.

Definition type_of_link (l : link) : task_type :=
  match l with
  | youtube_link => youtube
  | twitter_link => twitter
  end.

(** What the block says and does, in order: the actions on the shared
    state, and the awaited reply with the text ["processing_youtube"] or
    ["processing_twitter"]. *)
Variant said : Type :=
  | Did (a : action)
  | ReplyProcessing (l : link).

Record state : Type := State {
  shared : world;
  trace : list said }.

(** A computation on the shared state; the actions it records are
    entered in the trace. *)
Definition on_shared {A} (m : M world A) : M state A :=
  fun s =>
    let '(w, r) := m (shared s) in
    (State w (trace s ++ (Did <$> drop (length (actions (shared s))) (actions w))), r).

Record link_env : Type := LinkEnv {
  li_today : string;              (* the UTC date *)
  li_reply : result unit }.       (* of the awaited reply *)

Definition reply_processing (env : link_env) (l : link) : M state unit :=
  fun s => (State (shared s) (trace s ++ [ReplyProcessing l]), li_reply env).

Definition start_from_link (env : link_env) (l : link) (user_id : Z) : M state unit :=
  flag <- on_shared new_object ;;
  registered <- on_shared (try_register user_id flag (type_of_link l)) ;;
  if negb registered then ret tt
  else
    on_shared (set_user_state user_id (Some STATE_PROCESSING)) ;;
    capacity <- on_shared (on_metadata (Utils.check_capacity_at_start (li_today env))) ;;
    (if capacity.2 then on_shared (modify (record (ScheduleReply token_warning)))
     else ret tt) ;;
    replied <- try_except (reply_processing env l ;; ret true)
                 [ (is_Exception, fun _ =>
                      on_shared (unregister user_id) ;;
                      on_shared (set_user_state user_id None) ;;
                      ret false) ] ;;
    if negb replied then ret tt
    else
      task <- on_shared new_object ;;
      on_shared (modify (record CreateTask)) ;;
      on_shared (modify (with_tasks (fun tasks =>
        match tasks !! user_id with
        | Some info =>
            <[user_id := TaskInfo (shutdown_flag info) (type_of info)
                           (executor_task info) (output_task info) (Some task)]> tasks
        | None => tasks
        end))).

End Links.

(* ===================================================================== *)
(** * utils.py: the token file *)
(* ===================================================================== *)

Module Tokens.
Import PyStr Py.

(** ** The token file (utils.py, lines 241-299 and 384-387) *)

Definition carriage_return : char := 13%N.

(** Reading in text mode: ["\r\n"] and a lone ["\r"] become ["\n"].
    [pending_cr] tells that the character before was a ["\r"]. *)
Fixpoint universal_newlines (pending_cr : bool) (text : str) : str :=
  match text with
  | [] => []
  | c :: rest =>
      if (c =? carriage_return)%N then newline :: universal_newlines true rest
      else if (c =? newline)%N && pending_cr then universal_newlines false rest
      else c :: universal_newlines false rest
  end.

(** [for line in f]: the lines, each with its ["\n"], the last one
    possibly without. *)
Fixpoint lines (text : str) : list str :=
  match text with
  | [] => []
  | c :: rest =>
      if (c =? newline)%N then [c] :: lines rest
      else
        match lines rest with
        | [] => [[c]]
        | line :: more => (c :: line) :: more
        end
  end.

(** A file: missing, present but failing to open or decode, or holding
    text. *)
Variant file : Type := Absent | Unreadable | Content (text : str).

Record files : Type := Files {
  OPENROUTER_API_KEY : option str;   (* os.getenv("OPENROUTER_API_KEY") *)
  api_key_txt : file;
  writable : bool }.                 (* does open(..., 'w') succeed *)

(** [[line.strip() for line in f if line.strip()]] *)
Definition tokens_of (text : str) : list str :=
  strip <$> List.filter (fun line => truthy (strip line))
                        (lines (universal_newlines false text)).

(** [load_tokens] (lines 241-258). *)
Definition load_tokens (fs : files) : list str :=
  match OPENROUTER_API_KEY fs with
  | Some ((_ :: _) as api_key) => [strip api_key]
  | _ =>
      match api_key_txt fs with
      | Absent => []
      | Unreadable => []
      | Content text => tokens_of text
      end
  end.

(** What [save_tokens] writes: [f"{token}\n"] for each token. *)
Definition render (tokens : list str) : str :=
  concat ((fun token => token ++ [newline]) <$> tokens).

(** [save_tokens] (lines 261-269). *)
Definition save_tokens (tokens : list str) : M files unit :=
  fun fs =>
    if writable fs then
      (Files (OPENROUTER_API_KEY fs) (Content (render tokens)) (writable fs), inr tt)
    else (fs, inl (Exception "OSError")).

(** One round of the loop of [add_tokens] (lines 278-281). *)
Definition add_token (existing_tokens : list str) (token : str) : list str :=
  let token := strip token in
  if truthy token && negb (bool_decide (token ∈ existing_tokens))
  then existing_tokens ++ [token]
  else existing_tokens.

(** [add_tokens] (lines 272-284). *)
Definition add_tokens (new_tokens : list str) : M files unit :=
  fun fs => save_tokens (foldl add_token (load_tokens fs) new_tokens) fs.

(** [get_current_token] (lines 290-299) and [get_token_count] (384-387). *)
Definition get_current_token (fs : files) : option str := head (load_tokens fs).

Definition get_token_count (fs : files) : Z := Z.of_nat (length (load_tokens fs)).

End Tokens.

(* ===================================================================== *)
(** * Vocabulary of the statements *)
(* ===================================================================== *)

(** The notions the lemmas and theorems below are stated with, and the
    concrete inputs they are evaluated at. *)

Module ChunkSpec.
Import PyStr OutputHandler.

(** The chunk cut by one pass of the loop, and the text left after it. *)
Definition first_chunk (limit : Z) (text : str) : str :=
  let last_newline := rfind newline (slice_to text limit) in
  if newline_close_to_end limit last_newline
  then slice_to text (last_newline + 1) else slice_to text limit.

Definition after_first_chunk (limit : Z) (text : str) : str :=
  let last_newline := rfind newline (slice_to text limit) in
  if newline_close_to_end limit last_newline
  then slice_from text (last_newline + 1) else slice_from text limit.

(** A text of 4000 letters and one trailing space. *)
Definition letters_then_space : str := repeat 97%N 4000 ++ [32%N].

(** Texts of 5000 characters whose only line break is at position 2800
    (that is at 70% of the limit), at position 3200 and at position 1000. *)
Definition newline_at_2800 : str :=
  repeat 97%N 2800 ++ [newline] ++ repeat 97%N 2199.

Definition newline_at_3200 : str :=
  repeat 97%N 3200 ++ [newline] ++ repeat 97%N 1799.

Definition newline_at_1000 : str :=
  repeat 97%N 1000 ++ [newline] ++ repeat 97%N 3999.

(** A text of 8501 characters whose only line break is at position 7500:
    the first pass finds none in its prefix, the second finds it at
    position 3500 of the 4501 characters that are left. *)
Definition newline_in_second_pass : str :=
  repeat 97%N 4000 ++ repeat 97%N 3500 ++ [newline] ++ repeat 97%N 1000.

End ChunkSpec.

Module SendSpec.
Import PyStr Py OutputHandler.

(** What a chunk costs when all its sends fail: a send per attempt, and
    a sleep of [0.5 * 2 ** attempt] seconds after each but the last. *)
Definition failed_attempts (chat_id : Z) (chunk : str) (max_retries : Z)
    (attempts : list Z) : list event :=
  flat_map (fun attempt =>
      EvSend chat_id chunk
      :: (if attempt <? max_retries - 1 then [EvSleep (500 * 2 ^ attempt)] else []))
    attempts.

(** The trace of a delivery in which every send fails. *)
Definition all_failed (chat_id : Z) (max_retries : Z) (chunks : list str) : list event :=
  flat_map (fun chunk =>
      if blank chunk then []
      else failed_attempts chat_id chunk max_retries (seqZ 0 max_retries))
    chunks.

(** A client whose every send times out. *)
Definition always_timeout (c : unit) (chat_id : Z) (chunk : str)
  : unit * result unit := (c, inl TimeoutError).

End SendSpec.

Module CapacitySpec.
Import Utils.

(** The counter in the file, when it is an integer, is not negative. *)
Definition nonneg (persisted : metadata_dict) : Prop :=
  forall c, remaining persisted = Some (VInt c) -> (0 <= c)%Z.

End CapacitySpec.

Module RoutesSpec.
Import Py Routes.

(** An outcome that is not a cancellation: success, or an [Exception]. *)
Definition not_cancelled {A} (r : result A) : bool :=
  match r with
  | inl e => is_Exception e
  | inr _ => true
  end.

(** The wait for the output task in the [finally] block ends without an
    exception: it returns, or it times out and the second wait returns,
    times out or is cancelled, or it is cancelled. *)
Definition output_settles (env : job_env) : bool :=
  match job_output env with
  | inr _ => true
  | inl TimeoutError =>
      match job_output_again env with
      | inr _ => true
      | inl e => is_TimeoutError e || is_CancelledError e
      end
  | inl CancelledError => true
  | inl _ => false
  end.


(** A state in which owner 42 has a registered job, and one without
    tasks. *)
Definition one_job : world :=
  World {[ 42 := new_task 0 youtube ]} ∅ ∅ [] 1.

Definition idle : world := World ∅ ∅ ∅ [] 0.



(** An authenticated upload of 3 GiB. *)
Definition big_upload : upload_env :=
  UploadEnv true (Some (Video (3 * 1024 * 1024 * 1024) "f1")) "2025-03-01"
            (fun _ => inr tt).

End RoutesSpec.

Module RaceSpec.
Import Routes Race.

(** The request found an entry; the request has scheduled its reply. *)
Definition saw_entry (p : pc) : bool :=
  match p with AtReply | AtReturn | Rejected => true | _ => false end.

Definition has_replied (p : pc) : bool :=
  match p with AtReturn | Rejected => true | _ => false end.

(** What holds in every state of an execution that starts with the
    table [table0] and the requests [reqs]. *)
Record inv (reqs : list request) (table0 : gmap Z task_info) (s : state)
  : Prop := Inv {
  inv_length : length (pcs s) = length reqs;
  inv_lock : forall i p,
    pcs s !! i = Some p -> in_critical p = true -> lock s = Some i;
  inv_holder : forall i,
    lock s = Some i -> exists p, pcs s !! i = Some p /\ in_critical p = true;
  inv_fresh : forall i r,
    reqs !! i = Some r -> pcs s !! i = Some AtInsert -> table s !! owner r = None;
  inv_entry : forall i r p,
    reqs !! i = Some r -> pcs s !! i = Some p -> holds_entry p = true ->
    table s !! owner r = Some (new_task i (kind r));
  inv_origin : forall u t,
    table s !! u = Some t ->
    table0 !! u = Some t
    \/ exists i r p, reqs !! i = Some r /\ pcs s !! i = Some p
                     /\ holds_entry p = true /\ owner r = u;
  inv_seen : forall i r p,
    reqs !! i = Some r -> pcs s !! i = Some p -> saw_entry p = true ->
    is_Some (table s !! owner r);
  inv_started : forall i, i ∈ started s <-> pcs s !! i = Some Started;
  inv_replied : forall i p,
    pcs s !! i = Some p -> has_replied p = true -> i ∈ replied s;
  inv_kept : forall u, is_Some (table0 !! u) -> is_Some (table s !! u);
  inv_was_free : forall i r p,
    reqs !! i = Some r -> pcs s !! i = Some p -> holds_entry p = true ->
    table0 !! owner r = None }.

(** The steps a request still has to take, at most. *)
Definition weight (p : pc) : nat :=
  match p with
  | AtLock => 5 | AtTest => 4 | AtInsert => 3 | AtReply => 2 | AtExit => 2
  | AtReturn => 1 | Accepted => 1 | Started => 0 | Rejected => 0
  end.

(** The steps all requests still have to take, at most. *)
Definition work (s : state) : nat := sum_list (weight <$> pcs s).

(** Two requests of owner 42, the second one arriving while the first
    holds the lock. *)
Definition two_requests : list request :=
  [Request 42 youtube; Request 42 file].

End RaceSpec.

Module SenderSpec.
Import PyStr Py Sender.

(** What the loop still owes: the buffer, unless the loop ended by
    handing it over. *)
Definition pending {Time Chat} (c : control) (st : @state Time Chat) : str :=
  match c with
  | Break => if nonblank (buffer st) then [] else buffer st
  | _ => buffer st
  end.

(** A poll at which the loop may end. *)
Definition stops {Time} (p : poll Time) : bool :=
  match p with
  | EndOfOutput | Empty true => true
  | _ => false
  end.

(** Everything taken from the queue is either handed over or still owed,
    in the order it came. *)
Definition accounts {Time Chat} (text : str) (c : control) (st : @state Time Chat)
  : Prop :=
  concat (delivered st) ++ pending c st = text
  /\ Forall (fun b => nonblank b = true) (delivered st)
  /\ (c = Break -> forallb isspace (pending c st) = true).

(** A delivery that always returns and counts the calls. *)
Definition always_delivers (n : nat) (text : str) : nat * result unit :=
  (S n, inr tt).

End SenderSpec.

Module DeliverySpec.
Import PyStr Py OutputHandler.

(** The chunks sent, in the order of the sends. *)
Definition sends (trace : list event) : list str :=
  omap (fun ev => match ev with EvSend _ chunk => Some chunk | _ => None end) trace.

(** The chunks the send loop does not skip. *)
Definition to_send (chunks : list str) : list str :=
  filter (fun chunk => blank chunk = false) chunks.

(** A chunk cut by the loop: it has the full length, or it ends at a line
    break beyond 70% of the limit. *)
Definition well_cut (limit : Z) (chunk : str) : Prop :=
  len chunk = limit
  \/ (7 * limit < 10 * (len chunk - 1) /\ len chunk <= limit
      /\ last chunk = Some newline).

(** A client that accepts every send and counts them. *)
Definition accepting (n : nat) (chat_id : Z) (chunk : str) : nat * result unit :=
  (S n, inr tt).

(** A client that rejects the first two sends and accepts from then on. *)
Definition flaky (n : nat) (chat_id : Z) (chunk : str) : nat * result unit :=
  (S n, if (n <? 2)%nat then inl TimeoutError else inr tt).

End DeliverySpec.

Module HandlerSpec.
Import PyStr Py Handler.

(** The characters of a text that are not whitespace. *)
Definition visible (s : str) : str := List.filter (fun c => negb (isspace c)) s.

(** A callback that always raises; the chat counts the calls. *)
Definition failing (n : nat) (text : str) : nat * result unit :=
  (S n, inl (Exception "network")).

(** Time in seconds, with a send interval of two of them. *)
Definition every_second : nat -> nat -> bool := fun now last => (last + 2 <=? now)%nat.

(** What a handler holds or has handed over, without the whitespace. *)
Definition seen {Time Chat} (h : @handler Time Chat) : str :=
  visible (concat (handed h) ++ buffer h).

End HandlerSpec.

Module JobSpec.
Import Py Routes RoutesSpec.

(** [w'] is [w] with the actions [l] added at the end, and nothing else
    changed. *)
Definition added (w w' : world) (l : list action) : Prop :=
  user_processing_tasks w' = user_processing_tasks w
  /\ user_states w' = user_states w
  /\ metadata_file w' = metadata_file w
  /\ next_object w' = next_object w
  /\ actions w' = actions w ++ l.

(** A computation that only talks to the chat, and says only what [P]
    allows. *)
Definition only_adds {A} (P : action -> Prop) (m : M world A) : Prop :=
  forall w, exists l, added w (m w).1 l /\ Forall P l.

(** A job in which every awaited call raises an [Exception]. *)
Definition all_fail : job_env :=
  JobEnv (inl (Exception "setup")) (fun _ => inl (Exception "chat"))
         (inl (Exception "worker")) true (inl (Exception "worker"))
         (inl TimeoutError) (inl TimeoutError) true (fun _ => inr tt).

(** A job whose wait for the worker is cancelled. *)
Definition cancelled_wait : job_env :=
  JobEnv (inr tt) (fun _ => inr tt) (inl CancelledError) false (inl CancelledError)
         (inr tt) (inr tt) true (fun _ => inr tt).

End JobSpec.

Module UploadSpec.
Import Py Routes RoutesSpec.

(** The upload passes the checks before the registration (lines
    1292-1317): the sender is authenticated, there is a file of at most
    2 GiB, the capacity check returns [warn] leaving [md'] in
    metadata.json, and the warning, when there is one, is delivered. *)
Definition passes_checks (env : upload_env) (w : world) (warn : bool)
    (md' : Utils.metadata_dict) : Prop :=
  up_authenticated env = true
  /\ (exists v, up_video env = Some v /\ file_size v <= MAX_FILE_SIZE)
  /\ Utils.check_token_warning (up_today env) (metadata_file w) = (md', inr warn)
  /\ (warn = true -> up_outcome env (Reply token_warning) = inr tt).

Definition warning_reply (warn : bool) : list action :=
  if warn then [Reply token_warning] else [].

(** Replies to the sender, awaited or scheduled. *)
Definition is_reply (a : action) : Prop :=
  match a with
  | Reply _ | ScheduleReply _ => True
  | _ => False
  end.

(** An authenticated upload of 1 MiB for which every call succeeds, one
    whose download fails, and one whose "downloading" notice fails. *)
Definition small_upload : upload_env :=
  UploadEnv true (Some (Video (1024 * 1024) "f1")) "2025-03-01" (fun _ => inr tt).

Definition download_fails : upload_env :=
  UploadEnv true (Some (Video (1024 * 1024) "f1")) "2025-03-01"
    (fun a => match a with Download => inl (Exception "network") | _ => inr tt end).

Definition notice_fails : upload_env :=
  UploadEnv true (Some (Video (1024 * 1024) "f1")) "2025-03-01"
    (fun a => match a with
              | Reply downloading_video => inl (Exception "flood wait")
              | _ => inr tt
              end).

(** A state in which owner 42 runs a job and is in [STATE_PROCESSING]. *)
Definition busy : world :=
  World {[ 42 := TaskInfo 0 youtube None None (Some 1%nat) ]}
        {[ 42 := STATE_PROCESSING ]} ∅ [] 2.

(** What is left of [handle_video_message] after the checks. *)
Definition start_upload (env : upload_env) (user_id : Z) : M world unit :=
  (set_user_state user_id (Some STATE_PROCESSING) ;;
   flag <- new_object ;;
   registered <- try_register user_id flag file ;;
   if negb registered then set_user_state user_id None
   else
     perform (up_outcome env) (Reply downloading_video) ;;
     try_except
       (perform (up_outcome env) Download ;;
        task <- new_object ;;
        modify (record CreateTask) ;;
        modify (with_tasks (fun tasks =>
          match tasks !! user_id with
          | Some info =>
              <[user_id := TaskInfo (shutdown_flag info) (type_of info)
                             (executor_task info) (output_task info) (Some task)]> tasks
          | None => tasks
          end)))
       [ (is_Exception, fun e =>
            logged (perform (up_outcome env) (Reply (error_occurred (raised e)))) ;;
            unregister user_id ;;
            set_user_state user_id None) ])%py.

End UploadSpec.

Module CancelSpec.
Import Py Routes Cancel.

(** The wait for a cancelled task ends without an exception: it returns,
    times out or is cancelled. *)
Definition settles (r : result unit) : bool :=
  match r with
  | inr _ => true
  | inl e => is_TimeoutError e || is_CancelledError e
  end.

(** The tasks of an entry that are waited for, and how the wait must end
    for the function to go on. *)
Definition waits_settle (env : cancel_env) (info : task_info) : Prop :=
  (forall t, output_task info = Some t -> is_done env t = false ->
             settles (wait_for env t) = true)
  /\ (forall t, executor_task info = Some t -> is_done env t = false ->
                wait_for env t <> inl CancelledError)
  /\ (forall t, Routes.task info = Some t -> is_done env t = false ->
                settles (wait_for env t) = true).

(** A running job of owner 42: flag 0, processing task 1, worker 2,
    output task 3. *)
Definition running : state :=
  State (World {[ 42 := TaskInfo 0 youtube (Some 2%nat) (Some 3%nat) (Some 1%nat) ]}
               {[ 42 := STATE_PROCESSING ]} ∅ [] 4) [].

(** Tasks that end when cancelled; a worker that outlasts the wait. *)
Definition responsive : cancel_env :=
  CancelEnv (fun _ => false)
            (fun t => if Nat.eqb t 2 then inl TimeoutError else inl CancelledError)
            (inr tt) (fun _ => inr tt).

(** The handler is itself cancelled while it waits for the worker. *)
Definition interrupted : cancel_env :=
  CancelEnv (fun _ => false) (fun _ => inl CancelledError) (inr tt) (fun _ => inr tt).

(** A step of [cancel_user_processing] before the removal: the tables
    stay, effects are added, none of them a [SetFlag]. *)
Definition quiet (m : M state unit) : Prop :=
  forall s, exists l,
    shared (m s).1 = shared s
    /\ effects (m s).1 = effects s ++ l
    /\ Forall (fun e => forall f, e <> SetFlag f) l.

(** The waits of the function, between the flag and the removal. *)
Definition waits (env : cancel_env) (task_info : task_info) : M state unit :=
  (when_running env (output_task task_info) (fun t =>
     modify (effect_of (CancelTask t)) ;;
     try_except (await env t 3)
       [ (fun e => is_TimeoutError e || is_CancelledError e, fun _ => ret tt) ]) ;;
   when_running env (executor_task task_info) (fun t =>
     try_except (await env t 10)
       [ (is_TimeoutError, fun _ => ret tt);
         (is_Exception, fun _ => ret tt) ]) ;;
   when_running env (Routes.task task_info) (fun t =>
     modify (effect_of (CancelTask t)) ;;
     try_except (await env t 5)
       [ (fun e => is_TimeoutError e || is_CancelledError e, fun _ => ret tt) ]))%py.

End CancelSpec.

Module LinkSpec.
Import Py Routes Links.

(** What the capacity check adds to the trace. *)
Definition warning_scheduled (warn : bool) : list said :=
  if warn then [Did (ScheduleReply token_warning)] else [].

(** A link sent while the reply to it fails, and one for which it
    succeeds. *)
Definition reply_fails : link_env := LinkEnv "2025-03-01" (inl (Exception "flood wait")).

Definition reply_succeeds : link_env := LinkEnv "2025-03-01" (inr tt).

Definition nobody : state := State (World ∅ ∅ ∅ [] 0) [].

(** Owner 42 runs a job and is in [STATE_PROCESSING]. *)
Definition at_work : state :=
  State (World {[ 42 := TaskInfo 0 youtube None None (Some 1%nat) ]}
               {[ 42 := STATE_PROCESSING ]} ∅ [] 2) [].

End LinkSpec.

Module TokenSpec.
Import PyStr Py Tokens.

(** A token as [load_tokens] returns it from a file: not empty, stripped,
    on one line. *)
Definition one_line (t : str) : Prop := (newline ∉ t) /\ (carriage_return ∉ t).

Definition clean (t : str) : Prop := t <> [] /\ strip t = t /\ one_line t.

(** No key in the environment. *)
Definition no_env_key (fs : files) : Prop :=
  OPENROUTER_API_KEY fs = None \/ OPENROUTER_API_KEY fs = Some [].

End TokenSpec.

Module TokenExamples.
Import PyStr Py Tokens.

(** The tokens ["ab"] and ["cd"], and a file holding [" ab \r\n\ncd"]. *)
Definition ab : str := [97; 98]%N.
Definition cd : str := [99; 100]%N.

Definition two_tokens : files :=
  Files None (Content [32; 97; 98; 32; 13; 10; 10; 99; 100]%N) true.

Definition with_env_key : files :=
  Files (Some [32; 97; 98; 10]%N) (Content [99; 100; 10]%N) true.

End TokenExamples.

(* ===================================================================== *)
(** * Facts about Python strings *)
(* ===================================================================== *)

Module PyStrFacts.
Import PyStr.

Lemma len_nonneg (s : str) : 0 <= len s.
Proof. unfold len. lia. Qed.

Lemma len_app (s t : str) : len (s ++ t) = len s + len t.
Proof. unfold len. rewrite length_app. lia. Qed.

Lemma slice_to_take (s : str) (n : Z) :
  0 <= n -> slice_to s n = take (Z.to_nat n) s.
Proof.
  intros Hn. unfold slice_to, bound.
  destruct (Z.ltb_spec n 0); [lia | reflexivity].
Qed.

Lemma slice_from_drop (s : str) (n : Z) :
  0 <= n -> slice_from s n = drop (Z.to_nat n) s.
Proof.
  intros Hn. unfold slice_from, bound.
  destruct (Z.ltb_spec n 0); [lia | reflexivity].
Qed.

Lemma slice_to_from (s : str) (n : Z) : slice_to s n ++ slice_from s n = s.
Proof. apply take_drop. Qed.

Lemma len_slice_to (s : str) (n : Z) :
  0 <= n <= len s -> len (slice_to s n) = n.
Proof.
  intros Hn. rewrite slice_to_take by lia.
  unfold len in *. rewrite length_take. lia.
Qed.

Lemma len_slice_from (s : str) (n : Z) :
  0 <= n <= len s -> len (slice_from s n) = len s - n.
Proof.
  intros Hn. rewrite slice_from_drop by lia.
  unfold len in *. rewrite length_drop. lia.
Qed.

(** [rfind] returns the last position of the character. *)
Lemma rfind_from_spec (c : char) (s : str) (i : Z) :
  0 <= i ->
  (rfind_from c s i = -1 /\ forall q, s !! q <> Some c)
  \/ (exists n : nat,
        rfind_from c s i = i + Z.of_nat n /\ s !! n = Some c
        /\ forall q, (n < q)%nat -> s !! q <> Some c).
Proof.
  revert i. induction s as [|x r IH]; intros i Hi; simpl.
  - left. split; [reflexivity | intros [|q]; discriminate].
  - destruct (IH (i + 1) ltac:(lia)) as [[Hk Hnone] | (n & Hk & Hn & Hlast)].
    + rewrite Hk. simpl. destruct (N.eqb_spec x c) as [-> | Hne].
      * right. exists 0%nat. split; [lia |]. split; [reflexivity |].
        intros [|q] Hq; [lia | simpl; apply Hnone].
      * left. split; [reflexivity |].
        intros [|q]; simpl; [congruence | apply Hnone].
    + rewrite Hk. destruct (Z.leb_spec 0 (i + 1 + Z.of_nat n)); [| lia].
      right. exists (S n). split; [lia |]. split; [exact Hn |].
      intros [|q] Hq; [lia |]. simpl. apply Hlast. lia.
Qed.

Lemma rfind_spec (c : char) (s : str) :
  (rfind c s = -1 /\ forall q, s !! q <> Some c)
  \/ (exists n : nat,
        rfind c s = Z.of_nat n /\ s !! n = Some c
        /\ forall q, (n < q)%nat -> s !! q <> Some c).
Proof.
  destruct (rfind_from_spec c s 0 ltac:(lia)) as [H | (n & H1 & H2)]; [by left |].
  right. exists n. split; [exact H1 | exact H2].
Qed.

Lemma rfind_lt_len (c : char) (s : str) : -1 <= rfind c s < len s.
Proof.
  destruct (rfind_spec c s) as [[-> _] | (n & -> & Hn & _)].
  - pose proof (len_nonneg s). lia.
  - apply lookup_lt_Some in Hn. unfold len. lia.
Qed.

(** The position of the last occurrence determines [rfind]. *)
Lemma rfind_last (c : char) (s : str) (p : nat) :
  s !! p = Some c -> (forall q, (p < q)%nat -> s !! q <> Some c) ->
  rfind c s = Z.of_nat p.
Proof.
  intros Hp Hlast.
  destruct (rfind_spec c s) as [[_ Hnone] | (n & -> & Hn & Hafter)].
  - exfalso. exact (Hnone p Hp).
  - f_equal. destruct (Nat.lt_trichotomy n p) as [Hlt | [-> | Hgt]]; [| reflexivity |].
    + exfalso. exact (Hafter p Hlt Hp).
    + exfalso. exact (Hlast n Hgt Hn).
Qed.

Lemma rfind_le (c : char) (s : str) (k : nat) :
  (forall q, (k < q)%nat -> s !! q <> Some c) -> rfind c s <= Z.of_nat k.
Proof.
  intros Hnone.
  destruct (rfind_spec c s) as [[-> _] | (n & -> & Hn & _)]; [lia |].
  destruct (Nat.le_gt_cases n k) as [Hle | Hgt]; [lia |].
  exfalso. exact (Hnone n Hgt Hn).
Qed.

(** [strip] leaves nothing exactly on whitespace-only strings. *)
Lemma lstrip_nil (s : str) : lstrip s = [] <-> forallb isspace s = true.
Proof.
  induction s as [|x r IH]; simpl; [done |].
  destruct (isspace x); simpl; [exact IH | split; discriminate].
Qed.

Lemma lstrip_head (s : str) (x : char) (r : str) :
  lstrip s = x :: r -> isspace x = false.
Proof.
  induction s as [|y t IH]; simpl; [discriminate |].
  destruct (isspace y) eqn:Hy; [exact IH |].
  intros [= <- _]. exact Hy.
Qed.

Lemma forallb_isspace_reverse (s : str) :
  forallb isspace (reverse s) = forallb isspace s.
Proof.
  induction s as [|x r IH]; [reflexivity |].
  rewrite reverse_cons, forallb_app, IH. simpl.
  rewrite andb_true_r. apply andb_comm.
Qed.

Lemma strip_nil (s : str) : strip s = [] <-> forallb isspace s = true.
Proof.
  unfold strip, rstrip. rewrite <- lstrip_nil. split.
  - intros H. apply (f_equal reverse) in H. rewrite reverse_involutive in H.
    change (reverse []) with (@nil char) in H.
    apply lstrip_nil in H. rewrite forallb_isspace_reverse in H.
    destruct (lstrip s) as [|x r] eqn:Hs; [reflexivity |].
    apply lstrip_head in Hs. simpl in H. rewrite Hs in H. discriminate.
  - intros ->. reflexivity.
Qed.

Lemma truthy_strip (s : str) :
  truthy (strip s) = negb (forallb isspace s).
Proof.
  destruct (forallb isspace s) eqn:H.
  - apply strip_nil in H. by rewrite H.
  - destruct (strip s) eqn:Hs; [| reflexivity].
    apply strip_nil in Hs. congruence.
Qed.

End PyStrFacts.

(* ===================================================================== *)
(** * Facts about chunking *)
(* ===================================================================== *)

Module ChunkFacts.
Import PyStr PyStrFacts OutputHandler ChunkSpec.

Lemma split_loop_done (limit : Z) (fuel : nat) (text : str) (acc : list str) :
  len text <= limit -> split_loop limit fuel text acc = Some (text, acc).
Proof.
  intros H. destruct fuel; simpl;
    destruct (Z.ltb_spec limit (len text)); (lia || reflexivity).
Qed.

Lemma split_loop_step (limit : Z) (fuel : nat) (text : str) (acc : list str) :
  limit < len text ->
  split_loop limit (S fuel) text acc
  = split_loop limit fuel (after_first_chunk limit text)
      (acc ++ [first_chunk limit text]).
Proof.
  intros H. simpl. unfold first_chunk, after_first_chunk.
  destruct (Z.ltb_spec limit (len text)); [| lia].
  destruct (newline_close_to_end limit _); reflexivity.
Qed.

(** One pass cuts between 1 and [limit] characters off the front. *)
Lemma first_chunk_cut (limit : Z) (text : str) :
  0 < limit -> limit < len text ->
  first_chunk limit text ++ after_first_chunk limit text = text
  /\ 0 < len (first_chunk limit text) <= limit
  /\ len (after_first_chunk limit text) = len text - len (first_chunk limit text).
Proof.
  intros Hpos Hlong. unfold first_chunk, after_first_chunk.
  pose proof (rfind_lt_len newline (slice_to text limit)) as Hr.
  rewrite len_slice_to in Hr by lia.
  set (ln := rfind newline (slice_to text limit)) in *.
  unfold newline_close_to_end.
  destruct (Z.ltb_spec (7 * limit) (10 * ln)).
  - split; [apply slice_to_from |].
    rewrite len_slice_to, len_slice_from by lia. lia.
  - split; [apply slice_to_from |].
    rewrite len_slice_to, len_slice_from by lia. lia.
Qed.

(** The loop ends within [length text] passes; the chunks it adds and the
    remainder make up the text, and every chunk fits the limit. *)
Lemma split_loop_total (limit : Z) (fuel : nat) :
  0 < limit ->
  forall (text : str) (acc : list str),
    (length text <= fuel)%nat ->
    exists rest more,
      split_loop limit fuel text acc = Some (rest, acc ++ more)
      /\ concat more ++ rest = text
      /\ Forall (fun c => 0 < len c <= limit) more
      /\ len rest <= limit.
Proof.
  intros Hpos. induction fuel as [|fuel IH]; intros text acc Hfuel.
  - exists text, []. rewrite app_nil_r.
    assert (len text <= limit) by (unfold len; lia).
    rewrite split_loop_done by lia. repeat split; [constructor | lia].
  - destruct (Z.le_gt_cases (len text) limit) as [Hfit | Hlong].
    + exists text, []. rewrite app_nil_r, split_loop_done by lia.
      repeat split; [constructor | lia].
    + rewrite split_loop_step by lia.
      destruct (first_chunk_cut limit text Hpos ltac:(lia)) as (Hcat & Hlen & Hrest).
      destruct (IH (after_first_chunk limit text) (acc ++ [first_chunk limit text]))
        as (rest & more & Hrun & Hmore & Hall & Hlast).
      { unfold len in *. lia. }
      exists rest, (first_chunk limit text :: more).
      split; [rewrite Hrun; f_equal; f_equal; by rewrite <- app_assoc |].
      split; [simpl; rewrite <- app_assoc, Hmore; exact Hcat |].
      split; [constructor; [lia | exact Hall] | exact Hlast].
Qed.

Lemma max_length_pos : 0 < max_length.
Proof. reflexivity. Qed.

(** Past the limit the first chunk is the one cut by the first pass. *)
Lemma split_with_first (limit : Z) (text : str) :
  0 < limit -> limit < len text ->
  exists more, split_with limit text = Some (first_chunk limit text :: more).
Proof.
  intros Hpos Hlong. unfold split_with.
  destruct (length text) as [|fuel] eqn:Hlen; [unfold len in Hlong; lia |].
  rewrite split_loop_step by exact Hlong.
  destruct (first_chunk_cut limit text Hpos Hlong) as (_ & _ & Hrest).
  destruct (split_loop_total limit fuel Hpos (after_first_chunk limit text)
              ([] ++ [first_chunk limit text]))
    as (rest & more & -> & _).
  { pose proof (first_chunk_cut limit text Hpos Hlong). unfold len in *. lia. }
  destruct (truthy (strip rest)); simpl; eauto.
Qed.

(** The first chunk ends at the last line break of the prefix when that
    break lies beyond 70% of the limit. *)
Lemma first_chunk_at_newline (limit : Z) (text : str) (p : nat) :
  0 < limit -> limit < len text ->
  text !! p = Some newline -> Z.of_nat p < limit ->
  (forall q, (p < q)%nat -> Z.of_nat q < limit -> text !! q <> Some newline) ->
  7 * limit < 10 * Z.of_nat p ->
  first_chunk limit text = slice_to text (Z.of_nat p + 1).
Proof.
  intros Hpos Hlong Hp Hin Hlast Hclose. unfold first_chunk.
  rewrite (rfind_last newline (slice_to text limit) p).
  - unfold newline_close_to_end.
    destruct (Z.ltb_spec (7 * limit) (10 * Z.of_nat p)); [reflexivity | lia].
  - rewrite slice_to_take by lia. rewrite lookup_take_lt by lia. exact Hp.
  - intros q Hq. rewrite slice_to_take by lia.
    destruct (Z.lt_ge_cases (Z.of_nat q) limit) as [Hlt | Hge].
    + rewrite lookup_take_lt by lia. apply Hlast; [exact Hq | exact Hlt].
    + rewrite lookup_take_ge by lia. discriminate.
Qed.

(** Without a line break beyond 70% of the limit the cut is the limit. *)
Lemma first_chunk_at_limit (limit : Z) (text : str) :
  0 < limit -> limit < len text ->
  (forall q : nat, 7 * limit < 10 * Z.of_nat q -> Z.of_nat q < limit ->
                   text !! q <> Some newline) ->
  first_chunk limit text = slice_to text limit.
Proof.
  intros Hpos Hlong Hnone. unfold first_chunk, newline_close_to_end.
  destruct (Z.ltb_spec (7 * limit) (10 * rfind newline (slice_to text limit)))
    as [Hclose | _]; [| reflexivity].
  exfalso.
  destruct (rfind_spec newline (slice_to text limit))
    as [[Hk _] | (n & Hk & Hn & _)]; rewrite Hk in Hclose; [lia |].
  rewrite slice_to_take in Hn by lia.
  assert (Z.of_nat n < limit).
  { apply lookup_lt_Some in Hn. rewrite length_take in Hn. lia. }
  rewrite lookup_take_lt in Hn by lia.
  exact (Hnone n Hclose H Hn).
Qed.

(** The splitting step ends, and its chunks are a prefix of the text. *)
Lemma split_chunks_total (text : str) :
  exists chunks dropped,
    split_chunks text = Some chunks /\ concat chunks ++ dropped = text.
Proof.
  destruct (split_loop_total max_length (length text) max_length_pos text [])
    as (rest & more & Hrun & Hcat & _); [lia |].
  unfold split_chunks, split_with. rewrite Hrun. simpl.
  destruct (truthy (strip rest)).
  - exists (more ++ [rest]), []. split; [reflexivity |].
    rewrite concat_app. simpl. by rewrite !app_nil_r.
  - by exists more, rest.
Qed.

(** The same two facts, with "no line break in [text[p+1:limit]]". *)
Lemma no_newline_between (limit : Z) (text : str) (p : Z) (q : nat) :
  0 <= p -> newline ∉ slice_from (slice_to text limit) (p + 1) ->
  p < Z.of_nat q -> Z.of_nat q < limit -> text !! q <> Some newline.
Proof.
  intros Hp Hnot Hpq Hq Hnl. apply Hnot.
  rewrite slice_from_drop, slice_to_take by lia.
  apply list_elem_of_lookup. exists (q - Z.to_nat (p + 1))%nat.
  rewrite lookup_drop, lookup_take_lt by lia.
  replace (Z.to_nat (p + 1) + (q - Z.to_nat (p + 1)))%nat with q by lia.
  exact Hnl.
Qed.

(** What a pass leaves is the text without the chunk it cut. *)
Lemma left_after_first (limit : Z) (text : str) :
  0 < limit -> limit < len text ->
  after_first_chunk limit text = drop (length (first_chunk limit text)) text.
Proof.
  intros Hpos Hlong.
  destruct (first_chunk_cut limit text Hpos Hlong) as (Hcat & _).
  transitivity (drop (length (first_chunk limit text))
                     (first_chunk limit text ++ after_first_chunk limit text));
    [by rewrite drop_app_length | by rewrite Hcat].
Qed.

(** Every pass cuts the chunk that the rule gives for the text the passes
    before it have left, and the loop goes on as long as more than
    [limit] characters are left. *)
Lemma split_loop_passes (limit : Z) (fuel : nat) :
  0 < limit ->
  forall (text : str) (acc : list str),
    (length text <= fuel)%nat ->
    exists more,
      split_loop limit fuel text acc
      = Some (drop (length (concat more)) text, acc ++ more)
      /\ len (drop (length (concat more)) text) <= limit
      /\ forall (i : nat) (chunk : str),
           more !! i = Some chunk ->
           limit < len (drop (length (concat (take i more))) text)
           /\ chunk = first_chunk limit (drop (length (concat (take i more))) text).
Proof.
  intros Hpos. induction fuel as [|fuel IH]; intros text acc Hfuel.
  - exists [].
    assert (len text <= limit) by (unfold len; lia).
    rewrite app_nil_r, split_loop_done by lia. simpl.
    split; [done |]. split; [done |].
    intros i chunk. by rewrite lookup_nil.
  - destruct (Z.le_gt_cases (len text) limit) as [Hfit | Hlong].
    + exists []. rewrite app_nil_r, split_loop_done by lia. simpl.
      split; [done |]. split; [done |]. intros i chunk. by rewrite lookup_nil.
    + rewrite split_loop_step by lia.
      destruct (first_chunk_cut limit text Hpos ltac:(lia)) as (Hcat & Hlen & Hrest).
      destruct (IH (after_first_chunk limit text) (acc ++ [first_chunk limit text]))
        as (more & Hrun & Hlast & Hpass).
      { unfold len in *. lia. }
      assert (Hdrop : forall k,
                drop (length (first_chunk limit text ++ k)) text
                = drop (length k) (after_first_chunk limit text)).
      { intros k. rewrite length_app, <- drop_drop.
        by rewrite <- left_after_first by lia. }
      exists (first_chunk limit text :: more).
      cbn [concat]. rewrite Hdrop. split; [by rewrite Hrun, <- app_assoc |].
      split; [exact Hlast |].
      intros [|i] chunk; cbn [take concat lookup list_lookup].
      * intros [= <-]. cbn [length drop]. split; [exact Hlong | reflexivity].
      * intros Hi. rewrite Hdrop. by apply Hpass.
Qed.

End ChunkFacts.

(* ===================================================================== *)
(** * Chunking: the theorems *)
(* ===================================================================== *)

Module ChunkTheorems.
Import PyStr PyStrFacts OutputHandler ChunkSpec ChunkFacts.

(** C2, as stated, fails: the text of 4000 letters followed by one space
    is split into the single chunk of the 4000 letters; the space is
    dropped, so the chunks do not concatenate to the text. *)
Lemma chunks_lose_blank_remainder :
  split_chunks letters_then_space = Some [repeat 97%N 4000]
  /\ concat [repeat 97%N 4000] <> letters_then_space.
Proof.
  split; [vm_compute; reflexivity |].
  intros H. apply (f_equal length) in H. vm_compute in H. discriminate.
Qed.

(** C2, amended: for every text the splitting step ends; the chunks,
    concatenated in order, are the text without a final remainder that is
    empty or whitespace-only and at most 4000 characters long (nothing
    else is dropped and nothing is duplicated; a text that does not end in
    whitespace is reproduced exactly), and no chunk is longer than 4000
    characters. *)
Theorem split_chunks_roundtrip (text : str) :
  exists chunks dropped,
    split_chunks text = Some chunks
    /\ concat chunks ++ dropped = text
    /\ forallb isspace dropped = true
    /\ len dropped <= max_length
    /\ Forall (fun c => len c <= max_length) chunks
    /\ (forall c, last text = Some c -> isspace c = false -> concat chunks = text).
Proof.
  destruct (split_loop_total max_length (length text) max_length_pos text [])
    as (rest & more & Hrun & Hcat & Hall & Hrest); [lia |].
  assert (Hle : Forall (fun c => len c <= max_length) more).
  { eapply Forall_impl; [exact Hall |]. simpl. intros c Hc. lia. }
  unfold split_chunks, split_with. rewrite Hrun. simpl.
  rewrite truthy_strip. destruct (forallb isspace rest) eqn:Hblank; simpl.
  - exists more, rest. repeat split; try assumption.
    intros c Hlast Hc. apply last_Some in Hlast as [front Hfront].
    destruct (decide (rest = [])) as [-> | Hne]; [by rewrite app_nil_r in Hcat |].
    exfalso. destruct (exists_last Hne) as (front' & y & ->).
    rewrite <- Hcat, app_assoc in Hfront.
    apply app_inj_tail in Hfront as [_ ->].
    rewrite forallb_app in Hblank. simpl in Hblank.
    rewrite Hc in Hblank. by rewrite andb_false_r in Hblank.
  - exists (more ++ [rest]), [].
    assert (Hall' : concat (more ++ [rest]) = text).
    { rewrite concat_app. simpl. by rewrite app_nil_r. }
    repeat split.
    + rewrite app_nil_r. exact Hall'.
    + pose proof max_length_pos. unfold len. simpl. lia.
    + apply Forall_app. split; [exact Hle |]. by constructor.
    + intros. exact Hall'.
Qed.

(** C5, as stated, fails at the boundary: with the last line break of the
    prefix at position 2800, which is at 70% of the limit of 4000, the
    first chunk is cut at the hard limit and not at the line break. *)
Lemma newline_at_seventy_percent_is_not_used :
  len newline_at_2800 = 5000
  /\ rfind newline (slice_to newline_at_2800 max_length) = 2800
  /\ 7 * max_length <= 10 * 2800
  /\ option_map (map len) (split_chunks newline_at_2800) = Some [4000; 1000].
Proof.
  repeat split; vm_compute; try reflexivity; discriminate.
Qed.

(** C5, amended: at every pass of the loop, that is whenever the text
    that is left is longer than the limit of 4000, the chunk ends at (and
    includes) the last line break of the 4000-character prefix of what is
    left if that break lies strictly beyond 70% of the limit (position
    greater than 2800); otherwise, also when the break is exactly at
    position 2800, the chunk is the first 4000 characters of what is
    left.  The passes go on until at most 4000 characters are left, and
    a last chunk that no pass cuts is the whole of what is left.  In
    particular a 5000-character text whose last line break in the prefix
    is at position 3200 gets a first chunk ending at that break, and one
    whose last line break in the prefix is at position 1000 gets a first
    chunk of exactly 4000 characters. *)
Theorem first_chunk_boundary (text : str) :
  max_length < len text ->
  (forall p : Z,
      7 * max_length < 10 * p -> p < max_length ->
      text !! Z.to_nat p = Some newline ->
      newline ∉ slice_from (slice_to text max_length) (p + 1) ->
      exists more, split_chunks text = Some (slice_to text (p + 1) :: more))
  /\ (newline ∉ slice_from (slice_to text max_length) 2801 ->
      exists more, split_chunks text = Some (slice_to text max_length :: more))
  /\ (len text = 5000 ->
      text !! Z.to_nat 3200 = Some newline ->
      newline ∉ slice_from (slice_to text max_length) 3201 ->
      exists more, split_chunks text = Some (slice_to text 3201 :: more))
  /\ (len text = 5000 ->
      text !! Z.to_nat 1000 = Some newline ->
      newline ∉ slice_from (slice_to text max_length) 1001 ->
      exists more,
        split_chunks text = Some (slice_to text max_length :: more)
        /\ len (slice_to text max_length) = 4000)
  /\ (exists chunks,
        split_chunks text = Some chunks
        /\ len (slice_from text (len (concat chunks))) <= max_length
        /\ forall (i : nat) (chunk : str),
             chunks !! i = Some chunk ->
             let remaining := slice_from text (len (concat (take i chunks))) in
             (len remaining <= max_length -> chunk = remaining)
             /\ (max_length < len remaining ->
                 (forall p : Z,
                     7 * max_length < 10 * p -> p < max_length ->
                     remaining !! Z.to_nat p = Some newline ->
                     newline ∉ slice_from (slice_to remaining max_length) (p + 1) ->
                     chunk = slice_to remaining (p + 1))
                 /\ (newline ∉ slice_from (slice_to remaining max_length) 2801 ->
                     chunk = slice_to remaining max_length))).
Proof.
  intros Hlong. pose proof max_length_pos as Hpos.
  destruct (split_with_first max_length text Hpos Hlong) as [more Hsplit].
  assert (Hbreak : forall p : Z,
      7 * max_length < 10 * p -> p < max_length ->
      text !! Z.to_nat p = Some newline ->
      newline ∉ slice_from (slice_to text max_length) (p + 1) ->
      exists more, split_chunks text = Some (slice_to text (p + 1) :: more)).
  { intros p Hclose Hin Hp Hnone. exists more. unfold split_chunks.
    rewrite Hsplit. do 2 f_equal.
    rewrite (first_chunk_at_newline max_length text (Z.to_nat p)); try lia.
    - f_equal. lia.
    - exact Hp.
    - intros q Hq Hlim. apply (no_newline_between max_length text p); try lia.
      exact Hnone. }
  assert (Hlimit : forall p : Z,
      0 <= p -> 10 * p <= 7 * max_length ->
      newline ∉ slice_from (slice_to text max_length) (p + 1) ->
      exists more, split_chunks text = Some (slice_to text max_length :: more)).
  { intros p Hp Hfar Hnone. exists more. unfold split_chunks.
    rewrite Hsplit. do 2 f_equal.
    apply first_chunk_at_limit; try lia.
    intros q Hclose Hlim. apply (no_newline_between max_length text p); try lia.
    exact Hnone. }
  split; [exact Hbreak |].
  split; [apply (Hlimit 2800); unfold max_length; lia |].
  split; [| split].
  * intros _ Hp Hnone. apply (Hbreak 3200); try assumption; unfold max_length; lia.
  * intros _ _ Hnone.
    destruct (Hlimit 1000) as [more' Hmore]; try assumption;
      try (unfold max_length; lia).
    exists more'. split; [exact Hmore |].
    rewrite len_slice_to by lia. reflexivity.
  * clear more Hsplit Hbreak Hlimit Hlong.
    destruct (split_loop_passes max_length (length text) Hpos text [])
      as (cut & Hrun & Hlast & Hpass); [lia |].
    assert (Hcat : concat cut ++ drop (length (concat cut)) text = text).
    { destruct (split_loop_total max_length (length text) Hpos text [])
        as (rest' & more' & Hrun' & Hcat & _); [lia |].
      rewrite Hrun in Hrun'. cbn [app] in Hrun'. by injection Hrun' as <- <-. }
    set (rest := drop (length (concat cut)) text) in *.
    assert (Hrule : forall remaining chunk,
              max_length < len remaining -> chunk = first_chunk max_length remaining ->
              (forall p : Z,
                  7 * max_length < 10 * p -> p < max_length ->
                  remaining !! Z.to_nat p = Some newline ->
                  newline ∉ slice_from (slice_to remaining max_length) (p + 1) ->
                  chunk = slice_to remaining (p + 1))
              /\ (newline ∉ slice_from (slice_to remaining max_length) 2801 ->
                  chunk = slice_to remaining max_length)).
    { intros remaining chunk Hlong ->. split.
      - intros p Hclose Hin Hp Hnone.
        rewrite (first_chunk_at_newline max_length remaining (Z.to_nat p)); try lia.
        + f_equal. lia.
        + exact Hp.
        + intros q Hq Hlim. apply (no_newline_between max_length remaining p); try lia.
          exact Hnone.
      - intros Hnone. apply first_chunk_at_limit; try lia.
        intros q Hclose Hlim.
        apply (no_newline_between max_length remaining 2800); try lia;
          [exact Hnone | unfold max_length in *; lia]. }
    assert (Hfrom : forall l : list str,
              slice_from text (len (concat l)) = drop (length (concat l)) text).
    { intros l. rewrite slice_from_drop by apply len_nonneg.
      unfold len. by rewrite Nat2Z.id. }
    assert (Hcut : forall chunks (i : nat) (chunk : str),
              cut `prefix_of` chunks -> cut !! i = Some chunk ->
              let remaining := slice_from text (len (concat (take i chunks))) in
              (len remaining <= max_length -> chunk = remaining)
              /\ (max_length < len remaining ->
                  (forall p : Z,
                      7 * max_length < 10 * p -> p < max_length ->
                      remaining !! Z.to_nat p = Some newline ->
                      newline ∉ slice_from (slice_to remaining max_length) (p + 1) ->
                      chunk = slice_to remaining (p + 1))
                  /\ (newline ∉ slice_from (slice_to remaining max_length) 2801 ->
                      chunk = slice_to remaining max_length))).
    { intros chunks i chunk [k ->] Hi. cbv zeta.
      rewrite take_app_le by (apply lookup_lt_Some in Hi; lia).
      rewrite Hfrom. destruct (Hpass i chunk Hi) as [Hlong Hchunk].
      split; [lia | intros _; by apply Hrule]. }
    unfold split_chunks, split_with. rewrite Hrun. cbn [app].
    destruct (truthy (strip rest)).
    - exists (cut ++ [rest]). split; [reflexivity |]. split.
      { rewrite Hfrom, concat_app. cbn [concat]. rewrite app_nil_r, Hcat.
        rewrite drop_all. unfold len, max_length. simpl. lia. }
      intros i chunk Hi.
      destruct (decide (i < length cut)%nat) as [Hlt | Hge].
      + rewrite lookup_app_l in Hi by exact Hlt.
        apply Hcut; [by apply prefix_app_r | exact Hi].
      + assert (i = length cut) as ->.
        { apply lookup_lt_Some in Hi. rewrite length_app in Hi. simpl in Hi. lia. }
        rewrite list_lookup_middle in Hi by reflexivity. injection Hi as <-.
        cbv zeta. rewrite take_app_length, Hfrom. fold rest.
        split; [done | lia].
    - exists cut. split; [reflexivity |]. split; [by rewrite Hfrom |].
      intros i chunk Hi. by apply Hcut.
Qed.

(** The theorem at the two texts above, and at the second pass over a
    text whose line break comes into reach only then. *)
Lemma first_chunk_boundary_witness :
  max_length < len newline_at_3200
  /\ (exists more,
        split_chunks newline_at_3200 = Some (slice_to newline_at_3200 3201 :: more))
  /\ max_length < len newline_at_1000
  /\ (exists more,
        split_chunks newline_at_1000 = Some (slice_to newline_at_1000 max_length :: more)
        /\ len (slice_to newline_at_1000 max_length) = 4000)
  /\ max_length < len newline_in_second_pass
  /\ (exists chunks second,
        split_chunks newline_in_second_pass = Some chunks
        /\ chunks !! 1%nat = Some second
        /\ second = slice_to (slice_from newline_in_second_pass 4000) 3501).
Proof.
  assert (H1 : max_length < len newline_at_3200) by (vm_compute; reflexivity).
  assert (H2 : max_length < len newline_at_1000) by (vm_compute; reflexivity).
  assert (H3 : max_length < len newline_in_second_pass) by (vm_compute; reflexivity).
  split; [exact H1 |]. split; [| split; [exact H2 | split; [| split; [exact H3 |]]]].
  - destruct (first_chunk_boundary newline_at_3200 H1) as (_ & _ & H & _).
    apply H.
    + vm_compute; reflexivity.
    + vm_compute; reflexivity.
    + apply (bool_decide_unpack _). vm_compute. reflexivity.
  - destruct (first_chunk_boundary newline_at_1000 H2) as (_ & _ & _ & H & _).
    apply H.
    + vm_compute; reflexivity.
    + vm_compute; reflexivity.
    + apply (bool_decide_unpack _). vm_compute. reflexivity.
  - destruct (first_chunk_boundary newline_in_second_pass H3)
      as (_ & _ & _ & _ & chunks & Hsplit & _ & Hrule).
    assert (Hc : split_chunks newline_in_second_pass
                 = Some [repeat 97%N 4000; repeat 97%N 3500 ++ [newline];
                         repeat 97%N 1000]) by (vm_compute; reflexivity).
    rewrite Hc in Hsplit. injection Hsplit as <-.
    exists [repeat 97%N 4000; repeat 97%N 3500 ++ [newline]; repeat 97%N 1000],
           (repeat 97%N 3500 ++ [newline]).
    split; [exact Hc |]. split; [reflexivity |].
    destruct (Hrule 1%nat (repeat 97%N 3500 ++ [newline]) eq_refl) as [_ Hlong].
    destruct Hlong as [Hbreak _]; [vm_compute; reflexivity |].
    apply (Hbreak 3500).
    + reflexivity.
    + reflexivity.
    + vm_compute; reflexivity.
    + apply (bool_decide_unpack _). vm_compute. reflexivity.
Defined.

End ChunkTheorems.

(* ===================================================================== *)
(** * Facts about delivery *)
(* ===================================================================== *)

Module SendFacts.
Import PyStr PyStrFacts Py OutputHandler ChunkSpec ChunkFacts SendSpec.

Lemma blank_spec (s : str) : blank s = forallb isspace s.
Proof.
  unfold blank. rewrite truthy_strip, negb_involutive.
  destruct s; reflexivity.
Qed.

Section Client.
Context {Client : Type}.
Variable send_message : Client -> Z -> str -> Client * result unit.

(** The client fails only with instances of [Exception]: a send error or
    the timeout of [asyncio.wait_for]. *)
Hypothesis fails_with_Exception :
  forall c chat_id chunk e,
    (send_message c chat_id chunk).2 = inl e -> is_Exception e = true.

Variables (chat_id : Z) (max_retries : Z).

(** The backoff of an attempt that sleeps is below the overflow. *)
Local Abbreviation sleeps_fit attempts :=
  (forall a, a ∈ attempts -> a < max_retries - 1 -> a < 1024).

Lemma attempt_send_spec (chunk : str) (attempt : Z) (w : world) :
  (attempt < max_retries - 1 -> attempt < 1024) ->
  attempt_send send_message chat_id chunk max_retries attempt w
  = match send_message (client_of w) chat_id chunk with
    | (c, inr _) => (World c (trace_of w ++ [EvSend chat_id chunk]), inr true)
    | (c, inl _) =>
        (World c (trace_of w
                  ++ failed_attempts chat_id chunk max_retries [attempt]),
         inr false)
    end.
Proof.
  intros Hfit. unfold attempt_send, try_except, bind, do_send, ret.
  pose proof (fails_with_Exception (client_of w) chat_id chunk) as Hexc.
  destruct (send_message (client_of w) chat_id chunk) as [c [e | []]]; simpl;
    [| reflexivity].
  rewrite (Hexc e eq_refl). unfold bind, wait_time, emit, modify, ret, raise.
  destruct (Z.ltb_spec attempt (max_retries - 1)); simpl.
  - destruct (Z.ltb_spec attempt 1024); [| lia]. simpl.
    by rewrite <- app_assoc.
  - reflexivity.
Qed.

(** The retry loop returns; it sends the chunk at least once when there
    is an attempt to make. *)
Lemma retry_loop_returns (chunk : str) (attempts : list Z) :
  sleeps_fit attempts ->
  forall w, exists c more,
    retry_loop send_message chat_id chunk max_retries attempts w
    = (World c (trace_of w ++ more), inr tt)
    /\ (attempts <> [] -> EvSend chat_id chunk ∈ more).
Proof.
  induction attempts as [|a rest IH]; intros Hfit w.
  - exists (client_of w), []. rewrite app_nil_r. destruct w. by split.
  - simpl. unfold bind. rewrite attempt_send_spec
      by (intros; apply (Hfit a); [left | assumption]).
    destruct (send_message (client_of w) chat_id chunk) as [c [e | []]].
    + destruct (IH ltac:(intros x Hx; apply Hfit; by right)
                   (World c (trace_of w ++ failed_attempts chat_id chunk max_retries [a])))
        as (c' & more & -> & _).
      simpl. eexists c', _. rewrite <- !app_assoc. split; [reflexivity |].
      intros _. simpl. left.
    + exists c, [EvSend chat_id chunk]. split; [reflexivity |].
      intros _. left.
Qed.

(** When every send fails, the loop makes every attempt. *)
Lemma retry_loop_all_fail (chunk : str) (attempts : list Z) :
  (forall c ch t, exists e, (send_message c ch t).2 = inl e) ->
  sleeps_fit attempts ->
  forall w, exists c,
    retry_loop send_message chat_id chunk max_retries attempts w
    = (World c (trace_of w ++ failed_attempts chat_id chunk max_retries attempts),
       inr tt).
Proof.
  intros Hfail. induction attempts as [|a rest IH]; intros Hfit w.
  - exists (client_of w). simpl. rewrite app_nil_r. by destruct w.
  - simpl. unfold bind. rewrite attempt_send_spec
      by (intros; apply (Hfit a); [left | assumption]).
    destruct (Hfail (client_of w) chat_id chunk) as [e He].
    destruct (send_message (client_of w) chat_id chunk) as [c [e' | []]];
      [| discriminate].
    destruct (IH ltac:(intros x Hx; apply Hfit; by right)
                 (World c (trace_of w ++ failed_attempts chat_id chunk max_retries [a])))
      as (c' & ->).
    exists c'. simpl. by rewrite app_nil_r, <- !app_assoc.
Qed.

Lemma sleeps_fit_range : max_retries <= 1025 -> sleeps_fit (seqZ 0 max_retries).
Proof. intros Hmax a Ha%elem_of_seqZ Hlt. lia. Qed.

Lemma range_nonempty : 0 < max_retries -> seqZ 0 max_retries <> [].
Proof.
  intros Hpos Hnil. assert (H : 0 ∈ seqZ 0 max_retries) by (apply elem_of_seqZ; lia).
  rewrite Hnil in H. by apply not_elem_of_nil in H.
Qed.

(** The chunk loop returns, and it tries every chunk that is not blank,
    whatever happened to the chunks before it. *)
Lemma send_chunks_returns (chunks : list str) :
  max_retries <= 1025 ->
  forall w, exists c more,
    send_chunks send_message chat_id max_retries chunks w
    = (World c (trace_of w ++ more), inr tt)
    /\ (0 < max_retries ->
        forall chunk, chunk ∈ chunks -> blank chunk = false ->
                      EvSend chat_id chunk ∈ more).
Proof.
  intros Hmax. induction chunks as [|chunk rest IH]; intros w.
  - exists (client_of w), []. rewrite app_nil_r. destruct w.
    split; [reflexivity |]. intros _ chunk Hin. by apply not_elem_of_nil in Hin.
  - simpl. unfold bind. destruct (blank chunk) eqn:Hblank.
    + unfold ret. destruct (IH w) as (c & more & -> & Hall).
      exists c, more. split; [reflexivity |].
      intros Hpos x [-> | Hin]%elem_of_cons Hx; [congruence | by apply Hall].
    + destruct (retry_loop_returns chunk (seqZ 0 max_retries)
                  (sleeps_fit_range Hmax) w) as (c1 & more1 & -> & Hsent).
      destruct (IH (World c1 (trace_of w ++ more1))) as (c & more & -> & Hall).
      exists c, (more1 ++ more). simpl. rewrite <- app_assoc.
      split; [reflexivity |].
      intros Hpos x [-> | Hin]%elem_of_cons Hx; apply elem_of_app.
      * left. apply Hsent. by apply range_nonempty.
      * right. by apply Hall.
Qed.

Lemma send_chunks_all_fail (chunks : list str) :
  (forall c ch t, exists e, (send_message c ch t).2 = inl e) ->
  max_retries <= 1025 ->
  forall w, exists c,
    send_chunks send_message chat_id max_retries chunks w
    = (World c (trace_of w ++ all_failed chat_id max_retries chunks), inr tt).
Proof.
  intros Hfail Hmax. induction chunks as [|chunk rest IH]; intros w.
  - exists (client_of w). simpl. rewrite app_nil_r. by destruct w.
  - simpl. unfold bind. destruct (blank chunk) eqn:Hblank.
    + unfold ret. destruct (IH w) as (c & ->). by exists c.
    + destruct (retry_loop_all_fail chunk (seqZ 0 max_retries) Hfail
                  (sleeps_fit_range Hmax) w) as (c1 & ->).
      destruct (IH (World c1 (trace_of w ++ failed_attempts chat_id chunk
                                max_retries (seqZ 0 max_retries)))) as (c & ->).
      exists c. simpl. by rewrite <- app_assoc.
Qed.

End Client.

End SendFacts.

(* ===================================================================== *)
(** * Delivery: the theorems *)
(* ===================================================================== *)

Module SendTheorems.
Import PyStr PyStrFacts Py OutputHandler ChunkFacts SendSpec SendFacts.

(** The chunks of a blank text are blank. *)
Lemma chunks_of_blank (text : str) (chunks : list str) :
  blank text = true -> split_chunks text = Some chunks ->
  forall chat_id max_retries, all_failed chat_id max_retries chunks = [].
Proof.
  intros Hblank Hsplit.
  destruct (split_chunks_total text) as (chunks' & dropped & Hsplit' & Hcat).
  rewrite Hsplit in Hsplit'. injection Hsplit' as <-.
  rewrite blank_spec, <- Hcat, forallb_app in Hblank.
  apply andb_true_iff in Hblank as [Hchunks _].
  intros chat_id max_retries. clear Hsplit Hcat.
  induction chunks as [|chunk rest IH]; [reflexivity |].
  simpl in Hchunks. rewrite forallb_app in Hchunks.
  apply andb_true_iff in Hchunks as [Hchunk Hrest].
  simpl. rewrite blank_spec, Hchunk. simpl. by apply IH.
Qed.

(** C8: [send_text_to_telegram] returns normally for every text and every
    client whose sends fail only with instances of [Exception] (a send
    error or the timeout), also when all of them fail.  Every chunk that
    is not blank is sent at least once, whatever happened to the chunks
    before it; when every send fails each such chunk is sent
    [max_retries] times with a sleep of 0.5 s doubled at each attempt
    between the sends (0.5 s and 1 s for the default of 3 attempts), and
    then the next chunk follows.  (The bound 1025 on [max_retries] keeps
    [0.5 * 2 ** attempt] inside the doubles.) *)
Theorem send_text_never_raises {Client : Type}
    (send_message : Client -> Z -> str -> Client * result unit)
    (client : option Client) (chat_id : Z) (text : str) (max_retries : Z) :
  (forall c ch t e, (send_message c ch t).2 = inl e -> is_Exception e = true) ->
  max_retries <= 1025 ->
  exists chunks client' trace,
    split_chunks text = Some chunks
    /\ send_text_to_telegram send_message client chat_id text max_retries
       = Some (client', trace, inr tt)
    /\ (is_Some client -> blank text = false -> 0 < max_retries ->
        forall chunk, chunk ∈ chunks -> blank chunk = false ->
                      EvSend chat_id chunk ∈ trace)
    /\ (is_Some client ->
        (forall c ch t, exists e, (send_message c ch t).2 = inl e) ->
        trace = all_failed chat_id max_retries chunks)
    /\ (forall chunk,
        failed_attempts chat_id chunk default_max_retries (seqZ 0 default_max_retries)
        = [EvSend chat_id chunk; EvSleep 500; EvSend chat_id chunk; EvSleep 1000;
           EvSend chat_id chunk]).
Proof.
  intros Hexc Hmax.
  destruct (split_chunks_total text) as (chunks & dropped & Hsplit & _).
  exists chunks. unfold send_text_to_telegram.
  destruct (blank text) eqn:Hblank.
  { exists client, []. repeat split; try done.
    intros _ _. symmetry. by apply (chunks_of_blank text). }
  destruct client as [c |].
  2:{ exists None, []. repeat split; try done; by intros [? ?]. }
  rewrite Hsplit.
  destruct (send_chunks_returns send_message Hexc chat_id max_retries chunks Hmax
              (World c [])) as (c' & more & Hrun & Hsent).
  destruct chunks as [|chunk rest].
  { exists (Some c), []. repeat split; try done.
    intros _ _ _ chunk Hin. by apply not_elem_of_nil in Hin. }
  rewrite Hrun. simpl. exists (Some c'), more.
  split; [reflexivity |]. split; [reflexivity |].
  split; [intros _ _ Hpos; by apply Hsent |].
  split; [| reflexivity].
  intros _ Hfail.
  destruct (send_chunks_all_fail send_message Hexc chat_id max_retries
              (chunk :: rest) Hfail Hmax (World c [])) as (c'' & Hrun').
  rewrite Hrun in Hrun'. simpl in Hrun'. by injection Hrun'.
Qed.

Lemma send_text_never_raises_witness :
  exists chunks client' trace,
    split_chunks [104; 105]%N = Some chunks
    /\ send_text_to_telegram always_timeout (Some tt) 7 [104; 105]%N 3
       = Some (client', trace, inr tt)
    /\ trace = all_failed 7 3 chunks.
Proof.
  destruct (send_text_never_raises always_timeout (Some tt) 7 [104; 105]%N 3)
    as (chunks & client' & trace & H1 & H2 & _ & H3 & _).
  - intros c ch t e [= <-]. reflexivity.
  - lia.
  - exists chunks, client', trace. split; [exact H1 |]. split; [exact H2 |].
    apply H3; [by exists tt |]. intros c ch t. by exists TimeoutError.
Defined.

(** The bound on [max_retries] is needed: with 1026 attempts allowed and
    every send failing, the backoff of attempt 1024 does not fit a double
    and the [OverflowError] leaves the function. *)
Example backoff_overflows_beyond_1025 :
  (fun r => r.2) <$> send_text_to_telegram always_timeout (Some tt) 7 [104; 105]%N 1026
  = Some (inl OverflowError).
Proof. vm_compute. reflexivity. Qed.

(** C10: with an empty or whitespace-only text, or with no client,
    [send_text_to_telegram] returns normally without any send. *)
Theorem send_text_noop {Client : Type}
    (send_message : Client -> Z -> str -> Client * result unit)
    (client : option Client) (chat_id : Z) (text : str) (max_retries : Z) :
  forallb isspace text = true \/ client = None ->
  send_text_to_telegram send_message client chat_id text max_retries
  = Some (client, [], inr tt).
Proof.
  intros Hdegenerate. unfold send_text_to_telegram. rewrite blank_spec.
  destruct (forallb isspace text); [reflexivity |].
  destruct Hdegenerate as [? | ->]; [discriminate | reflexivity].
Qed.

Lemma send_text_noop_witness :
  send_text_to_telegram always_timeout (Some tt) 7 [32; 10; 9]%N 3
  = Some (Some tt, [], inr tt)
  /\ send_text_to_telegram always_timeout None 7 [104; 105]%N 3
     = Some (None, [], inr tt)
  /\ send_text_to_telegram always_timeout (Some tt) 7 [] 3
     = Some (Some tt, [], inr tt).
Proof.
  split; [| split].
  - apply send_text_noop. left. reflexivity.
  - apply send_text_noop. right. reflexivity.
  - apply send_text_noop. left. reflexivity.
Defined.

End SendTheorems.

(* ===================================================================== *)
(** * Facts about the capacity counter *)
(* ===================================================================== *)

Module CapacityFacts.
Import Py Utils CapacitySpec.
Local Open Scope string_scope.

Lemma differs_same_day (today : string) :
  differs_from_date (Some (VStr today)) today = false.
Proof. simpl. by rewrite String.eqb_refl. Qed.

Lemma differs_other_day (stored today : string) :
  stored <> today -> differs_from_date (Some (VStr stored)) today = true.
Proof. intros H. simpl. apply String.eqb_neq in H. by rewrite H. Qed.

(** On the stored day the counter goes down by one unless it is used up. *)
Lemma decrement_same_day (persisted : metadata_dict) (today : string) (n : Z) :
  remaining persisted = Some (VInt n) -> day persisted = Some (VStr today) ->
  decrement_daily_capacity today persisted
  = if (n <=? 0)%Z then (persisted, inr false)
    else (<["daily_capacity" := VInt (n - 1)]> persisted, inr (0 <? n - 1)%Z).
Proof.
  unfold remaining, day, decrement_daily_capacity. intros Hn Hday.
  rewrite Hn, Hday, differs_same_day, Hn. reflexivity.
Qed.

(** On another day, or with no date stored, the counter starts again from
    [DAILY_CAPACITY]. *)
Lemma decrement_new_day (persisted : metadata_dict) (today : string) :
  is_Some (remaining persisted) ->
  differs_from_date (day persisted) today = true ->
  decrement_daily_capacity today persisted
  = (<["daily_capacity" := VInt 999]>
       (<["last_capacity_date" := VStr today]>
          (<["daily_capacity" := VInt DAILY_CAPACITY]> persisted)),
     inr true).
Proof.
  unfold remaining, day, decrement_daily_capacity. intros [v Hv] Hday.
  rewrite Hv, Hday.
  rewrite lookup_insert_ne by done. rewrite lookup_insert_eq. reflexivity.
Qed.

(** Without a counter in the file it is created at [DAILY_CAPACITY]. *)
Lemma decrement_uninitialised (persisted : metadata_dict) (today : string) :
  remaining persisted = None ->
  decrement_daily_capacity today persisted
  = (<["daily_capacity" := VInt 999]>
       (<["last_capacity_date" := VStr today]>
          (<["daily_capacity" := VInt DAILY_CAPACITY]> persisted)),
     inr true).
Proof.
  unfold remaining, decrement_daily_capacity. intros Hv.
  rewrite Hv, lookup_insert_eq, differs_same_day.
  rewrite lookup_insert_ne by done. rewrite lookup_insert_eq. reflexivity.
Qed.

Lemma differs_false_inv (last_date : option value) (today : string) :
  differs_from_date last_date today = false -> last_date = Some (VStr today).
Proof.
  destruct last_date as [[n | d |] |]; simpl; try discriminate.
  intros H. apply negb_false_iff, String.eqb_eq in H. by subst.
Qed.

(** A counter that is not an integer makes the comparison raise; the
    file is left alone. *)
Lemma decrement_not_int (persisted : metadata_dict) (today : string) (v : value) :
  remaining persisted = Some v -> day persisted = Some (VStr today) ->
  (forall n, v <> VInt n) ->
  decrement_daily_capacity today persisted = (persisted, inl TypeError).
Proof.
  unfold remaining, day, decrement_daily_capacity. intros Hv Hday Hnot.
  rewrite Hv, Hday, differs_same_day, Hv. simpl.
  destruct v as [n | |]; [by destruct (Hnot n) | reflexivity | reflexivity].
Qed.

Lemma decrement_keeps_nonneg (persisted : metadata_dict) (today : string) :
  nonneg persisted -> nonneg (decrement_daily_capacity today persisted).1.
Proof.
  intros Hnonneg.
  destruct (remaining persisted) as [v |] eqn:Hv.
  2:{ rewrite decrement_uninitialised by exact Hv. intros c. simpl.
      unfold remaining. rewrite lookup_insert_eq. intros [= <-]. lia. }
  destruct (differs_from_date (day persisted) today) eqn:Hday.
  { rewrite decrement_new_day by (by eexists || exact Hday). intros c. simpl.
    unfold remaining. rewrite lookup_insert_eq. intros [= <-]. lia. }
  apply differs_false_inv in Hday.
  destruct v as [n | d |].
  - rewrite (decrement_same_day _ _ n Hv Hday).
    destruct (Z.leb_spec n 0); [exact Hnonneg |].
    intros c. simpl. unfold remaining. rewrite lookup_insert_eq.
    intros [= <-]. lia.
  - by rewrite (decrement_not_int _ _ _ Hv Hday).
  - by rewrite (decrement_not_int _ _ _ Hv Hday).
Qed.

End CapacityFacts.

(* ===================================================================== *)
(** * The capacity counter: the theorems *)
(* ===================================================================== *)

Module CapacityTheorems.
Import Py Utils CapacitySpec CapacityFacts.
Local Open Scope string_scope.

(** C3, as stated, fails: from [{remaining: 1, day: today}] the first
    call writes 0 and returns [False], so no call returns [True]. *)
Lemma decrement_from_one_never_true :
  let persisted := counter 1 "2025-03-01" in
  decrement_daily_capacity "2025-03-01" persisted
  = (counter 0 "2025-03-01", inr false)
  /\ (decrement_times 3 "2025-03-01" persisted).2
     = [inr false; inr false; inr false].
Proof.
  split.
  - unfold counter. rewrite (decrement_same_day _ _ 1).
    + change (1 <=? 0)%Z with false. change (1 - 1)%Z with 0%Z.
      by rewrite insert_insert_eq.
    + apply lookup_insert_eq.
    + unfold day. rewrite lookup_insert_ne by done. apply lookup_insert_eq.
  - vm_compute. reflexivity.
Qed.

(** Calls on the stored day from a counter at 0. *)
Lemma decrement_times_exhausted (persisted : metadata_dict) (today : string) (calls : nat) :
  remaining persisted = Some (VInt 0) -> day persisted = Some (VStr today) ->
  decrement_times calls today persisted = (persisted, replicate calls (inr false)).
Proof.
  intros Hn Hday. induction calls as [|calls IH]; [reflexivity |].
  cbn [decrement_times]. rewrite (decrement_same_day _ _ 0 Hn Hday).
  change (0 <=? 0)%Z with true. cbv beta iota. by rewrite IH.
Qed.

(** C3, amended: from [{remaining: 1, day: today}] the first call lands
    the counter at 0 and returns [False], and so does every later call on
    that UTC day, leaving the counter at 0; the call that returns [True]
    for the last time is the one before, which lands the counter at 1
    (from [remaining = 2] exactly the first call returns [True]).  On
    another UTC day the next call returns [True] again. *)
Theorem decrement_exhaustion (persisted : metadata_dict) (today : string) (calls : nat) :
  day persisted = Some (VStr today) ->
  (remaining persisted = Some (VInt 1) ->
   exists final,
     decrement_times (S calls) today persisted
     = (final, replicate (S calls) (inr false))
     /\ remaining final = Some (VInt 0) /\ day final = Some (VStr today)
     /\ forall tomorrow, tomorrow <> today ->
          (decrement_daily_capacity tomorrow final).2 = inr true)
  /\ (remaining persisted = Some (VInt 2) ->
      exists final,
        decrement_times (S calls) today persisted
        = (final, inr true :: replicate calls (inr false))
        /\ remaining (decrement_daily_capacity today persisted).1 = Some (VInt 1)).
Proof.
  intros Hday. split.
  - intros Hn. exists (<["daily_capacity" := VInt 0]> persisted).
    assert (H0 : remaining (<["daily_capacity" := VInt 0]> persisted) = Some (VInt 0))
      by apply lookup_insert_eq.
    assert (Hd : day (<["daily_capacity" := VInt 0]> persisted) = Some (VStr today))
      by (unfold day; by rewrite lookup_insert_ne).
    split; [| split; [exact H0 | split; [exact Hd |]]].
    + cbn [decrement_times]. rewrite (decrement_same_day _ _ 1 Hn Hday).
      change (1 <=? 0)%Z with false. change (1 - 1)%Z with 0%Z.
      cbv beta iota. by rewrite (decrement_times_exhausted _ _ calls H0 Hd).
    + intros tomorrow Hne. rewrite decrement_new_day; [reflexivity | by eexists |].
      rewrite Hd. by apply differs_other_day.
  - intros Hn.
    assert (H1 : remaining (<["daily_capacity" := VInt 1]> persisted) = Some (VInt 1))
      by apply lookup_insert_eq.
    assert (Hd : day (<["daily_capacity" := VInt 1]> persisted) = Some (VStr today))
      by (unfold day; by rewrite lookup_insert_ne).
    rewrite (decrement_same_day _ _ 2 Hn Hday).
    change (2 <=? 0)%Z with false. change (2 - 1)%Z with 1%Z.
    cbn [decrement_times]. rewrite (decrement_same_day _ _ 2 Hn Hday).
    change (2 <=? 0)%Z with false. change (2 - 1)%Z with 1%Z. cbv beta iota.
    destruct calls as [|calls]; [by eexists |].
    cbn [decrement_times]. rewrite (decrement_same_day _ _ 1 H1 Hd).
    change (1 <=? 0)%Z with false. change (1 - 1)%Z with 0%Z. cbv beta iota.
    rewrite (decrement_times_exhausted _ _ calls).
    + by eexists.
    + apply lookup_insert_eq.
    + unfold day. rewrite lookup_insert_ne by done. exact Hd.
Qed.

Lemma decrement_exhaustion_witness :
  exists final,
    decrement_times 4 "2025-03-01" (counter 1 "2025-03-01")
    = (final, [inr false; inr false; inr false; inr false])
    /\ remaining final = Some (VInt 0).
Proof.
  destruct (decrement_exhaustion (counter 1 "2025-03-01") "2025-03-01" 3)
    as [H _]; [reflexivity |].
  destruct H as (final & H1 & H2 & _); [reflexivity |].
  exists final. split; [exact H1 | exact H2].
Defined.

(** C6: from [{remaining: 3, day: d}] with [d] not today, the next call
    returns [True], and the file then holds today and 999. *)
Theorem decrement_resets_on_new_day (persisted : metadata_dict) (stored today : string) :
  remaining persisted = Some (VInt 3) ->
  day persisted = Some (VStr stored) ->
  stored <> today ->
  exists persisted',
    decrement_daily_capacity today persisted = (persisted', inr true)
    /\ day persisted' = Some (VStr today)
    /\ remaining persisted' = Some (VInt (DAILY_CAPACITY - 1))
    /\ remaining persisted' = Some (VInt 999)
    /\ remaining persisted' <> Some (VInt 2).
Proof.
  intros Hn Hday Hne. eexists. split.
  - apply decrement_new_day; [by eexists |].
    rewrite Hday. by apply differs_other_day.
  - unfold day, remaining. rewrite lookup_insert_ne by done.
    rewrite !lookup_insert_eq. done.
Qed.

Lemma decrement_resets_on_new_day_witness :
  exists persisted',
    decrement_daily_capacity "2025-03-02" (counter 3 "2025-03-01")
    = (persisted', inr true)
    /\ day persisted' = Some (VStr "2025-03-02")
    /\ remaining persisted' = Some (VInt 999).
Proof.
  destruct (decrement_resets_on_new_day (counter 3 "2025-03-01")
              "2025-03-01" "2025-03-02") as (p & H1 & H2 & _ & H3 & _).
  - reflexivity.
  - reflexivity.
  - discriminate.
  - exists p. split; [exact H1 |]. split; [exact H2 | exact H3].
Defined.

(** C7, as stated, fails for a counter stored under another day: from
    [{remaining: 0, day: yesterday}], and likewise from a negative
    counter, the call resets the counter to 1000 before it looks at it,
    so it writes 999 under today's date and returns [True]. *)
Lemma exhausted_counter_of_another_day_is_reset :
  remaining (counter 0 "2025-03-01") = Some (VInt 0)
  /\ decrement_daily_capacity "2025-03-02" (counter 0 "2025-03-01")
     = (counter 999 "2025-03-02", inr true)
  /\ decrement_daily_capacity "2025-03-02" (counter (-4) "2025-03-01")
     = (counter 999 "2025-03-02", inr true).
Proof. repeat split; vm_compute; reflexivity. Qed.

(** C7, amended: a counter that is not negative stays so under any
    sequence of calls on any days.  On the stored day, a call with the
    counter at 0 or less (that is, with [get_daily_capacity] reporting 0
    or less) leaves the file as it is and returns [False].  On any other
    day the stored counter does not matter, be it 0 or negative: it is
    reset first, and the call writes 999 under today's date and returns
    [True]. *)
Theorem remaining_never_negative (persisted : metadata_dict) (today : string) :
  (forall c, (get_daily_capacity today persisted).2 = inr (VInt c) -> (c <= 0)%Z ->
             decrement_daily_capacity today persisted = (persisted, inr false))
  /\ (forall c, remaining persisted = Some (VInt c) ->
                day persisted = Some (VStr today) -> (c <= 0)%Z ->
                decrement_daily_capacity today persisted = (persisted, inr false))
  /\ (nonneg persisted ->
      forall days,
        nonneg (foldl (fun file d => (decrement_daily_capacity d file).1)
                      persisted (today :: days)))
  /\ (forall v, remaining persisted = Some v ->
                differs_from_date (day persisted) today = true ->
                exists persisted',
                  decrement_daily_capacity today persisted = (persisted', inr true)
                  /\ remaining persisted' = Some (VInt 999)
                  /\ day persisted' = Some (VStr today)).
Proof.
  assert (Hrefuse : forall c, remaining persisted = Some (VInt c) ->
                day persisted = Some (VStr today) -> (c <= 0)%Z ->
                decrement_daily_capacity today persisted = (persisted, inr false)).
  { intros c Hc Hday Hle. rewrite (decrement_same_day _ _ c Hc Hday).
    destruct (Z.leb_spec c 0); [reflexivity | lia]. }
  split; [| split; [exact Hrefuse | split]].
  - intros c. unfold get_daily_capacity.
    destruct (persisted !! "daily_capacity") as [v |] eqn:Hv.
    + destruct (differs_from_date (persisted !! "last_capacity_date") today) eqn:Hday.
      * simpl. intros [= <-]. unfold DAILY_CAPACITY. lia.
      * simpl. intros [= ->]. apply differs_false_inv in Hday.
        by apply Hrefuse.
    + simpl. intros [= <-]. unfold DAILY_CAPACITY. lia.
  - intros Hnonneg days. generalize (today :: days). clear Hrefuse.
    intros l. revert persisted Hnonneg.
    induction l as [|d l IH]; intros persisted Hnonneg; [exact Hnonneg |].
    simpl. apply IH. by apply decrement_keeps_nonneg.
  - intros v Hv Hday. eexists. split.
    + apply decrement_new_day; [by eexists | exact Hday].
    + unfold day, remaining. split; [apply lookup_insert_eq |].
      rewrite lookup_insert_ne by done. apply lookup_insert_eq.
Qed.

Lemma remaining_never_negative_witness :
  decrement_daily_capacity "2025-03-01" (counter 0 "2025-03-01")
  = (counter 0 "2025-03-01", inr false)
  /\ decrement_daily_capacity "2025-03-01" (counter (-4) "2025-03-01")
     = (counter (-4) "2025-03-01", inr false)
  /\ nonneg (foldl (fun file d => (decrement_daily_capacity d file).1)
               (counter 1 "2025-03-01") ["2025-03-01"; "2025-03-01"; "2025-03-02"])
  /\ (exists persisted',
        decrement_daily_capacity "2025-03-02" (counter 0 "2025-03-01")
        = (persisted', inr true)
        /\ remaining persisted' = Some (VInt 999)).
Proof.
  split; [| split; [| split]].
  - destruct (remaining_never_negative (counter 0 "2025-03-01") "2025-03-01")
      as (H & _).
    apply (H 0%Z); [reflexivity | lia].
  - destruct (remaining_never_negative (counter (-4) "2025-03-01") "2025-03-01")
      as (_ & H & _).
    apply (H (-4)%Z); [reflexivity | reflexivity | lia].
  - destruct (remaining_never_negative (counter 1 "2025-03-01") "2025-03-01")
      as (_ & _ & H & _).
    apply H. intros c. vm_compute. intros [= <-]. discriminate.
  - destruct (remaining_never_negative (counter 0 "2025-03-01") "2025-03-02")
      as (_ & _ & _ & H).
    destruct (H (VInt 0)) as (persisted' & Hrun & Hleft & _);
      [reflexivity | reflexivity |].
    exists persisted'. split; [exact Hrun | exact Hleft].
Defined.

End CapacityTheorems.

(* ===================================================================== *)
(** * Facts about the handlers *)
(* ===================================================================== *)

Module RoutesFacts.
Import Py Routes RoutesSpec.





End RoutesFacts.

Module RoutesTheorems.
Import Py Routes RoutesSpec RoutesFacts.




(** C9: an upload whose reported size exceeds 2 GiB is answered with a
    rejection and nothing else happens: no entry is written to the task
    table, nothing is downloaded, no task is created.  For an
    authenticated user the reply is the "file is too large" message (for
    the others it is the "not authenticated" message of the check before
    it). *)
Theorem oversized_upload_rejected (env : upload_env) (user_id : Z) (w : world)
    (v : video) :
  up_video env = Some v ->
  MAX_FILE_SIZE < file_size v ->
  exists n w',
    handle_video_message env user_id w = (w', up_outcome env (Reply n))
    /\ n = (if up_authenticated env then file_too_large (file_size v)
            else not_authenticated)
    /\ actions w' = actions w ++ [Reply n]
    /\ user_processing_tasks w' = user_processing_tasks w
    /\ user_states w' = user_states w
    /\ metadata_file w' = metadata_file w.
Proof.
  intros Hvideo Hsize. unfold handle_video_message. rewrite Hvideo.
  destruct (Z.ltb_spec MAX_FILE_SIZE (file_size v)); [| lia].
  destruct (up_authenticated env); cbn [negb]; unfold perform;
    eexists _, _; (split; [reflexivity |]); (split; [reflexivity |]);
    repeat split.
Qed.

Lemma oversized_upload_rejected_witness :
  exists w',
    handle_video_message big_upload 42 idle = (w', inr tt)
    /\ actions w' = [Reply (file_too_large (3 * 1024 * 1024 * 1024))]
    /\ user_processing_tasks w' = ∅.
Proof.
  destruct (oversized_upload_rejected big_upload 42 idle
              (Video (3 * 1024 * 1024 * 1024) "f1"))
    as (n & w' & Hrun & -> & Hactions & Htasks & _).
  - reflexivity.
  - reflexivity.
  - exists w'. split; [exact Hrun |]. split; [exact Hactions | exact Htasks].
Defined.

(** The same upload with a size of 1 MiB is registered, downloaded and
    handed to a task. *)
Example small_upload_is_processed :
  let env := UploadEnv true (Some (Video (1024 * 1024) "f1")) "2025-03-01"
                       (fun _ => inr tt) in
  let w' := (handle_video_message env 42 idle).1 in
  actions w' = [Reply downloading_video; Download; CreateTask]
  /\ user_processing_tasks w' !! 42 = Some (TaskInfo 0%nat file None None (Some 1%nat)).
Proof. split; vm_compute; reflexivity. Qed.

End RoutesTheorems.

(* ===================================================================== *)
(** * Concurrent start requests: the invariant *)
(* ===================================================================== *)

Module RaceFacts.
Import Routes Race RaceSpec.

Lemma lookup_insert_case {A} (l : list A) (i j : nat) (x y : A) :
  l !! i = Some y ->
  <[i := x]> l !! j = if decide (j = i) then Some x else l !! j.
Proof.
  intros Hi. case_decide as Hj.
  - subst. apply list_lookup_insert_eq. by eapply lookup_lt_Some.
  - by apply list_lookup_insert_ne.
Qed.

Section Invariant.
Variables (reqs : list request) (table0 : gmap Z task_info).

Local Abbreviation inv := (RaceSpec.inv reqs table0).

Lemma inv_init : inv (init table0 reqs).
Proof.
  unfold init. constructor; simpl.
  - apply length_replicate.
  - intros i p [-> _]%lookup_replicate. discriminate.
  - discriminate.
  - intros i r _ [? _]%lookup_replicate. discriminate.
  - intros i r p _ [-> _]%lookup_replicate. discriminate.
  - intros u t Ht. by left.
  - intros i r p _ [-> _]%lookup_replicate. discriminate.
  - intros i. split; [intros H; by apply not_elem_of_nil in H |].
    intros [? _]%lookup_replicate. discriminate.
  - intros i p [-> _]%lookup_replicate. discriminate.
  - done.
  - intros i r p _ [-> _]%lookup_replicate. discriminate.
Qed.

Ltac pcs_case Hp :=
  simpl in *; intros;
  repeat match goal with
  | H : context [<[_ := _]> _ !! _] |- _ => rewrite (lookup_insert_case _ _ _ _ _ Hp) in H
  | |- context [<[_ := _]> _ !! _] => rewrite (lookup_insert_case _ _ _ _ _ Hp)
  end;
  repeat case_decide; simplify_eq/=.

Lemma holder_goto (s : state) (i : nat) (p p' : pc) (u : Z) :
  pcs s !! i = Some p ->
  (holds_entry p = true -> holds_entry p' = true) ->
  (exists j r q, reqs !! j = Some r /\ pcs s !! j = Some q
                 /\ holds_entry q = true /\ owner r = u) ->
  exists j r q, reqs !! j = Some r /\ <[i := p']> (pcs s) !! j = Some q
                /\ holds_entry q = true /\ owner r = u.
Proof.
  intros Hp Hmono (j & r & q & Hr & Hq & Hh & Hu).
  destruct (decide (j = i)) as [-> | Hne].
  - exists i, r, p'. rewrite (lookup_insert_case _ _ _ _ _ Hp).
    rewrite decide_True by done. simplify_eq. auto.
  - exists j, r, q. rewrite (lookup_insert_case _ _ _ _ _ Hp).
    rewrite decide_False by done. auto.
Qed.

Ltac close :=
  first
  [ done
  | by rewrite length_insert
  | by eauto
  | exfalso; by eauto
  | match goal with
    | Ho : forall u t, table _ !! u = Some t -> _,
      H : table _ !! ?u = Some ?t |- _ \/ _ =>
        destruct (Ho u t H) as [? | Hex];
        [by left | right; by eapply holder_goto]
    end
  | match goal with
    | Hs : forall i, i ∈ started _ <-> _, Hp : pcs _ !! _ = Some _ |- _ <-> _ =>
        rewrite ?elem_of_app, ?Hs, ?list_elem_of_singleton, ?Hp;
        intuition congruence
    end
  | idtac ].

Lemma inv_step (i : nat) (s : state) : inv s -> inv (step reqs i s).
Proof.
  intros Hinv. unfold step.
  destruct (reqs !! i) as [r |] eqn:Hr; [| exact Hinv].
  destruct (pcs s !! i) as [p |] eqn:Hp; [| exact Hinv].
  assert (Hexcl : in_critical p = true \/ (p = AtLock /\ lock s = None) ->
                  forall j q, j <> i -> pcs s !! j = Some q ->
                              in_critical q = true -> False).
  { intros Hcase j q Hne Hq Hcrit.
    pose proof (inv_lock _ _ _ Hinv j q Hq Hcrit) as Hj.
    destruct Hcase as [Hi | [_ Hnone]]; [| congruence].
    pose proof (inv_lock _ _ _ Hinv i p Hp Hi). congruence. }
  destruct p.
  - destruct (lock s) as [k |] eqn:Hk; [exact Hinv |].
    specialize (Hexcl (or_intror (conj eq_refl eq_refl))).
    destruct Hinv as [Hlen Hlock Hholder Hfresh Hentry Horigin Hseen Hstarted Hreplied
                      Hkept Hfree].
    constructor; pcs_case Hp; close.
  - destruct (table s !! owner r) as [t |] eqn:Ht.
    + specialize (Hexcl (or_introl eq_refl)).
      destruct Hinv as [Hlen Hlock Hholder Hfresh Hentry Horigin Hseen Hstarted Hreplied
                      Hkept Hfree].
      constructor; pcs_case Hp; close.
    + specialize (Hexcl (or_introl eq_refl)).
      destruct Hinv as [Hlen Hlock Hholder Hfresh Hentry Horigin Hseen Hstarted Hreplied
                      Hkept Hfree].
      constructor; pcs_case Hp; close.
  - specialize (Hexcl (or_introl eq_refl)).
    destruct Hinv as [Hlen Hlock Hholder Hfresh Hentry Horigin Hseen Hstarted Hreplied
                      Hkept Hfree].
    constructor; pcs_case Hp; close.
    all: apply elem_of_app; first [left; by eauto | right; by apply list_elem_of_singleton].
  - specialize (Hexcl (or_introl eq_refl)).
    destruct Hinv as [Hlen Hlock Hholder Hfresh Hentry Horigin Hseen Hstarted Hreplied
                      Hkept Hfree].
    constructor; pcs_case Hp; close.
  - specialize (Hexcl (or_introl eq_refl)).
    destruct Hinv as [Hlen Hlock Hholder Hfresh Hentry Horigin Hseen Hstarted Hreplied
                      Hkept Hfree].
    pose proof (Hfresh i r Hr Hp) as Hnone.
    constructor; pcs_case Hp; close.
    + apply lookup_insert_eq.
    + match goal with
      | Hr0 : reqs !! ?j = Some ?r0, Hq : pcs s !! ?j = Some ?q,
        Hh : holds_entry ?q = true |- _ =>
          pose proof (Hentry j r0 q Hr0 Hq Hh) as He
      end.
      rewrite lookup_insert_ne by congruence. exact He.
    + match goal with
      | H : <[_ := _]> _ !! ?u = Some ?t |- _ =>
          destruct (decide (owner r = u)) as [<- | Hne];
          [| rewrite lookup_insert_ne in H by done;
             destruct (Horigin u t H) as [? | Hex];
             [by left | right; by eapply holder_goto]]
      end.
      right. exists i, r, AtExit.
      rewrite (lookup_insert_case _ _ _ _ _ Hp), decide_True by done. auto.
    + match goal with
      | |- is_Some (<[_ := _]> _ !! owner ?r0) =>
          destruct (decide (owner r = owner r0)) as [<- | Hne];
          [rewrite lookup_insert_eq | rewrite lookup_insert_ne by done]; by eauto
      end.
    + match goal with
      | |- is_Some (<[_ := _]> _ !! ?u) =>
          destruct (decide (owner r = u)) as [<- | Hne];
          [rewrite lookup_insert_eq | rewrite lookup_insert_ne by done]; by eauto
      end.
    + destruct (table0 !! owner r) as [t |] eqn:Ht; [| done].
      destruct (Hkept (owner r)) as [t' Ht']; [by eexists | congruence].
  - specialize (Hexcl (or_introl eq_refl)).
    destruct Hinv as [Hlen Hlock Hholder Hfresh Hentry Horigin Hseen Hstarted Hreplied
                      Hkept Hfree].
    constructor; pcs_case Hp; close.
  - destruct Hinv as [Hlen Hlock Hholder Hfresh Hentry Horigin Hseen Hstarted Hreplied
                      Hkept Hfree].
    constructor; pcs_case Hp; close.
    match goal with
    | H : lock s = Some i |- _ => destruct (Hholder i H) as (q & Hq & Hc)
    end.
    by simplify_eq.
  - exact Hinv.
  - exact Hinv.
Qed.

Lemma inv_run (schedule : list nat) (s : state) :
  inv s -> inv (run reqs schedule s).
Proof.
  revert s. induction schedule as [|i schedule IH]; intros s Hinv; [exact Hinv |].
  simpl. apply IH. by apply inv_step.
Qed.

Lemma inv_reachable (schedule : list nat) :
  inv (run reqs schedule (init table0 reqs)).
Proof. apply inv_run, inv_init. Qed.

Lemma work_insert (l : list pc) (i : nat) (p p' : pc) :
  l !! i = Some p ->
  (sum_list (weight <$> <[i := p']> l) + weight p
   = sum_list (weight <$> l) + weight p')%nat.
Proof.
  revert i. induction l as [|x l IH]; intros [|i] Hi; simplify_eq/=; [lia |].
  specialize (IH i Hi). lia.
Qed.

Lemma step_decreases (i : nat) (s : state) (r : request) (p : pc) :
  reqs !! i = Some r -> pcs s !! i = Some p -> finished p = false ->
  (p = AtLock -> lock s = None) ->
  (work (step reqs i s) < work s)%nat.
Proof.
  intros Hr Hp Hfin Hfree. unfold step, work. rewrite Hr, Hp.
  destruct p; try discriminate Hfin;
    try (rewrite (Hfree eq_refl));
    try (destruct (table s !! owner r));
    simpl; pose proof (work_insert (pcs s) i _ AtTest Hp);
    pose proof (work_insert (pcs s) i _ AtReply Hp);
    pose proof (work_insert (pcs s) i _ AtInsert Hp);
    pose proof (work_insert (pcs s) i _ AtReturn Hp);
    pose proof (work_insert (pcs s) i _ AtExit Hp);
    pose proof (work_insert (pcs s) i _ Accepted Hp);
    pose proof (work_insert (pcs s) i _ Started Hp);
    pose proof (work_insert (pcs s) i _ Rejected Hp);
    simpl in *; lia.
Qed.

Lemma forallb_false_lookup {A} (f : A -> bool) (l : list A) :
  forallb f l = false -> exists i x, l !! i = Some x /\ f x = false.
Proof.
  induction l as [|x l IH]; simpl; [discriminate |].
  destruct (f x) eqn:Hx; simpl.
  - intros (i & y & Hi & Hy)%IH. by exists (S i), y.
  - intros _. by exists 0%nat, x.
Qed.

Lemma forallb_true_lookup {A} (f : A -> bool) (l : list A) (i : nat) (x : A) :
  forallb f l = true -> l !! i = Some x -> f x = true.
Proof.
  revert i. induction l as [|y l IH]; intros [|i]; simpl; try discriminate.
  - intros [? _]%andb_true_iff [= <-]. done.
  - intros [_ ?]%andb_true_iff. by apply IH.
Qed.

(** A request that can move exists as long as one is not through. *)
Lemma progress (s : state) :
  inv s -> all_done s = false ->
  exists i, (work (step reqs i s) < work s)%nat.
Proof.
  intros Hinv (j & p & Hj & Hp)%forallb_false_lookup.
  assert (Hreq : forall k q, pcs s !! k = Some q -> is_Some (reqs !! k)).
  { intros k q Hk. apply lookup_lt_is_Some. rewrite <- (inv_length _ _ _ Hinv).
    by eapply lookup_lt_Some. }
  destruct (lock s) as [k |] eqn:Hlock.
  - destruct (inv_holder _ _ _ Hinv k Hlock) as (q & Hq & Hcrit).
    destruct (Hreq k q Hq) as [r Hr]. exists k.
    apply (step_decreases k s r q Hr Hq); [by destruct q | by destruct q].
  - destruct (Hreq j p Hj) as [r Hr]. exists j.
    apply (step_decreases j s r p Hr Hj Hp). done.
Qed.

(** From every state of an execution all requests can run through. *)
Lemma can_finish (s : state) :
  inv s -> exists more, all_done (run reqs more s) = true.
Proof.
  remember (work s) as n eqn:Hn. revert s Hn.
  induction n as [n IH] using lt_wf_ind. intros s -> Hinv.
  destruct (all_done s) eqn:Hdone; [by exists [] |].
  destruct (progress s Hinv Hdone) as [i Hi].
  destruct (IH _ Hi (step reqs i s) eq_refl (inv_step i s Hinv)) as [more Hmore].
  by exists (i :: more).
Qed.

End Invariant.
End RaceFacts.

Module RaceTheorems.
Import Routes Race RaceSpec RaceFacts.

(** C1: under every interleaving of any number of concurrent start
    requests, at every moment at most one request per owner holds the
    entry of [user_processing_tasks], and the table holds exactly that
    request's entry; a worker is started only by a request that holds the
    entry; a request that found an entry has scheduled the "already
    processing" reply and starts no worker.  When all requests are
    through, for every owner without an entry beforehand exactly one of
    its requests has started a worker and all its other requests were
    rejected (with an entry beforehand all of them were rejected); and
    every interleaving can be continued until all requests are through. *)
Theorem one_registration_per_owner (reqs : list request)
    (table0 : gmap Z task_info) (schedule : list nat) :
  let s := run reqs schedule (init table0 reqs) in
  (forall i j ri rj pi pj,
      reqs !! i = Some ri -> reqs !! j = Some rj -> owner ri = owner rj ->
      pcs s !! i = Some pi -> pcs s !! j = Some pj ->
      holds_entry pi = true -> holds_entry pj = true -> i = j)
  /\ (forall i ri pi,
      reqs !! i = Some ri -> pcs s !! i = Some pi -> holds_entry pi = true ->
      table s !! owner ri = Some (new_task i (kind ri))
      /\ table0 !! owner ri = None)
  /\ (forall i, i ∈ started s <-> pcs s !! i = Some Started)
  /\ (forall i ri,
      reqs !! i = Some ri -> pcs s !! i = Some Rejected ->
      is_Some (table s !! owner ri) /\ i ∈ replied s /\ i ∉ started s)
  /\ (all_done s = true ->
      forall u, (exists i r, reqs !! i = Some r /\ owner r = u) ->
        match table0 !! u with
        | None =>
            exists i r,
              reqs !! i = Some r /\ owner r = u /\ i ∈ started s
              /\ forall j rj, reqs !! j = Some rj -> owner rj = u -> j <> i ->
                              pcs s !! j = Some Rejected
        | Some _ =>
            forall j rj, reqs !! j = Some rj -> owner rj = u ->
                         pcs s !! j = Some Rejected
        end)
  /\ (exists more,
       all_done (run reqs (schedule ++ more) (init table0 reqs)) = true).
Proof.
  intros s. pose proof (inv_reachable reqs table0 schedule) as Hinv.
  fold s in Hinv.
  assert (Hunique : forall i j ri rj pi pj,
      reqs !! i = Some ri -> reqs !! j = Some rj -> owner ri = owner rj ->
      pcs s !! i = Some pi -> pcs s !! j = Some pj ->
      holds_entry pi = true -> holds_entry pj = true -> i = j).
  { intros i j ri rj pi pj Hi Hj Hown Hpi Hpj Hhi Hhj.
    pose proof (inv_entry _ _ _ Hinv i ri pi Hi Hpi Hhi) as Hti.
    pose proof (inv_entry _ _ _ Hinv j rj pj Hj Hpj Hhj) as Htj.
    rewrite Hown, Htj in Hti. by injection Hti. }
  assert (Hpc : forall j rj, reqs !! j = Some rj -> is_Some (pcs s !! j)).
  { intros j rj Hj. apply lookup_lt_is_Some. rewrite (inv_length _ _ _ Hinv).
    by eapply lookup_lt_Some. }
  split; [exact Hunique |].
  split; [intros i ri pi Hi Hpi Hh; split;
            [by eapply inv_entry | by eapply inv_was_free] |].
  split; [apply (inv_started _ _ _ Hinv) |].
  split.
  { intros i ri Hi Hpi. split; [by eapply (inv_seen _ _ _ Hinv) |].
    split; [by eapply (inv_replied _ _ _ Hinv) |].
    intros Hin%(inv_started _ _ _ Hinv). congruence. }
  split.
  - intros Hdone u (i & r & Hi & Hu).
    assert (Hfin : forall j rj, reqs !! j = Some rj ->
              pcs s !! j = Some Started \/ pcs s !! j = Some Rejected).
    { intros j rj Hj. destruct (Hpc j rj Hj) as [p Hp].
      pose proof (forallb_true_lookup finished _ j p Hdone Hp).
      destruct p; try discriminate; auto. }
    destruct (table0 !! u) as [t0 |] eqn:Ht0.
    + intros j rj Hj Hju. destruct (Hfin j rj Hj) as [Hs | Hr]; [| exact Hr].
      pose proof (inv_was_free _ _ _ Hinv j rj Started Hj Hs eq_refl). congruence.
    + assert (Hholder : exists k rk, reqs !! k = Some rk /\ owner rk = u
                                     /\ pcs s !! k = Some Started).
      { destruct (Hfin i r Hi) as [Hs | Hr]; [by exists i, r |].
        destruct (inv_seen _ _ _ Hinv i r Rejected Hi Hr eq_refl) as [t Ht].
        rewrite Hu in Ht.
        destruct (inv_origin _ _ _ Hinv u t Ht) as [? | (k & rk & pk & Hk & Hpk & Hh & Hku)];
          [congruence |].
        exists k, rk. split; [exact Hk |]. split; [exact Hku |].
        destruct (Hfin k rk Hk) as [Hs | Hr']; [exact Hs |].
        rewrite Hr' in Hpk. injection Hpk as <-. discriminate. }
      destruct Hholder as (k & rk & Hk & Hku & Hks).
      exists k, rk. split; [exact Hk |]. split; [exact Hku |].
      split; [by apply (inv_started _ _ _ Hinv) |].
      intros j rj Hj Hju Hne. destruct (Hfin j rj Hj) as [Hs | Hr]; [| exact Hr].
      destruct Hne.
      apply (Hunique j k rj rk Started Started); try done. congruence.
  - destruct (can_finish reqs table0 s Hinv) as [more Hmore].
    exists more. unfold run in *. by rewrite foldl_app.
Qed.

Lemma one_registration_per_owner_witness :
  let s := run two_requests [0; 1; 0; 0; 0; 1; 0; 1; 1; 1]%nat (init ∅ two_requests) in
  all_done s = true
  /\ exists i r,
       two_requests !! i = Some r /\ owner r = 42 /\ i ∈ started s
       /\ forall j rj, two_requests !! j = Some rj -> owner rj = 42 -> j <> i ->
                       pcs s !! j = Some Rejected.
Proof.
  intros s. split; [vm_compute; reflexivity |].
  destruct (one_registration_per_owner two_requests ∅
              [0; 1; 0; 0; 0; 1; 0; 1; 1; 1]%nat) as (_ & _ & _ & _ & H & _).
  apply (H eq_refl 42). exists 0%nat, (Request 42 youtube). split; reflexivity.
Defined.

End RaceTheorems.

(* ===================================================================== *)
(** * More facts about Python strings *)
(* ===================================================================== *)

Module StripFacts.
Import PyStr PyStrFacts.

Lemma lstrip_space_app (w s : str) :
  forallb isspace w = true -> lstrip (w ++ s) = lstrip s.
Proof.
  induction w as [|x w IH]; simpl; [done |].
  destruct (isspace x); simpl; [exact IH | discriminate].
Qed.

Lemma lstrip_app_keep (s w : str) :
  forallb isspace s = false -> lstrip (s ++ w) = lstrip s ++ w.
Proof.
  induction s as [|x s IH]; simpl; [discriminate |].
  destruct (isspace x); simpl; [exact IH | done].
Qed.

Lemma rstrip_app_space (s w : str) :
  forallb isspace w = true -> rstrip (s ++ w) = rstrip s.
Proof.
  intros Hw. unfold rstrip. rewrite reverse_app, lstrip_space_app; [done |].
  by rewrite forallb_isspace_reverse.
Qed.

Lemma strip_app_space (s w : str) :
  forallb isspace w = true -> strip (s ++ w) = strip s.
Proof.
  intros Hw. unfold strip. destruct (forallb isspace s) eqn:Hs.
  - assert (H : forallb isspace (s ++ w) = true) by (by rewrite forallb_app, Hs, Hw).
    apply lstrip_nil in H, Hs. by rewrite H, Hs.
  - rewrite lstrip_app_keep by done. by apply rstrip_app_space.
Qed.

Lemma lstrip_suffix (s : str) :
  exists w, s = w ++ lstrip s /\ forallb isspace w = true.
Proof.
  induction s as [|x s (w & Hs & Hw)]; simpl; [by exists [] |].
  destruct (isspace x) eqn:Hx; [| by exists []].
  exists (x :: w). simpl. rewrite Hx, Hw. split; [by f_equal | done].
Qed.

Lemma rstrip_prefix (s : str) :
  exists w, s = rstrip s ++ w /\ forallb isspace w = true.
Proof.
  unfold rstrip. destruct (lstrip_suffix (reverse s)) as (w & Hs & Hw).
  exists (reverse w). split; [| by rewrite forallb_isspace_reverse].
  rewrite <- reverse_app, <- Hs. by rewrite reverse_involutive.
Qed.

Lemma elem_of_strip (x : char) (s : str) : x ∈ strip s -> x ∈ s.
Proof.
  unfold strip. intros Hx.
  destruct (rstrip_prefix (lstrip s)) as (w1 & H1 & _).
  destruct (lstrip_suffix s) as (w2 & H2 & _).
  rewrite H2, H1, !elem_of_app. auto.
Qed.

Lemma lstrip_fixed (s : str) :
  (forall x r, s = x :: r -> isspace x = false) -> lstrip s = s.
Proof.
  destruct s as [|x r]; [done |]. intros H. simpl. by rewrite (H x r).
Qed.

Lemma lstrip_idem (s : str) : lstrip (lstrip s) = lstrip s.
Proof. apply lstrip_fixed. intros x r. apply lstrip_head. Qed.

Lemma strip_idem (s : str) : strip (strip s) = strip s.
Proof.
  unfold strip at 2. set (u := lstrip s).
  assert (Hu : forall x r, u = x :: r -> isspace x = false)
    by (intros x r; apply lstrip_head).
  unfold strip.
  assert (Hl : lstrip (rstrip u) = rstrip u).
  { apply lstrip_fixed. intros x r Hr.
    destruct (rstrip_prefix u) as (w & Hw & _). rewrite Hr in Hw.
    by apply (Hu x (r ++ w)). }
  rewrite Hl. unfold rstrip. by rewrite reverse_involutive, lstrip_idem.
Qed.

Lemma strip_nonempty_truthy (s : str) : s <> [] -> strip s = s -> truthy (strip s) = true.
Proof. intros Hs ->. by destruct s. Qed.

End StripFacts.

(* ===================================================================== *)
(** * Delivery of a text, and the output sender *)
(* ===================================================================== *)

Module SenderFacts.
Import PyStr PyStrFacts Py Sender SenderSpec.

Lemma nonblank_spec (s : str) : nonblank s = negb (forallb isspace s).
Proof. apply truthy_strip. Qed.

Lemma contains_nonblank (c : char) (s : str) :
  isspace c = false -> contains c s = true -> nonblank s = true.
Proof.
  intros Hc Hin. rewrite nonblank_spec. apply negb_true_iff.
  apply not_true_iff_false. intros Hall.
  apply existsb_exists in Hin as (x & Hx & <-%N.eqb_eq).
  rewrite forallb_forall in Hall. specialize (Hall _ Hx). congruence.
Qed.

Lemma transcription_nonblank (prefix text : str) :
  is_transcription text = true -> nonblank (prefix ++ text) = true.
Proof.
  intros [Hopen _]%andb_true_iff.
  apply (contains_nonblank 91%N); [reflexivity |].
  unfold contains in *. rewrite existsb_app. apply orb_true_iff. by right.
Qed.

Section Loop.
Context {Time Chat : Type}.
Variable long_enough : Time -> Time -> bool.
Variable deliver : Chat -> str -> Chat * result unit.

Local Abbreviation state := (@state Time Chat).
Local Abbreviation iteration := (iteration long_enough deliver).
Local Abbreviation send_output_task := (send_output_task long_enough deliver).

Lemma send_buffer_spec (st : state) :
  let '(st', r) := send_buffer deliver st in
  buffer st' = buffer st /\ last_send_time st' = last_send_time st
  /\ delivered st'
     = delivered st ++ (match r with inr _ => [buffer st] | inl _ => [] end).
Proof.
  unfold send_buffer. destruct (deliver (chat st) (buffer st)) as [c [e | u]]; simpl.
  - by rewrite app_nil_r.
  - done.
Qed.

Lemma pending_break_blank (st : state) :
  forallb isspace (pending Break st) = true.
Proof.
  unfold pending. rewrite nonblank_spec.
  destruct (forallb isspace (buffer st)) eqn:H; simpl; done.
Qed.

Lemma flush_accounts (text : str) (st : state) :
  accounts text Continue st ->
  let '(c, st') := flush_and_break deliver st in accounts text c st'.
Proof.
  intros (Hcat & Hall & _). unfold flush_and_break.
  destruct (nonblank (buffer st)) eqn:Hnb.
  - pose proof (send_buffer_spec st) as Hsend.
    destruct (send_buffer deliver st) as [st' [e | u]];
      destruct Hsend as (Hb & _ & Hd).
    + unfold guarded. rewrite app_nil_r in Hd.
      destruct (is_Exception e); (split; [| split]); simpl;
        rewrite ?Hb, ?Hd; try done.
    + split; [| split; [| intros _; apply pending_break_blank]].
      * simpl. rewrite Hb, Hnb, Hd, concat_app. simpl.
        rewrite !app_nil_r. exact Hcat.
      * rewrite Hd. apply Forall_app. split; [exact Hall |]. by constructor.
  - split; [| split; [exact Hall | intros _; apply pending_break_blank]].
    simpl. rewrite Hnb. exact Hcat.
Qed.

Lemma iteration_accounts (text : str) (p : poll Time) (st : state) :
  accounts text Continue st ->
  let '(c, st') := iteration p st in
  accounts (text ++ concat (fragments [p])) c st'.
Proof.
  intros Hacc. destruct p as [frag now | | shutdown]; simpl.
  - destruct Hacc as (Hcat & Hall & _). rewrite app_nil_r.
    set (st1 := State (buffer st ++ frag) (last_send_time st) (chat st) (delivered st)).
    assert (Hacc1 : accounts (text ++ frag) Continue st1).
    { split; [| split; [exact Hall | discriminate]].
      simpl. simpl in Hcat. by rewrite app_assoc, Hcat. }
    destruct ((is_transcription frag
               || long_enough now (last_send_time st) && nonblank (buffer st ++ frag))
              && nonblank (buffer st ++ frag)) eqn:Hsend; [| exact Hacc1].
    apply andb_true_iff in Hsend as [_ Hnb].
    pose proof (send_buffer_spec st1) as Hspec.
    destruct (send_buffer deliver st1) as [st' [e | u]];
      destruct Hspec as (Hb & _ & Hd); destruct Hacc1 as (Hcat1 & Hall1 & _).
    + rewrite app_nil_r in Hd. unfold guarded.
      destruct (is_Exception e); (split; [| split]); simpl;
        rewrite ?Hb, ?Hd; try done.
    + split; [| split; [| discriminate]]; simpl.
      * rewrite Hd, concat_app. simpl. rewrite !app_nil_r. exact Hcat1.
      * rewrite Hd. apply Forall_app. split; [exact Hall1 |]. by constructor.
  - rewrite app_nil_r. by apply flush_accounts.
  - rewrite app_nil_r. destruct shutdown; [by apply flush_accounts | exact Hacc].
Qed.

Lemma fragments_app (l1 l2 : list (poll Time)) :
  fragments (l1 ++ l2) = fragments l1 ++ fragments l2.
Proof. apply omap_app. Qed.

Lemma send_output_task_accounts (polls : list (poll Time)) :
  forall (text : str) (st : state),
    accounts text Continue st ->
    let '(c, st', rest) := send_output_task polls st in
    exists taken,
      polls = taken ++ rest
      /\ accounts (text ++ concat (fragments taken)) c st'.
Proof.
  induction polls as [|p polls IH]; intros text st Hacc; simpl.
  - exists []. split; [reflexivity |]. simpl. by rewrite app_nil_r.
  - pose proof (iteration_accounts text p st Hacc) as Hstep.
    destruct (iteration p st) as [c st1].
    destruct c as [| | e].
    + specialize (IH _ st1 Hstep).
      destruct (send_output_task polls st1) as [[c' st'] rest].
      destruct IH as (taken & -> & Hacc').
      exists (p :: taken). split; [reflexivity |].
      change (p :: taken) with ([p] ++ taken).
      by rewrite fragments_app, concat_app, app_assoc.
    + exists [p]. split; [reflexivity | exact Hstep].
    + exists [p]. split; [reflexivity | exact Hstep].
Qed.

End Loop.
End SenderFacts.

Module DeliveryFacts.
Import PyStr PyStrFacts Py OutputHandler ChunkSpec ChunkFacts SendSpec SendFacts
       DeliverySpec.

Lemma sends_app (l1 l2 : list event) : sends (l1 ++ l2) = sends l1 ++ sends l2.
Proof. apply omap_app. Qed.

Lemma split_chunks_short (text : str) :
  len text <= max_length ->
  split_chunks text = Some (if blank text then [] else [text]).
Proof.
  intros Hshort. unfold split_chunks, split_with.
  rewrite split_loop_done by exact Hshort. simpl.
  unfold blank. destruct (truthy (strip text)) eqn:Hs; simpl.
  - destruct text; [discriminate Hs | reflexivity].
  - by rewrite orb_true_r.
Qed.

Lemma first_chunk_well_cut (limit : Z) (text : str) :
  0 < limit -> limit < len text -> well_cut limit (first_chunk limit text).
Proof.
  intros Hpos Hlong. unfold first_chunk, well_cut, newline_close_to_end.
  pose proof (rfind_lt_len newline (slice_to text limit)) as Hr.
  rewrite len_slice_to in Hr by lia.
  destruct (rfind_spec newline (slice_to text limit))
    as [[Hk _] | (n & Hk & Hn & _)]; rewrite Hk in *.
  - destruct (Z.ltb_spec (7 * limit) (10 * -1)); [lia |].
    left. apply len_slice_to. lia.
  - destruct (Z.ltb_spec (7 * limit) (10 * Z.of_nat n)).
    + right. rewrite len_slice_to by lia. split; [lia |]. split; [lia |].
      rewrite slice_to_take in Hn |- * by lia.
      rewrite lookup_take_lt in Hn by lia.
      replace (Z.to_nat (Z.of_nat n + 1)) with (S n) by lia.
      rewrite (take_S_r _ _ _ Hn). apply last_snoc.
    + left. apply len_slice_to. lia.
Qed.

(** The chunks the loop cuts are well cut. *)
Lemma split_loop_well_cut (limit : Z) (fuel : nat) :
  0 < limit ->
  forall (text : str) (acc : list str) rest out,
    split_loop limit fuel text acc = Some (rest, out) ->
    exists more, out = acc ++ more /\ Forall (well_cut limit) more
                 /\ concat more ++ rest = text /\ len rest <= limit.
Proof.
  intros Hpos. induction fuel as [|fuel IH]; intros text acc rest out Hrun.
  - simpl in Hrun. destruct (Z.ltb_spec limit (len text)); [discriminate |].
    injection Hrun as <- <-. exists []. rewrite app_nil_r. by repeat split.
  - destruct (Z.le_gt_cases (len text) limit) as [Hfit | Hlong].
    + rewrite split_loop_done in Hrun by exact Hfit. injection Hrun as <- <-.
      exists []. rewrite app_nil_r. by repeat split.
    + rewrite split_loop_step in Hrun by lia.
      destruct (IH _ _ _ _ Hrun) as (more & -> & Hall & Hcat & Hrest).
      destruct (first_chunk_cut limit text Hpos ltac:(lia)) as (Hfirst & _).
      exists (first_chunk limit text :: more).
      split; [by rewrite <- app_assoc |].
      split; [constructor; [by apply first_chunk_well_cut | exact Hall] |].
      split; [| exact Hrest].
      simpl. by rewrite <- app_assoc, Hcat.
Qed.

Lemma sum_well_cut (limit : Z) (more : list str) :
  0 < limit -> Forall (well_cut limit) more ->
  7 * limit * Z.of_nat (length more) <= 10 * len (concat more).
Proof.
  intros Hpos. induction 1 as [|c more Hc _ IH]; simpl; [unfold len; simpl; lia |].
  rewrite len_app. destruct Hc as [Hc | (Hc & _)]; lia.
Qed.

Section Client.
Context {Client : Type}.
Variable send_message : Client -> Z -> str -> Client * result unit.
Hypothesis fails_with_Exception :
  forall c chat_id chunk e,
    (send_message c chat_id chunk).2 = inl e -> is_Exception e = true.
Variables (chat_id : Z) (max_retries : Z).

Local Abbreviation sleeps_fit attempts :=
  (forall a, a ∈ attempts -> a < max_retries - 1 -> a < 1024).

(** The retry loop sends its chunk and nothing else, at most once per
    attempt, and at least once if there is an attempt. *)
Lemma retry_loop_sends (chunk : str) (attempts : list Z) :
  sleeps_fit attempts ->
  forall w, exists c more k,
    retry_loop send_message chat_id chunk max_retries attempts w
    = (World c (trace_of w ++ more), inr tt)
    /\ sends more = replicate k chunk
    /\ (k <= length attempts)%nat
    /\ (attempts <> [] -> (1 <= k)%nat).
Proof.
  induction attempts as [|a rest IH]; intros Hfit w.
  - exists (client_of w), [], 0%nat. rewrite app_nil_r. destruct w. by repeat split.
  - simpl. unfold bind.
    rewrite (attempt_send_spec send_message fails_with_Exception)
      by (intros; apply (Hfit a); [left | assumption]).
    destruct (send_message (client_of w) chat_id chunk) as [c [e | []]].
    + destruct (IH ltac:(intros x Hx; apply Hfit; by right)
                   (World c (trace_of w ++ failed_attempts chat_id chunk max_retries [a])))
        as (c' & more & k & -> & Hsends & Hk & _).
      simpl. eexists c', _, (S k). rewrite <- !app_assoc.
      split; [reflexivity |]. rewrite sends_app, Hsends.
      split; [| split; [lia | lia]].
      simpl. destruct (a <? max_retries - 1); reflexivity.
    + exists c, [EvSend chat_id chunk], 1%nat. simpl.
      split; [reflexivity |]. split; [reflexivity |]. split; lia.
Qed.

(** With a client that accepts every send there is one send per loop. *)
Lemma retry_loop_accepts (chunk : str) (attempts : list Z) :
  (forall c ch t, (send_message c ch t).2 = inr tt) ->
  attempts <> [] ->
  forall w, exists c,
    retry_loop send_message chat_id chunk max_retries attempts w
    = (World c (trace_of w ++ [EvSend chat_id chunk]), inr tt).
Proof.
  intros Hok Hne w. destruct attempts as [|a rest]; [done |].
  simpl. unfold bind, attempt_send, try_except, bind, do_send, ret.
  specialize (Hok (client_of w) chat_id chunk).
  destruct (send_message (client_of w) chat_id chunk) as [c [e | []]];
    [discriminate |]. by exists c.
Qed.

Lemma send_chunks_sends (chunks : list str) :
  max_retries <= 1025 ->
  forall w, exists c more counts,
    send_chunks send_message chat_id max_retries chunks w
    = (World c (trace_of w ++ more), inr tt)
    /\ length counts = length (to_send chunks)
    /\ Forall (fun k => (0 < max_retries -> (1 <= k)%nat)
                        /\ Z.of_nat k <= Z.max 0 max_retries) counts
    /\ sends more = concat (zip_with replicate counts (to_send chunks)).
Proof.
  intros Hmax. induction chunks as [|chunk rest IH]; intros w.
  - exists (client_of w), [], []. rewrite app_nil_r. destruct w. by repeat split.
  - simpl. unfold bind, to_send. rewrite filter_cons.
    destruct (blank chunk) eqn:Hblank.
    + unfold ret. destruct (IH w) as (c & more & counts & -> & Hlen & Hall & Hs).
      rewrite decide_False by done. by exists c, more, counts.
    + rewrite decide_True by done.
      destruct (retry_loop_sends chunk (seqZ 0 max_retries)
                  (sleeps_fit_range max_retries Hmax) w)
        as (c1 & more1 & k & -> & Hs1 & Hk & Hk1).
      destruct (IH (World c1 (trace_of w ++ more1)))
        as (c & more & counts & -> & Hlen & Hall & Hs).
      exists c, (more1 ++ more), (k :: counts). simpl. rewrite <- app_assoc.
      split; [reflexivity |]. split; [by rewrite Hlen |].
      split.
      * constructor; [| exact Hall]. rewrite length_seqZ in Hk.
        split; [intros Hpos; apply Hk1; by apply range_nonempty | lia].
      * rewrite sends_app, Hs1, Hs. reflexivity.
Qed.

Lemma send_chunks_accepts (chunks : list str) :
  (forall c ch t, (send_message c ch t).2 = inr tt) ->
  0 < max_retries ->
  forall w, exists c,
    send_chunks send_message chat_id max_retries chunks w
    = (World c (trace_of w ++ (EvSend chat_id <$> to_send chunks)), inr tt).
Proof.
  intros Hok Hpos. induction chunks as [|chunk rest IH]; intros w.
  - exists (client_of w). simpl. rewrite app_nil_r. by destruct w.
  - simpl. unfold bind, to_send. rewrite filter_cons.
    destruct (blank chunk) eqn:Hblank.
    + unfold ret. rewrite decide_False by done. apply IH.
    + rewrite decide_True by done.
      destruct (retry_loop_accepts chunk (seqZ 0 max_retries) Hok
                  (range_nonempty max_retries Hpos) w) as (c1 & ->).
      destruct (IH (World c1 (trace_of w ++ [EvSend chat_id chunk]))) as (c & ->).
      exists c. simpl. by rewrite <- app_assoc.
Qed.

End Client.
End DeliveryFacts.

Module PipelineFacts.
Import PyStr PyStrFacts Py OutputHandler ChunkFacts SendSpec SendFacts
       DeliverySpec DeliveryFacts Sender SenderSpec SenderFacts Pipeline.

Section Loop.
Context {Time Chat : Type}.
Variable long_enough : Time -> Time -> bool.
Variable deliver : Chat -> str -> Chat * result unit.

(** A poll that does not stop the loop is followed by the next one, as
    long as no delivery raises. *)
Lemma iteration_goes_on (p : poll Time) (st : state) :
  (forall c b, (deliver c b).2 = inr tt) ->
  stops p = false ->
  exists st', iteration long_enough deliver p st = (Continue, st').
Proof.
  intros Hok Hp. destruct p as [frag now | | [|]]; try discriminate; simpl.
  - match goal with |- context [if ?b then _ else _] => destruct b end;
      [| by eexists].
    unfold send_buffer. simpl.
    specialize (Hok (chat st) (buffer st ++ frag)).
    destruct (deliver (chat st) (buffer st ++ frag)) as [c [e | u]];
      [discriminate | by eexists].
  - by eexists.
Qed.

Lemma iteration_stops (p : poll Time) (st : state) :
  (forall c b, (deliver c b).2 = inr tt) ->
  stops p = true ->
  exists st', iteration long_enough deliver p st = (Break, st').
Proof.
  intros Hok Hp.
  assert (Hflush : exists st', flush_and_break deliver st = (Break, st')).
  { unfold flush_and_break. destruct (nonblank (buffer st)); [| by eexists].
    unfold send_buffer. specialize (Hok (chat st) (buffer st)).
    destruct (deliver (chat st) (buffer st)) as [c [e | u]];
      [discriminate | by eexists]. }
  destruct p as [frag now | | [|]]; try discriminate; exact Hflush.
Qed.

Lemma iteration_break_stops (p : poll Time) (st st' : state) :
  iteration long_enough deliver p st = (Break, st') -> stops p = true.
Proof.
  destruct p as [frag now | | [|]]; simpl; try done.
  match goal with |- context [if ?b then _ else _] => destruct b end;
    [| discriminate].
  destruct (send_buffer deliver _) as [st1 [e | u]]; [| discriminate].
  unfold guarded. destruct (is_Exception e); discriminate.
Qed.

End Loop.
End PipelineFacts.

Module DeliverTextFacts.
Import PyStr PyStrFacts Py OutputHandler ChunkFacts SendSpec SendFacts
       DeliverySpec DeliveryFacts Sender SenderSpec SenderFacts Pipeline PipelineFacts.

Section Client.
Context {Client : Type}.
Variable send_message : Client -> Z -> str -> Client * result unit.
Variable chat_id : Z.

(** Every call of [send_text_to_telegram] with a client returns. *)
Lemma deliver_text_returns (c : chat_state Client) (buffer : str) :
  exists client trace r,
    send_text_to_telegram send_message (Some c.1) chat_id buffer default_max_retries
    = Some (Some client, trace, r)
    /\ deliver_text send_message chat_id c buffer = ((client, c.2 ++ trace), r).
Proof.
  unfold deliver_text, send_text_to_telegram.
  destruct (blank buffer); [by eexists _, _, _ |].
  destruct (split_chunks_total buffer) as (chunks & dropped & -> & _).
  destruct chunks as [|chunk rest]; [by eexists _, _, _ |].
  destruct (send_chunks _ _ _ _ _) as [w r]. by eexists _, _, _.
Qed.

(** A text that fits one message and is not blank, with a client that
    accepts the send. *)
Lemma deliver_text_short (c : chat_state Client) (buffer : str) :
  (forall s ch t, (send_message s ch t).2 = inr tt) ->
  len buffer <= max_length -> blank buffer = false ->
  deliver_text send_message chat_id c buffer
  = (((send_message c.1 chat_id buffer).1, c.2 ++ [EvSend chat_id buffer]), inr tt).
Proof.
  intros Hok Hshort Hnb. unfold deliver_text, send_text_to_telegram.
  rewrite Hnb, split_chunks_short, Hnb by exact Hshort.
  simpl. rewrite Hnb. unfold bind. simpl.
  unfold attempt_send, try_except, bind, do_send, ret. simpl.
  specialize (Hok c.1 chat_id buffer).
  destruct (send_message c.1 chat_id buffer) as [s [e | []]]; [discriminate |].
  reflexivity.
Qed.

End Client.
End DeliverTextFacts.

Module OutputTheorems.
Import PyStr PyStrFacts Py OutputHandler ChunkSpec ChunkFacts SendSpec SendFacts
       DeliverySpec DeliveryFacts Sender SenderSpec SenderFacts Pipeline
       PipelineFacts DeliverTextFacts.

(** X1: a text of at most 4000 characters that is not blank is sent as
    one message holding exactly the text, when the client accepts it. *)
Theorem short_text_is_one_message {Client : Type}
    (send_message : Client -> Z -> str -> Client * result unit)
    (c : Client) (chat_id : Z) (text : str) (max_retries : Z) :
  (forall s ch t, (send_message s ch t).2 = inr tt) ->
  len text <= max_length -> blank text = false -> 0 < max_retries ->
  exists client',
    send_text_to_telegram send_message (Some c) chat_id text max_retries
    = Some (Some client', [EvSend chat_id text], inr tt).
Proof.
  intros Hok Hshort Hnb Hpos. unfold send_text_to_telegram.
  rewrite Hnb, split_chunks_short, Hnb by exact Hshort.
  destruct (send_chunks_accepts send_message chat_id max_retries [text] Hok Hpos
              (World c [])) as (c' & ->).
  exists c'. unfold to_send. rewrite filter_cons, decide_True by exact Hnb.
  reflexivity.
Qed.

Lemma short_text_is_one_message_witness :
  exists client',
    send_text_to_telegram accepting (Some 0%nat) 7 [104; 105]%N 3
    = Some (Some client', [EvSend 7 [104; 105]%N], inr tt).
Proof.
  apply short_text_is_one_message.
  - reflexivity.
  - vm_compute. discriminate.
  - reflexivity.
  - lia.
Defined.

(** X2: every chunk but the last is cut by the loop and is either exactly
    4000 characters long or ends at a line break beyond 70% of the limit;
    the last chunk, if there is one, is the remainder, not blank and at
    most 4000 characters long.  So a text is split into at most
    [len text / 2800 + 1] chunks. *)
Theorem chunks_are_well_cut (text : str) :
  exists cut tail,
    split_chunks text = Some (cut ++ tail)
    /\ Forall (well_cut max_length) cut
    /\ (tail = []
        \/ exists rest, tail = [rest] /\ blank rest = false
                        /\ len rest <= max_length)
    /\ 7 * max_length * Z.of_nat (length cut) <= 10 * len text
    /\ 2800 * (Z.of_nat (length (cut ++ tail)) - 1) <= len text.
Proof.
  destruct (split_loop_total max_length (length text) max_length_pos text [])
    as (rest & more & Hrun & _); [lia |].
  destruct (split_loop_well_cut max_length _ max_length_pos _ _ _ _ Hrun)
    as (cut & Hcut & Hall & Hcat & Hrest).
  simpl in Hcut. subst more.
  pose proof (sum_well_cut max_length cut max_length_pos Hall) as Hsum.
  assert (Hlen : len text = len (concat cut) + len rest)
    by (by rewrite <- Hcat, len_app).
  pose proof (len_nonneg rest).
  assert (Hcount : 7 * max_length * Z.of_nat (length cut) <= 10 * len text) by lia.
  unfold split_chunks, split_with. rewrite Hrun. simpl.
  destruct (truthy (strip rest)) eqn:Hs.
  - exists cut, [rest]. split; [reflexivity |]. split; [exact Hall |].
    split; [| split; [exact Hcount |]].
    + right. exists rest. split; [reflexivity |]. split; [| exact Hrest].
      unfold blank. rewrite Hs. by destruct rest.
    + rewrite length_app. simpl. unfold max_length in *. lia.
  - exists cut, []. split; [by rewrite app_nil_r |]. split; [exact Hall |].
    split; [by left |]. split; [exact Hcount |].
    rewrite app_nil_r. unfold max_length in *. lia.
Qed.

(** X3: whatever the client does (failing only with instances of
    [Exception]), the sends of a delivery are the chunks that are not
    blank, in the order of the text, each sent at least once and at most
    [max_retries] times in a row; with [max_retries <= 0] nothing is
    sent. *)
Theorem sends_follow_chunk_order {Client : Type}
    (send_message : Client -> Z -> str -> Client * result unit)
    (c : Client) (chat_id : Z) (text : str) (max_retries : Z) :
  (forall s ch t e, (send_message s ch t).2 = inl e -> is_Exception e = true) ->
  max_retries <= 1025 ->
  exists chunks client' trace counts,
    split_chunks text = Some chunks
    /\ send_text_to_telegram send_message (Some c) chat_id text max_retries
       = Some (client', trace, inr tt)
    /\ length counts = length (to_send chunks)
    /\ Forall (fun k => (0 < max_retries -> (1 <= k)%nat)
                        /\ Z.of_nat k <= Z.max 0 max_retries) counts
    /\ sends trace = concat (zip_with replicate counts (to_send chunks)).
Proof.
  intros Hexc Hmax.
  destruct (split_chunks_total text) as (chunks & dropped & Hsplit & _).
  exists chunks. unfold send_text_to_telegram. rewrite Hsplit.
  destruct (blank text) eqn:Hblank.
  { exists (Some c), [], [].
    assert (Hnone : to_send chunks = []).
    { pose proof (SendTheorems.chunks_of_blank text chunks Hblank Hsplit 0 1) as H.
      clear Hsplit. induction chunks as [|chunk rest IH]; [reflexivity |].
      unfold to_send. rewrite filter_cons. simpl in H.
      destruct (blank chunk) eqn:Hb.
      - rewrite decide_False by done. by apply IH.
      - discriminate H. }
    rewrite Hnone. by repeat split. }
  destruct (send_chunks_sends send_message Hexc chat_id max_retries chunks Hmax
              (World c [])) as (c' & more & counts & Hrun & Hlen & Hall & Hs).
  destruct chunks as [|chunk rest].
  { exists (Some c), [], []. by repeat split. }
  rewrite Hrun. by exists (Some c'), more, counts.
Qed.

Lemma sends_follow_chunk_order_witness :
  exists chunks client' trace counts,
    split_chunks [104; 105]%N = Some chunks
    /\ send_text_to_telegram flaky (Some 0%nat) 7 [104; 105]%N 3
       = Some (client', trace, inr tt)
    /\ sends trace = concat (zip_with replicate counts (to_send chunks)).
Proof.
  destruct (sends_follow_chunk_order flaky 0%nat 7 [104; 105]%N 3)
    as (chunks & client' & trace & counts & H1 & H2 & _ & _ & H3).
  - intros s ch t e. unfold flaky. simpl. destruct (s <? 2)%nat; [| discriminate].
    intros [= <-]. reflexivity.
  - lia.
  - by exists chunks, client', trace, counts.
Defined.

(** X4: with a client that accepts every send, each chunk that is not
    blank is sent exactly once, in order, and there is no sleep. *)
Theorem accepted_chunks_are_sent_once {Client : Type}
    (send_message : Client -> Z -> str -> Client * result unit)
    (c : Client) (chat_id : Z) (text : str) (max_retries : Z) :
  (forall s ch t, (send_message s ch t).2 = inr tt) ->
  0 < max_retries -> blank text = false ->
  exists chunks client',
    split_chunks text = Some chunks
    /\ send_text_to_telegram send_message (Some c) chat_id text max_retries
       = Some (client', EvSend chat_id <$> to_send chunks, inr tt).
Proof.
  intros Hok Hpos Hnb.
  destruct (split_chunks_total text) as (chunks & dropped & Hsplit & _).
  exists chunks. unfold send_text_to_telegram. rewrite Hsplit, Hnb.
  destruct (send_chunks_accepts send_message chat_id max_retries chunks Hok Hpos
              (World c [])) as (c' & Hrun).
  destruct chunks as [|chunk rest]; [by exists (Some c) |].
  rewrite Hrun. by exists (Some c').
Qed.

Lemma accepted_chunks_are_sent_once_witness :
  exists chunks client',
    split_chunks newline_at_3200 = Some chunks
    /\ send_text_to_telegram accepting (Some 0%nat) 7 newline_at_3200 3
       = Some (client', EvSend 7 <$> to_send chunks, inr tt).
Proof.
  apply accepted_chunks_are_sent_once.
  - reflexivity.
  - lia.
  - vm_compute. reflexivity.
Defined.

End OutputTheorems.

Module SenderTheorems.
Import PyStr PyStrFacts Py OutputHandler ChunkSpec ChunkFacts SendSpec SendFacts
       DeliverySpec DeliveryFacts Sender SenderSpec SenderFacts Pipeline
       PipelineFacts DeliverTextFacts.

(** X5: the output sender loses and reorders nothing, whatever the
    deliveries do: at every point the buffers whose delivery returned,
    followed by what is still in the buffer, are the texts taken from the
    queue, in order; no blank buffer is ever handed over; and when the
    loop ends, what was not handed over is whitespace only. *)
Theorem output_is_accounted_for {Time Chat : Type}
    (long_enough : Time -> Time -> bool)
    (deliver : Chat -> str -> Chat * result unit)
    (polls : list (poll Time)) (zero : Time) (c0 : Chat) :
  exists c st rest taken,
    send_output_task long_enough deliver polls (start zero c0) = (c, st, rest)
    /\ polls = taken ++ rest
    /\ concat (delivered st) ++ pending c st = concat (fragments taken)
    /\ Forall (fun b => nonblank b = true) (delivered st)
    /\ (c = Break -> forallb isspace (pending c st) = true)
    /\ (c = Continue -> rest = []).
Proof.
  pose proof (send_output_task_accounts long_enough deliver polls [] (start zero c0))
    as Hacc.
  assert (Hrest : forall (l : list (poll Time)) (st : state),
            (send_output_task long_enough deliver l st).1.1 = Continue ->
            (send_output_task long_enough deliver l st).2 = []).
  { induction l as [|p l IH]; intros st; simpl; [done |].
    destruct (iteration long_enough deliver p st) as [[] st1]; simpl;
      [apply IH | discriminate | discriminate]. }
  specialize (Hrest polls (start zero c0)).
  destruct (send_output_task long_enough deliver polls (start zero c0))
    as [[c st] rest].
  destruct Hacc as (taken & Htaken & Hcat & Hall & Hblank).
  { split; [reflexivity |]. split; [constructor | discriminate]. }
  exists c, st, rest, taken. split; [reflexivity |]. split; [exact Htaken |].
  split; [exact Hcat |]. split; [exact Hall |]. split; [exact Hblank |].
  exact Hrest.
Qed.

(** X6: the loop ends only at the end marker or at an empty queue with
    the shutdown flag set; and, as long as no delivery raises, it ends at
    the first of these and leaves the rest of the queue alone, and it goes
    on waiting when there is none. *)
Theorem sender_stops_at_end_marker {Time Chat : Type}
    (long_enough : Time -> Time -> bool)
    (deliver : Chat -> str -> Chat * result unit)
    (st : @state Time Chat) :
  (forall polls st' rest,
      send_output_task long_enough deliver polls st = (Break, st', rest) ->
      exists taken p, polls = taken ++ p :: rest /\ stops p = true)
  /\ ((forall c b, (deliver c b).2 = inr tt) ->
      forall quiet,
        forallb (fun p => negb (stops p)) quiet = true ->
        (exists st', send_output_task long_enough deliver quiet st = (Continue, st', []))
        /\ forall p rest,
             stops p = true ->
             exists st',
               send_output_task long_enough deliver (quiet ++ p :: rest) st
               = (Break, st', rest)).
Proof.
  split.
  - intros polls. revert st. induction polls as [|p polls IH]; intros st st' rest;
      simpl; [discriminate |].
    destruct (iteration long_enough deliver p st) as [[| | e] st1] eqn:Hit.
    + intros (taken & q & -> & Hq)%IH. by exists (p :: taken), q.
    + intros [= <- <-]. exists [], p. split; [reflexivity |].
      by eapply iteration_break_stops.
    + discriminate.
  - intros Hok quiet. revert st. induction quiet as [|q quiet IH]; intros st Hquiet.
    + split; [by eexists |]. intros p rest Hp. simpl.
      destruct (iteration_stops long_enough deliver p st Hok Hp) as [st' ->].
      by exists st'.
    + simpl in Hquiet. apply andb_true_iff in Hquiet as [Hq Hquiet].
      apply negb_true_iff in Hq.
      destruct (iteration_goes_on long_enough deliver q st Hok Hq) as [st1 Hst1].
      simpl. rewrite Hst1. by apply IH.
Qed.

Lemma sender_stops_at_end_marker_witness :
  exists st',
    send_output_task (fun now last => now - last >=? 2) always_delivers
      ([Fragment [104; 105]%N 1; Empty false] ++ EndOfOutput :: [Fragment [33]%N 9])
      (start 0 0%nat)
    = (Break, st', [Fragment [33]%N 9]).
Proof.
  destruct (sender_stops_at_end_marker (fun now last => now - last >=? 2) always_delivers
              (start 0 0%nat)) as [_ H].
  destruct (H ltac:(reflexivity) [Fragment [104; 105]%N 1; Empty false] eq_refl)
    as [_ Hstop].
  apply Hstop. reflexivity.
Defined.

(** X7: when the worker prints texts that hold both brackets and fit one
    message each, and the client accepts every send, each text is sent as
    its own message as soon as it is taken from the queue, in the order
    printed, and the loop ends at the end marker with an empty buffer. *)
Theorem bracketed_output_is_sent_at_once {Time Client : Type}
    (long_enough : Time -> Time -> bool)
    (send_message : Client -> Z -> str -> Client * result unit)
    (chat_id : Z) (texts : list (str * Time)) (zero : Time) (c0 : Client) :
  (forall s ch t, (send_message s ch t).2 = inr tt) ->
  Forall (fun item => is_transcription item.1 = true /\ len item.1 <= max_length)
         texts ->
  exists st,
    send_output_task long_enough (deliver_text send_message chat_id)
      (output_of texts) (start zero (c0, []))
    = (Break, st, [])
    /\ (chat st).2 = (fun item => EvSend chat_id item.1) <$> texts
    /\ delivered st = fst <$> texts
    /\ buffer st = [].
Proof.
  intros Hok Hall. unfold output_of, start.
  assert (Hgen : forall (c : Client) (trace : list event) (done : list str),
    exists st,
      send_output_task long_enough (deliver_text send_message chat_id)
        (((fun item => Fragment item.1 item.2) <$> texts) ++ [EndOfOutput])
        (State [] zero (c, trace) done)
      = (Break, st, [])
      /\ (chat st).2 = trace ++ ((fun item => EvSend chat_id item.1) <$> texts)
      /\ delivered st = done ++ (fst <$> texts)
      /\ buffer st = []).
  { clear c0. generalize zero. clear zero.
    induction Hall as [|[text now] texts [Htr Hshort] _ IH]; intros zero c trace done.
    - simpl. unfold flush_and_break. simpl. eexists. split; [reflexivity |].
      simpl. by rewrite !app_nil_r.
    - simpl in Htr, Hshort.
      assert (Hnb : nonblank text = true)
        by apply (transcription_nonblank [] text Htr).
      assert (Hblank : blank text = false).
      { unfold blank. unfold nonblank in Hnb. rewrite Hnb.
        destruct text; [discriminate Hnb | reflexivity]. }
      cbn [fmap list_fmap app send_output_task iteration buffer last_send_time
           chat delivered fst snd].
      rewrite Htr, Hnb. cbn [orb andb]. unfold send_buffer.
      cbn [buffer chat last_send_time delivered app].
      rewrite (deliver_text_short send_message chat_id (c, trace) text Hok Hshort Hblank).
      cbn [chat delivered fst snd].
      destruct (IH now (send_message c chat_id text).1 (trace ++ [EvSend chat_id text])
                   (done ++ [text])) as (st & Hrun & Hchat & Hdel & Hbuf).
      exists st. split; [exact Hrun |].
      rewrite Hchat, Hdel, <- !app_assoc. by repeat split. }
  exact (Hgen c0 [] []).
Qed.

Lemma bracketed_output_is_sent_at_once_witness :
  exists st,
    send_output_task (fun now last => now - last >=? 2) (deliver_text accepting 7)
      (output_of [([91; 49; 93; 97]%N, 1); ([91; 50; 93; 98]%N, 1)])
      (start 0 (0%nat, []))
    = (Break, st, [])
    /\ (chat st).2 = [EvSend 7 [91; 49; 93; 97]%N; EvSend 7 [91; 50; 93; 98]%N].
Proof.
  destruct (bracketed_output_is_sent_at_once (fun now last => now - last >=? 2)
              accepting 7 [([91; 49; 93; 97]%N, 1); ([91; 50; 93; 98]%N, 1)] 0 0%nat)
    as (st & H1 & H2 & _).
  - reflexivity.
  - repeat constructor; vm_compute; discriminate.
  - exists st. split; [exact H1 | exact H2].
Defined.

End SenderTheorems.

(* ===================================================================== *)
(** * The output handler *)
(* ===================================================================== *)

Module HandlerFacts.
Import PyStr PyStrFacts Py Handler HandlerSpec.

Lemma visible_app (s t : str) : visible (s ++ t) = visible s ++ visible t.
Proof. apply List.filter_app. Qed.

Lemma visible_blank (s : str) : truthy (strip s) = false -> visible s = [].
Proof.
  rewrite truthy_strip. intros H%negb_false_iff.
  induction s as [|x s IH]; [done |]. simpl in *.
  apply andb_true_iff in H as [-> H]. by apply IH.
Qed.

Section Callback.
Context {Time Chat : Type}.
Variable due : Time -> Time -> bool.
Variable send_message_callback : Chat -> str -> Chat * result unit.

Local Abbreviation handler := (@handler Time Chat).

Lemma send_and_reset_spec (current_time : option Time) (h : handler) :
  let h' := (send_and_reset send_message_callback current_time h).1 in
  seen h' = seen h /\ buffer h' = []
  /\ exists l, handed h' = handed h ++ l /\ Forall (fun t => truthy (strip t) = true) l.
Proof.
  unfold send_and_reset, seen. destruct (truthy (strip (buffer h))) eqn:Hb.
  - destruct (send_message_callback (chat h) (buffer h)) as [c [e | u]]; cbn;
      rewrite concat_app, app_nil_r; cbn; rewrite app_nil_r;
      (split; [done |]); (split; [done |]); exists [buffer h]; by repeat constructor.
  - cbn. rewrite app_nil_r, visible_app, (visible_blank _ Hb), app_nil_r.
    split; [done |]. split; [done |]. exists []. by rewrite app_nil_r.
Qed.

Lemma step_spec (c : call) (h : handler) :
  let h' := (step due send_message_callback c h).1 in
  seen h' = seen h ++ visible (default [] (match c with
                                           | Write text _ => Some text
                                           | Flush => None
                                           end))
  /\ (c = Flush -> buffer h' = [])
  /\ exists l, handed h' = handed h ++ l /\ Forall (fun t => truthy (strip t) = true) l.
Proof.
  assert (Hnone : exists l : list str,
            handed h = handed h ++ l /\ Forall (fun t => truthy (strip t) = true) l)
    by (exists []; by rewrite app_nil_r).
  destruct c as [text now |]; cbn [step default].
  - unfold write. destruct text as [|x text]; cbn [truthy negb].
    { cbn. rewrite app_nil_r. done. }
    set (h1 := Handler (buffer h ++ x :: text) (last_send_time h) (chat h) (handed h)).
    assert (H1 : seen h1 = seen h ++ visible (x :: text)).
    { unfold seen, h1. cbn [handed buffer]. by rewrite app_assoc, visible_app. }
    destruct (_ && _).
    + destruct (send_and_reset_spec (Some now) h1) as (Hs & _ & Hl).
      cbv zeta. rewrite Hs, H1. done.
    + cbv zeta. cbn [fst]. rewrite H1. done.
  - unfold flush. rewrite app_nil_r. destruct (Z.ltb_spec 0 (len (buffer h))).
    + destruct (send_and_reset_spec None h) as (Hs & Hb & Hl). done.
    + cbv zeta. cbn [fst]. split; [done |]. split; [| done]. intros _.
      destruct (buffer h); [done |]. unfold len in *. simpl in *. lia.
Qed.

End Callback.
End HandlerFacts.

Module HandlerTheorems.
Import PyStr PyStrFacts Py Handler HandlerSpec HandlerFacts.

(** X8: over any series of [write] and [flush] calls, with any
    callback, the characters written that are not whitespace are exactly
    those handed to the callback followed by those still in the buffer,
    in the order they were written and each once: a batch whose callback
    raised is not offered again, and only whitespace is dropped.  The
    callback never gets a blank text, and after a [flush] the buffer is
    empty. *)
Theorem handler_hands_over_every_visible_character {Time Chat : Type}
    (due : Time -> Time -> bool)
    (send_message_callback : Chat -> str -> Chat * result unit)
    (calls : list (@call Time)) (zero : Time) (c : Chat) :
  let h := run due send_message_callback calls (init zero c) in
  visible (concat (handed h) ++ buffer h) = visible (concat (written calls))
  /\ Forall (fun t => truthy (strip t) = true) (handed h)
  /\ buffer (run due send_message_callback (calls ++ [Flush]) (init zero c)) = [].
Proof.
  assert (Hgen : forall calls (h0 : @handler Time Chat),
            let h := run due send_message_callback calls h0 in
            seen h = seen h0 ++ visible (concat (written calls))
            /\ exists l, handed h = handed h0 ++ l
                         /\ Forall (fun t => truthy (strip t) = true) l).
  { clear calls. induction calls as [| call calls IH]; intros h0; cbn.
    - rewrite !app_nil_r. split; [done |]. exists []. by rewrite app_nil_r.
    - destruct (step_spec due send_message_callback call h0) as (Hs & _ & l1 & Hl1 & HP1).
      destruct (IH (step due send_message_callback call h0).1) as (Hs2 & l2 & Hl2 & HP2).
      cbv zeta in *. unfold run in *. rewrite Hs2, Hs, <- app_assoc. split.
      + f_equal. unfold written. destruct call as [text now |]; cbn; [| done].
        by rewrite visible_app.
      + exists (l1 ++ l2). rewrite Hl2, Hl1, app_assoc. split; [done |].
        by apply Forall_app. }
  cbv zeta. destruct (Hgen calls (init zero c)) as (Hs & l & Hl & HP).
  split; [exact Hs |]. split; [by rewrite Hl |].
  unfold run. rewrite foldl_app. cbn.
  by apply (step_spec due send_message_callback Flush).
Qed.

(** With a callback that always raises, two writes a long time apart
    are both handed over once and nothing is kept. *)
Example failed_batches_are_not_kept :
  let h := run every_second failing
             [Write [104; 105]%N 5%nat; Write [33]%N 9%nat] (init 0%nat 0%nat) in
  handed h = [[104; 105]%N; [33]%N] /\ buffer h = [] /\ chat h = 2%nat.
Proof. vm_compute. done. Qed.

End HandlerTheorems.

(* ===================================================================== *)
(** * More on the daily capacity *)
(* ===================================================================== *)

Module CapacityMore.
Import Py Utils CapacitySpec CapacityFacts.
Local Open Scope string_scope.

Lemma get_same_day (persisted : metadata_dict) (today : string) (v : value) :
  remaining persisted = Some v -> day persisted = Some (VStr today) ->
  get_daily_capacity today persisted = (persisted, inr v).
Proof.
  unfold remaining, day, get_daily_capacity. intros -> ->.
  by rewrite differs_same_day.
Qed.

Lemma get_new_day (persisted : metadata_dict) (today : string) :
  remaining persisted = None
  \/ differs_from_date (day persisted) today = true ->
  get_daily_capacity today persisted
  = (<["last_capacity_date" := VStr today]>
       (<["daily_capacity" := VInt DAILY_CAPACITY]> persisted),
     inr (VInt DAILY_CAPACITY)).
Proof.
  unfold remaining, day, get_daily_capacity.
  destruct (persisted !! "daily_capacity") as [v |]; [| done].
  intros [? | ->]; done.
Qed.

(** X9: [get_daily_capacity] settles the file: a second call on the same
    day reports the same value and writes nothing; and whenever the stored
    day is not today (or there is no counter) it reports 1000. *)
Theorem get_daily_capacity_is_stable (persisted : metadata_dict) (today : string) :
  get_daily_capacity today (get_daily_capacity today persisted).1
  = get_daily_capacity today persisted
  /\ (remaining persisted = None
      \/ differs_from_date (day persisted) today = true ->
      (get_daily_capacity today persisted).2 = inr (VInt 1000)).
Proof.
  split; [| intros H; by rewrite get_new_day].
  destruct (remaining persisted) as [v |] eqn:Hv.
  - destruct (differs_from_date (day persisted) today) eqn:Hday.
    + rewrite (get_new_day persisted today) by (by right). simpl. apply get_same_day.
      * unfold remaining. rewrite lookup_insert_ne by done. apply lookup_insert_eq.
      * apply lookup_insert_eq.
    + apply differs_false_inv in Hday.
      rewrite (get_same_day _ _ v Hv Hday). simpl. by apply get_same_day.
  - rewrite (get_new_day persisted today) by (by left). simpl. apply get_same_day.
    + unfold remaining. rewrite lookup_insert_ne by done. apply lookup_insert_eq.
    + apply lookup_insert_eq.
Qed.

(** X10: a decrement lowers what [get_daily_capacity] reports by exactly
    one, unless that is 0 or less, in which case nothing changes; and it
    returns [True] exactly when the capacity reported afterwards is
    positive. *)
Theorem decrement_agrees_with_get (persisted : metadata_dict) (today : string) (c : Z) :
  (get_daily_capacity today persisted).2 = inr (VInt c) ->
  let c' := if (0 <? c)%Z then (c - 1)%Z else c in
  exists persisted',
    decrement_daily_capacity today persisted = (persisted', inr (0 <? c')%Z)
    /\ get_daily_capacity today persisted' = (persisted', inr (VInt c'))
    /\ ((c <= 0)%Z -> persisted' = persisted).
Proof.
  intros Hget c'.
  assert (Hafter : forall m : metadata_dict,
            day m = Some (VStr today) ->
            get_daily_capacity today (<["daily_capacity" := VInt c']> m)
            = (<["daily_capacity" := VInt c']> m, inr (VInt c'))).
  { intros m Hm. apply get_same_day; [apply lookup_insert_eq |].
    unfold day. by rewrite lookup_insert_ne. }
  destruct (remaining persisted) as [v |] eqn:Hv.
  - destruct (differs_from_date (day persisted) today) eqn:Hday.
    + rewrite get_new_day in Hget by (by right). injection Hget as <-.
      rewrite decrement_new_day by (by eexists || exact Hday).
      eexists. split; [reflexivity |]. split; [| unfold DAILY_CAPACITY; lia].
      apply (Hafter (<["last_capacity_date" := VStr today]>
                       (<["daily_capacity" := VInt DAILY_CAPACITY]> persisted))).
      apply lookup_insert_eq.
    + apply differs_false_inv in Hday.
      rewrite (get_same_day _ _ v Hv Hday) in Hget. injection Hget as ->.
      rewrite (decrement_same_day _ _ c Hv Hday). subst c'.
      destruct (Z.leb_spec c 0), (Z.ltb_spec 0 c); try lia.
      * exists persisted. split; [| split; [by apply get_same_day | done]].
        f_equal. f_equal. symmetry. apply Z.ltb_ge. lia.
      * eexists. split; [reflexivity |]. split; [by apply Hafter | lia].
  - rewrite get_new_day in Hget by (by left). injection Hget as <-.
    rewrite decrement_uninitialised by exact Hv.
    eexists. split; [reflexivity |]. split; [| unfold DAILY_CAPACITY; lia].
    apply (Hafter (<["last_capacity_date" := VStr today]>
                     (<["daily_capacity" := VInt DAILY_CAPACITY]> persisted))).
    apply lookup_insert_eq.
Qed.

Lemma decrement_agrees_with_get_witness :
  exists persisted',
    decrement_daily_capacity "2025-03-01" (counter 7 "2025-03-01")
    = (persisted', inr true)
    /\ get_daily_capacity "2025-03-01" persisted' = (persisted', inr (VInt 6)).
Proof.
  destruct (decrement_agrees_with_get (counter 7 "2025-03-01") "2025-03-01" 7)
    as (p & H1 & H2 & _); [reflexivity |].
  exists p. split; [exact H1 | exact H2].
Defined.

(** X11: [calls] calls on the stored day from a counter at [n >= 0] leave
    it at [max (n - calls) 0]; the first [min calls (n - 1)] of them return
    [True] and all later ones [False]. *)
Theorem decrements_within_a_day (calls : nat) (persisted : metadata_dict)
    (today : string) (n : Z) :
  remaining persisted = Some (VInt n) -> day persisted = Some (VStr today) ->
  (0 <= n)%Z ->
  exists final,
    decrement_times calls today persisted
    = (final,
       (replicate (Nat.min calls (Z.to_nat (n - 1))) (inr true)
        ++ replicate (calls - Z.to_nat (n - 1)) (inr false))%list)
    /\ remaining final = Some (VInt (Z.max (n - Z.of_nat calls) 0))
    /\ day final = Some (VStr today).
Proof.
  revert persisted n. induction calls as [|calls IH]; intros persisted n Hn Hday Hpos.
  - exists persisted. simpl. split; [reflexivity |]. split; [| exact Hday].
    rewrite Hn. do 2 f_equal. lia.
  - cbn [decrement_times]. rewrite (decrement_same_day _ _ n Hn Hday).
    destruct (Z.leb_spec n 0).
    + assert (n = 0%Z) as -> by lia.
      destruct (IH persisted 0%Z Hn Hday ltac:(lia)) as (final & -> & Hf & Hd).
      exists final. split; [| split; [| exact Hd]].
      * simpl. rewrite Nat.min_0_r. simpl. by rewrite Nat.sub_0_r.
      * rewrite Hf. do 2 f_equal. lia.
    + destruct (IH (<["daily_capacity" := VInt (n - 1)]> persisted) (n - 1)%Z)
        as (final & -> & Hf & Hd);
        [apply lookup_insert_eq | unfold day; by rewrite lookup_insert_ne | lia |].
      exists final. split; [| split; [| exact Hd]].
      * f_equal. destruct (Z.ltb_spec 0 (n - 1)).
        -- replace (Z.to_nat (n - 1)) with (S (Z.to_nat (n - 1 - 1))) by lia.
           simpl. reflexivity.
        -- replace (Z.to_nat (n - 1)) with 0%nat by lia.
           replace (Z.to_nat (n - 1 - 1)) with 0%nat by lia.
           rewrite !Nat.min_0_r, !Nat.sub_0_r. reflexivity.
      * rewrite Hf. do 2 f_equal. lia.
Qed.

Lemma decrements_within_a_day_witness :
  exists final,
    decrement_times 5 "2025-03-01" (counter 3 "2025-03-01")
    = (final, [inr true; inr true; inr false; inr false; inr false])
    /\ remaining final = Some (VInt 0).
Proof.
  destruct (decrements_within_a_day 5 (counter 3 "2025-03-01") "2025-03-01" 3)
    as (final & H1 & H2 & _); [reflexivity | reflexivity | lia |].
  exists final. split; [exact H1 | exact H2].
Defined.

End CapacityMore.

(* ===================================================================== *)
(** * Jobs, whatever their surroundings do *)
(* ===================================================================== *)

Module JobFacts.
Import Py Routes RoutesSpec RoutesFacts JobSpec.

Lemma added_refl (w : world) : added w w [].
Proof. unfold added. by rewrite app_nil_r. Qed.

Lemma added_trans (w1 w2 w3 : world) (l1 l2 : list action) :
  added w1 w2 l1 -> added w2 w3 l2 -> added w1 w3 (l1 ++ l2).
Proof.
  intros (? & ? & ? & ? & Ha) (? & ? & ? & ? & Hb). unfold added.
  rewrite Hb, Ha, app_assoc. repeat split; congruence.
Qed.

Section Frame.
Context (P : action -> Prop).

Lemma only_adds_ret {A} (a : A) : only_adds P (ret a).
Proof. intros w. exists []. split; [apply added_refl | constructor]. Qed.

Lemma only_adds_lift {A} (r : result A) : only_adds P (lift r).
Proof. intros w. exists []. split; [apply added_refl | constructor]. Qed.

Lemma only_adds_raise {A} (e : exn) : only_adds P (raise (A := A) e).
Proof. intros w. exists []. split; [apply added_refl | constructor]. Qed.

Lemma only_adds_perform (outcome : action -> result unit) (a : action) :
  P a -> only_adds P (perform outcome a).
Proof.
  intros Ha w. exists [a]. split; [by repeat split | by repeat constructor].
Qed.

Lemma only_adds_bind {A B} (m : M world A) (k : A -> M world B) :
  only_adds P m -> (forall a, only_adds P (k a)) -> only_adds P (bind m k).
Proof.
  intros Hm Hk w. unfold bind. destruct (Hm w) as (l1 & H1 & HP1).
  destruct (m w) as [w1 [e | a]]; simpl in *.
  - by exists l1.
  - destruct (Hk a w1) as (l2 & H2 & HP2). exists (l1 ++ l2).
    split; [by eapply added_trans | by apply Forall_app].
Qed.

Lemma only_adds_dispatch {A} (clauses : list ((exn -> bool) * (exn -> M world A)))
    (e : exn) :
  Forall (fun clause => forall e, only_adds P (clause.2 e)) clauses ->
  only_adds P (dispatch clauses e).
Proof.
  induction 1 as [| [accepts handler] rest Hh _ IH]; simpl.
  - apply only_adds_raise.
  - destruct (accepts e); [apply Hh | apply IH].
Qed.

Lemma only_adds_try_except {A} (body : M world A)
    (clauses : list ((exn -> bool) * (exn -> M world A))) :
  only_adds P body ->
  Forall (fun clause => forall e, only_adds P (clause.2 e)) clauses ->
  only_adds P (try_except body clauses).
Proof.
  intros Hb Hc w. unfold try_except. destruct (Hb w) as (l1 & H1 & HP1).
  destruct (body w) as [w1 [e | a]]; simpl in *.
  - destruct (only_adds_dispatch clauses e Hc w1) as (l2 & H2 & HP2).
    exists (l1 ++ l2). split; [by eapply added_trans | by apply Forall_app].
  - by exists l1.
Qed.

Lemma only_adds_try_finally {A} (body : M world A) (fin : M world unit) :
  only_adds P body -> only_adds P fin -> only_adds P (try_finally body fin).
Proof.
  intros Hb Hf w. unfold try_finally. destruct (Hb w) as (l1 & H1 & HP1).
  destruct (body w) as [w1 r]. simpl in *.
  destruct (Hf w1) as (l2 & H2 & HP2).
  exists (l1 ++ l2). split; [| by apply Forall_app].
  destruct (fin w1) as [w2 [e | u]]; by eapply added_trans.
Qed.

Lemma only_adds_logged (m : M world unit) : only_adds P m -> only_adds P (logged m).
Proof.
  intros Hm. apply only_adds_try_except; [exact Hm |].
  repeat constructor. intros e. apply only_adds_ret.
Qed.

Lemma only_adds_client_send (env : job_env) (client_present : bool) (n : notice) :
  P (SendMessage n) -> only_adds P (client_send env client_present n).
Proof.
  intros Hn. unfold client_send.
  destruct client_present; [by apply only_adds_perform | apply only_adds_raise].
Qed.

Lemma only_adds_await_executor (env : job_env) (client_present : bool) :
  (forall e, P (SendMessage (error_occurred (raised e)))) ->
  only_adds P (await_executor env client_present).
Proof.
  intros He. apply only_adds_try_except; [apply only_adds_lift |].
  repeat constructor; intros e; simpl.
  - destruct (negb (job_executor_done env)); [| apply only_adds_ret].
    apply only_adds_try_except; [apply only_adds_lift |].
    repeat constructor. intros ?. apply only_adds_ret.
  - apply only_adds_logged, only_adds_client_send, He.
Qed.

Lemma only_adds_await_output_task (env : job_env) :
  only_adds P (await_output_task env).
Proof.
  apply only_adds_try_except; [apply only_adds_lift |].
  repeat constructor; intros e; simpl; [| apply only_adds_ret].
  apply only_adds_try_except; [apply only_adds_lift |].
  repeat constructor. intros ?. apply only_adds_ret.
Qed.

(** The body of the job, between the lookup of the flag and the
    [finally] that removes the entry. *)
Lemma only_adds_job (env : job_env) (user_id : Z) (client_present : bool) (w : world) :
  (forall n, n <> processing_complete -> P (SendMessage n)) ->
  (job_shutdown_is_set env = false -> P (SendMessage processing_complete)) ->
  P (Reply (error_occurred client_invalid)) ->
  exists l,
    Forall P l
    /\ user_processing_tasks (process_youtube_video env user_id client_present w).1
       = delete user_id (user_processing_tasks w)
    /\ user_states (process_youtube_video env user_id client_present w).1 = user_states w
    /\ metadata_file (process_youtube_video env user_id client_present w).1
       = metadata_file w
    /\ actions (process_youtube_video env user_id client_present w).1 = actions w ++ l.
Proof.
  intros Hsend Hcomplete Hreply.
  remember (process_youtube_video env user_id client_present w) as out eqn:Hout.
  unfold process_youtube_video in Hout. unfold bind at 1 in Hout.
  unfold gets in Hout. cbv beta iota in Hout.
  destruct (user_processing_tasks w !! user_id) as [info |] eqn:Hinfo;
    cbn [fmap option_fmap option_map] in Hout.
  - match type of Hout with
    | context [try_finally ?body _] =>
        set (job := body) in Hout; assert (Hbody : only_adds P job)
    end.
    { subst job. apply only_adds_try_except.
      - apply only_adds_bind; [apply only_adds_lift | intros _].
        destruct (negb client_present).
        + by apply only_adds_logged, only_adds_perform.
        + apply only_adds_bind; [| intros _].
          { by apply only_adds_logged, only_adds_client_send, Hsend. }
          apply only_adds_bind; [| intros _].
          { apply only_adds_try_finally;
              [apply only_adds_await_executor | apply only_adds_await_output_task].
            intros e. by apply Hsend. }
          apply only_adds_bind; [| intros _; apply only_adds_lift].
          destruct (job_shutdown_is_set env); [apply only_adds_ret |].
          by apply only_adds_logged, only_adds_client_send, Hcomplete.
      - repeat constructor; intros e; simpl.
        + apply only_adds_bind; [| intros _; apply only_adds_lift].
          by apply only_adds_logged, only_adds_client_send, Hsend.
        + apply only_adds_bind; [| intros _; apply only_adds_lift].
          by apply only_adds_logged, only_adds_client_send, Hsend. }
    clearbody job. unfold try_finally, unregister, modify in Hout.
    destruct (Hbody w) as (l & (Ht & Hs & Hm & _ & Ha) & HP).
    destruct (job w) as [w1 r]. subst out. cbn in *.
    exists l. by rewrite Ht.
  - destruct (only_adds_logged _
                (only_adds_client_send env client_present
                   (error_occurred missing_shutdown_flag)
                   (Hsend (error_occurred missing_shutdown_flag) ltac:(discriminate))) w)
      as (l & (Ht & Hs & Hm & _ & Ha) & HP).
    subst out. exists l. rewrite Ht, delete_id by done. done.
Qed.

End Frame.

(** One of the two clauses of the outer [try] accepts any exception. *)
Lemma cancelled_or_exception (e : exn) :
  is_CancelledError e = true \/ (is_CancelledError e = false /\ is_Exception e = true).
Proof. destruct e; auto. Qed.

Lemma logged_client_send_returns (env : job_env) (client_present : bool) (n : notice)
    (w : world) :
  (forall a, not_cancelled (job_outcome env a) = true) ->
  (logged (client_send env client_present n) w).2 = inr tt.
Proof.
  intros Hout. unfold logged, try_except, client_send.
  destruct client_present; [| reflexivity]. unfold perform.
  specialize (Hout (SendMessage n)).
  destruct (job_outcome env (SendMessage n)) as [e | []]; [| reflexivity].
  simpl in *. rewrite Hout. reflexivity.
Qed.

End JobFacts.

Module JobTheorems.
Import Py Routes RoutesSpec RoutesFacts Background JobSpec JobFacts.

(** X12: in a job whose wait for the output task settles, whatever the
    other awaited calls end with -- a return, an exception, a
    cancellation -- and whether or not the function itself raises, the
    task table is left without the owner's entry and with every other
    entry as it was; the job does not touch the user states or
    metadata.json, and only adds to what was sent.  (A job that stays in
    the wait for the output task does not come this far: its entry
    stays.) *)
Theorem job_always_unregisters (env : job_env) (user_id : Z) (client_present : bool)
    (w : world) :
  output_settles env = true ->
  let w' := (process_youtube_video env user_id client_present w).1 in
  user_processing_tasks w' = delete user_id (user_processing_tasks w)
  /\ user_processing_tasks w' !! user_id = None
  /\ (forall other, other <> user_id ->
        user_processing_tasks w' !! other = user_processing_tasks w !! other)
  /\ user_states w' = user_states w
  /\ metadata_file w' = metadata_file w
  /\ exists l, actions w' = actions w ++ l.
Proof.
  intros _.
  destruct (only_adds_job (fun _ => True) env user_id client_present w)
    as (l & _ & Ht & Hs & Hm & Ha); try done.
  cbv zeta. rewrite Ht. split; [done |]. split; [apply lookup_delete_eq |].
  split; [intros other Hne; by apply lookup_delete_ne |].
  split; [done |]. split; [done |]. by exists l.
Qed.

Lemma job_always_unregisters_witness :
  output_settles all_fail = true
  /\ user_processing_tasks (process_youtube_video all_fail 42 true one_job).1 !! 42 = None
  /\ user_processing_tasks (process_youtube_video all_fail 42 true one_job).1 = ∅.
Proof.
  split; [reflexivity |].
  destruct (job_always_unregisters all_fail 42 true one_job eq_refl)
    as (Ht & Hnone & _).
  split; [exact Hnone |]. rewrite Ht. apply delete_singleton_eq.
Defined.

(** X13: once the shutdown flag is set at the end of processing, no
    path through the job sends the completion notice, whatever else
    happens. *)
Theorem no_completion_after_shutdown (env : job_env) (user_id : Z)
    (client_present : bool) (w : world) :
  job_shutdown_is_set env = true ->
  exists l,
    actions (process_youtube_video env user_id client_present w).1 = actions w ++ l
    /\ (SendMessage processing_complete ∉ l)
    /\ processing_complete ∉ final_notices l.
Proof.
  intros Hset.
  destruct (only_adds_job (fun a => a <> SendMessage processing_complete)
              env user_id client_present w)
    as (l & HP & _ & _ & _ & Ha).
  - intros n Hn [= ->]. done.
  - rewrite Hset. discriminate.
  - discriminate.
  - exists l. split; [exact Ha |].
    assert (Hnot : SendMessage processing_complete ∉ l).
    { intros Hin. by apply (proj1 (Forall_forall _ _) HP _ Hin). }
    split; [exact Hnot |]. intros Hin.
    apply list_elem_of_omap in Hin as (a & Hin & Hfinal).
    destruct a as [n | n | n | |]; try discriminate Hfinal;
      destruct n; try discriminate Hfinal.
    by apply Hnot.
Qed.

Lemma no_completion_after_shutdown_witness :
  exists l,
    actions (process_youtube_video cancelled_wait 42 true one_job).1
    = actions one_job ++ l
    /\ (SendMessage processing_complete ∉ l)
    /\ processing_complete ∉ final_notices l.
Proof. apply (no_completion_after_shutdown cancelled_wait 42 true one_job). reflexivity. Defined.

(** X14: a job whose wait for the output task settles raises nothing
    to the task that runs it, whenever no call to the chat is cancelled
    and [reset_context] does not raise: every other failure (of the
    setup, of the worker, of the wait for the worker, of a send) is
    handled inside. *)
Theorem job_returns_unless_cancelled (env : job_env) (user_id : Z)
    (client_present : bool) (w : world) :
  output_settles env = true ->
  (forall a, not_cancelled (job_outcome env a) = true) ->
  (forall s, job_reset_context env s = inr tt) ->
  (process_youtube_video env user_id client_present w).2 = inr tt.
Proof.
  intros _ Hout Hreset. unfold process_youtube_video.
  unfold bind at 1. unfold gets. cbv beta iota.
  destruct (user_processing_tasks w !! user_id) as [info |];
    cbn [fmap option_fmap option_map];
    [| by apply logged_client_send_returns].
  match goal with
  | |- context [try_finally ?body _] =>
      set (job := body); assert (Hbody : (job w).2 = inr tt)
  end.
  2:{ clearbody job. unfold try_finally, unregister, modify.
      destruct (job w) as [w1 r]. simpl in *. by subst r. }
  subst job. unfold try_except at 1.
  match goal with
  | |- context [let (_, _) := ?body w in _] => destruct (body w) as [w1 [e | []]]
  end; [| reflexivity].
  cbn [dispatch].
  destruct (cancelled_or_exception e) as [-> | [-> ->]]; unfold bind;
    match goal with
    | |- context [logged (client_send env client_present ?n) w1] =>
        pose proof (logged_client_send_returns env client_present n w1 Hout) as Hsend;
        destruct (logged (client_send env client_present n) w1) as [w2 r];
        simpl in Hsend; subst r
    end; unfold lift; by rewrite Hreset.
Qed.

Lemma job_returns_unless_cancelled_witness :
  (process_youtube_video all_fail 42 true one_job).2 = inr tt
  /\ (process_youtube_video cancelled_wait 42 true one_job).2 = inr tt.
Proof.
  split.
  - apply (job_returns_unless_cancelled all_fail 42 true one_job);
      [reflexivity | by intros [] | done].
  - apply (job_returns_unless_cancelled cancelled_wait 42 true one_job);
      [reflexivity | by intros [] | done].
Defined.

(** X15: when the wait for the output task settles, the task a handler
    creates for a job leaves, whatever else happens in the job, neither
    an entry nor a state for the owner, so that the owner's next request
    is registered; what the job raises is passed on.  (While a job stays
    in the wait for the output task, entry and state stay too.) *)
Theorem cleanup_leaves_no_trace (env : job_env) (user_id : Z) (client_present : bool)
    (w : world) :
  output_settles env = true ->
  let out := process_with_cleanup env user_id client_present w in
  user_processing_tasks out.1 = delete user_id (user_processing_tasks w)
  /\ user_states out.1 = delete user_id (user_states w)
  /\ out.2 = (process_youtube_video env user_id client_present w).2
  /\ forall flag ty, (try_register user_id flag ty out.1).2 = inr true.
Proof.
  intros _.
  destruct (only_adds_job (fun _ => True) env user_id client_present w)
    as (l & _ & Ht & Hs & _); try done.
  unfold process_with_cleanup, try_finally, set_user_state, modify.
  destruct (process_youtube_video env user_id client_present w) as [w1 r].
  cbn in *. rewrite Ht, Hs. split; [done |]. split; [done |]. split; [done |].
  intros flag ty. by rewrite lookup_delete_eq.
Qed.

Lemma cleanup_leaves_no_trace_witness :
  output_settles cancelled_wait = true
  /\ user_processing_tasks (process_with_cleanup cancelled_wait 42 true one_job).1 = ∅
  /\ (try_register 42 5 file (process_with_cleanup cancelled_wait 42 true one_job).1).2
     = inr true.
Proof.
  split; [reflexivity |].
  destruct (cleanup_leaves_no_trace cancelled_wait 42 true one_job eq_refl)
    as (Ht & _ & _ & Hfree).
  split; [| apply Hfree]. rewrite Ht. apply delete_singleton_eq.
Defined.

End JobTheorems.

(* ===================================================================== *)
(** * Uploads and links *)
(* ===================================================================== *)

Module UploadFacts.
Import Py Routes RoutesSpec RoutesFacts UploadSpec.

Lemma passes_checks_run (env : upload_env) (user_id : Z) (w : world) (warn : bool)
    (md' : Utils.metadata_dict) :
  passes_checks env w warn md' ->
  handle_video_message env user_id w
  = start_upload env user_id
      (World (user_processing_tasks w) (user_states w) md'
             (actions w ++ warning_reply warn) (next_object w)).
Proof.
  intros (Hauth & (v & Hvideo & Hsize) & Hcheck & Hwarn).
  unfold handle_video_message. rewrite Hauth, Hvideo. cbn [negb].
  destruct (Z.ltb_spec MAX_FILE_SIZE (file_size v)); [lia |].
  unfold bind at 1. unfold on_metadata. rewrite Hcheck.
  unfold bind at 1. destruct warn; simpl.
  - unfold perform. rewrite Hwarn by done. reflexivity.
  - unfold ret. by rewrite app_nil_r.
Qed.

(** With an entry of the sender in the table the handler only replies. *)
Lemma registered_upload_frame (env : upload_env) (user_id : Z) (w : world)
    (info : task_info) :
  user_processing_tasks w !! user_id = Some info ->
  user_processing_tasks (handle_video_message env user_id w).1 = user_processing_tasks w
  /\ exists l,
       actions (handle_video_message env user_id w).1 = actions w ++ l
       /\ Forall is_reply l.
Proof.
  intros Hinfo.
  remember (handle_video_message env user_id w) as out eqn:Hout.
  unfold handle_video_message in Hout.
  destruct (up_authenticated env); cbn [negb] in Hout.
  2:{ subst out. split; [done |]. exists [Reply not_authenticated]. by repeat constructor. }
  destruct (up_video env) as [v |].
  2:{ subst out. split; [done |]. exists [Reply no_video_file]. by repeat constructor. }
  destruct (MAX_FILE_SIZE <? file_size v).
  { subst out. split; [done |]. eexists [Reply _]. by repeat constructor. }
  unfold bind at 1 in Hout. unfold on_metadata in Hout.
  destruct (Utils.check_token_warning (up_today env) (metadata_file w)) as [md' [e | warn]].
  { subst out. split; [done |]. exists []. split; [by rewrite app_nil_r | constructor]. }
  unfold bind at 1 in Hout.
  assert (Hreg : forall w1 l1,
            user_processing_tasks w1 = user_processing_tasks w ->
            actions w1 = actions w ++ l1 -> Forall is_reply l1 ->
            let out1 := (set_user_state user_id (Some STATE_PROCESSING) ;;
                         flag <- new_object ;;
                         registered <- try_register user_id flag file ;;
                         if negb registered then set_user_state user_id None
                         else raise (Exception "unreachable"))%py w1 in
            user_processing_tasks out1.1 = user_processing_tasks w
            /\ exists l, actions out1.1 = actions w ++ l /\ Forall is_reply l).
  { intros w1 l1 Ht Ha Hl. cbv zeta.
    unfold bind, set_user_state, modify, new_object, try_register, gets. cbn.
    rewrite Ht, Hinfo. cbn. split; [done |].
    exists (l1 ++ [ScheduleReply processing_video]).
    split; [by rewrite Ha, app_assoc |].
    apply Forall_app. split; [done | by repeat constructor]. }
  assert (Hsame : forall w1,
            user_processing_tasks w1 !! user_id = Some info ->
            start_upload env user_id w1
            = (set_user_state user_id (Some STATE_PROCESSING) ;;
               flag <- new_object ;;
               registered <- try_register user_id flag file ;;
               if negb registered then set_user_state user_id None
               else raise (Exception "unreachable"))%py w1).
  { intros w1 H1. unfold start_upload, bind, set_user_state, modify, new_object,
      try_register, gets. cbn. rewrite H1. reflexivity. }
  fold (start_upload env user_id) in Hout.
  destruct warn; simpl in Hout.
  - unfold perform in Hout.
    destruct (up_outcome env (Reply token_warning)) as [e | []].
    + subst out. split; [done |]. exists [Reply token_warning]. by repeat constructor.
    + rewrite Hsame in Hout by done. subst out.
      apply (Hreg _ [Reply token_warning]); [done | done | by repeat constructor].
  - unfold ret in Hout. rewrite Hsame in Hout by done. subst out.
    apply (Hreg _ []); [done | by rewrite app_nil_r | constructor].
Qed.

End UploadFacts.

Module UploadTheorems.
Import Py Routes RoutesSpec RoutesFacts UploadSpec UploadFacts.

(** X16: an upload from a user whose job is registered never touches
    the task table, downloads nothing and creates no task, whatever the
    surroundings do: it only replies. *)
Theorem upload_never_disturbs_running_job (env : upload_env) (user_id : Z) (w : world)
    (info : task_info) :
  user_processing_tasks w !! user_id = Some info ->
  user_processing_tasks (handle_video_message env user_id w).1 = user_processing_tasks w
  /\ exists l,
       actions (handle_video_message env user_id w).1 = actions w ++ l
       /\ (Download ∉ l) /\ (CreateTask ∉ l).
Proof.
  intros Hinfo.
  destruct (registered_upload_frame env user_id w info Hinfo) as (Ht & l & Ha & Hl).
  split; [exact Ht |]. exists l. split; [exact Ha |].
  split; intros Hin; apply (proj1 (Forall_forall _ _) Hl _ Hin).
Qed.

Lemma upload_never_disturbs_running_job_witness :
  user_processing_tasks (handle_video_message small_upload 42 busy).1
  = user_processing_tasks busy.
Proof.
  apply (upload_never_disturbs_running_job small_upload 42 busy
           (TaskInfo 0 youtube None None (Some 1%nat))).
  reflexivity.
Defined.

(** X17: an upload that passes the checks while the sender's job is
    registered is answered with the scheduled "already processing" reply,
    and the sender's state is removed from [user_states]: the
    [STATE_PROCESSING] of the running job is cleared with it. *)
Theorem second_upload_clears_state (env : upload_env) (user_id : Z) (w : world)
    (info : task_info) (warn : bool) (md' : Utils.metadata_dict) :
  user_processing_tasks w !! user_id = Some info ->
  passes_checks env w warn md' ->
  exists w',
    handle_video_message env user_id w = (w', inr tt)
    /\ user_processing_tasks w' = user_processing_tasks w
    /\ user_states w' = delete user_id (user_states w)
    /\ actions w' = actions w ++ warning_reply warn ++ [ScheduleReply processing_video].
Proof.
  intros Hinfo Hchecks. rewrite (passes_checks_run _ _ _ _ _ Hchecks).
  unfold start_upload, bind, set_user_state, modify, new_object, try_register, gets.
  cbn. rewrite Hinfo. cbn. eexists. split; [reflexivity |]. cbn.
  split; [done |]. split; [apply delete_insert_eq | by rewrite app_assoc].
Qed.

Lemma second_upload_clears_state_witness :
  exists w',
    handle_video_message small_upload 42 busy = (w', inr tt)
    /\ user_states w' !! 42 = None
    /\ actions w' = [ScheduleReply processing_video].
Proof.
  destruct (second_upload_clears_state small_upload 42 busy
              (TaskInfo 0 youtube None None (Some 1%nat)) false
              (<["last_capacity_date" := Utils.VStr "2025-03-01"]>
                 (<["daily_capacity" := Utils.VInt Utils.DAILY_CAPACITY]> ∅)))
    as (w' & Hrun & _ & Hs & Ha).
  - reflexivity.
  - split; [reflexivity |]. split; [eexists; split; [reflexivity | vm_compute; discriminate] |].
    split; [reflexivity | discriminate].
  - exists w'. split; [exact Hrun |]. split; [| exact Ha].
    rewrite Hs. apply lookup_delete_eq.
Defined.

(** X18: when the download raises an [Exception], the handler reports
    it, removes the entry it had written and clears the sender's state,
    and returns normally: the table is as before the upload. *)
Theorem failed_download_cleans_up (env : upload_env) (user_id : Z) (w : world)
    (warn : bool) (md' : Utils.metadata_dict) (e : exn) :
  user_processing_tasks w !! user_id = None ->
  passes_checks env w warn md' ->
  up_outcome env (Reply downloading_video) = inr tt ->
  up_outcome env Download = inl e ->
  is_Exception e = true ->
  not_cancelled (up_outcome env (Reply (error_occurred (raised e)))) = true ->
  exists w',
    handle_video_message env user_id w = (w', inr tt)
    /\ user_processing_tasks w' = user_processing_tasks w
    /\ user_states w' = delete user_id (user_states w)
    /\ actions w' = actions w ++ warning_reply warn
                    ++ [Reply downloading_video; Download;
                        Reply (error_occurred (raised e))].
Proof.
  intros Hnone Hchecks Hnotice Hdownload He Hreport.
  rewrite (passes_checks_run _ _ _ _ _ Hchecks).
  unfold start_upload, bind, set_user_state, modify, new_object, try_register, gets.
  cbn. rewrite Hnone. cbn. rewrite Hnotice. unfold try_except.
  rewrite Hdownload. cbn. rewrite He.
  destruct (up_outcome env (Reply (error_occurred (raised e)))) as [e1 | []];
    simpl in Hreport; [rewrite Hreport |]; cbn;
    (eexists; split; [reflexivity |]); cbn;
    (split; [by apply delete_insert_id |]);
    (split; [apply delete_insert_eq |]);
    by rewrite <- !app_assoc.
Qed.

Lemma failed_download_cleans_up_witness :
  exists w',
    handle_video_message download_fails 42 idle = (w', inr tt)
    /\ user_processing_tasks w' = ∅
    /\ actions w' = [Reply downloading_video; Download;
                     Reply (error_occurred (raised (Exception "network")))].
Proof.
  destruct (failed_download_cleans_up download_fails 42 idle false
              (<["last_capacity_date" := Utils.VStr "2025-03-01"]>
                 (<["daily_capacity" := Utils.VInt Utils.DAILY_CAPACITY]> ∅))
              (Exception "network"))
    as (w' & Hrun & Ht & _ & Ha); try reflexivity.
  - split; [reflexivity |]. split; [eexists; split; [reflexivity | vm_compute; discriminate] |].
    split; [reflexivity | discriminate].
  - exists w'. split; [exact Hrun |]. split; [exact Ht | exact Ha].
Defined.

(** X19: the "downloading" notice is awaited outside the [try]: when it
    raises, or when the download is cancelled, the exception leaves the
    handler, and the entry written at registration stays in the table
    with no task in it, the sender's state stays [STATE_PROCESSING], and
    nothing was handed to a task.  Every later upload of that sender is
    then answered as "already processing" and starts nothing. *)
Theorem failed_notice_leaves_entry (env : upload_env) (user_id : Z) (w : world)
    (warn : bool) (md' : Utils.metadata_dict) (e : exn) :
  user_processing_tasks w !! user_id = None ->
  passes_checks env w warn md' ->
  up_outcome env (Reply downloading_video) = inl e
  \/ (up_outcome env (Reply downloading_video) = inr tt
      /\ up_outcome env Download = inl e /\ e = CancelledError) ->
  exists w',
    handle_video_message env user_id w = (w', inl e)
    /\ user_processing_tasks w' !! user_id = Some (new_task (next_object w) file)
    /\ user_states w' !! user_id = Some STATE_PROCESSING
    /\ (exists l, actions w' = actions w ++ warning_reply warn
                                 ++ Reply downloading_video :: l
                   /\ (l = [] \/ l = [Download]))
    /\ forall later,
         user_processing_tasks (handle_video_message later user_id w').1 !! user_id
         = Some (new_task (next_object w) file)
         /\ exists l,
              actions (handle_video_message later user_id w').1 = actions w' ++ l
              /\ (Download ∉ l) /\ (CreateTask ∉ l).
Proof.
  intros Hnone Hchecks Hfail.
  rewrite (passes_checks_run _ _ _ _ _ Hchecks).
  unfold start_upload, bind, set_user_state, modify, new_object, try_register, gets.
  cbn. rewrite Hnone. cbn.
  assert (Hlater : forall w',
            user_processing_tasks w' !! user_id = Some (new_task (next_object w) file) ->
            forall later,
              user_processing_tasks (handle_video_message later user_id w').1 !! user_id
              = Some (new_task (next_object w) file)
              /\ exists l,
                   actions (handle_video_message later user_id w').1 = actions w' ++ l
                   /\ (Download ∉ l) /\ (CreateTask ∉ l)).
  { intros w' Hw' later.
    destruct (registered_upload_frame later user_id w' _ Hw') as (Ht & l & Ha & Hl).
    rewrite Ht. split; [exact Hw' |]. exists l. split; [exact Ha |].
    split; intros Hin; apply (proj1 (Forall_forall _ _) Hl _ Hin). }
  destruct Hfail as [Hnotice | (Hnotice & Hdownload & ->)]; rewrite Hnotice.
  - eexists. split; [reflexivity |]. cbn.
    split; [apply lookup_insert_eq |]. split; [apply lookup_insert_eq |].
    split; [exists []; split; [by rewrite <- app_assoc | by left] |].
    apply Hlater. cbn. apply lookup_insert_eq.
  - unfold try_except. rewrite Hdownload. cbn.
    eexists. split; [reflexivity |]. cbn.
    split; [apply lookup_insert_eq |]. split; [apply lookup_insert_eq |].
    split; [exists [Download]; split; [by rewrite <- !app_assoc | by right] |].
    apply Hlater. cbn. apply lookup_insert_eq.
Qed.

Lemma failed_notice_leaves_entry_witness :
  exists w',
    handle_video_message notice_fails 42 idle = (w', inl (Exception "flood wait"))
    /\ user_processing_tasks w' !! 42 = Some (new_task 0 file)
    /\ user_states w' !! 42 = Some STATE_PROCESSING.
Proof.
  destruct (failed_notice_leaves_entry notice_fails 42 idle false
              (<["last_capacity_date" := Utils.VStr "2025-03-01"]>
                 (<["daily_capacity" := Utils.VInt Utils.DAILY_CAPACITY]> ∅))
              (Exception "flood wait"))
    as (w' & Hrun & Ht & Hs & _).
  - reflexivity.
  - split; [reflexivity |]. split; [eexists; split; [reflexivity | vm_compute; discriminate] |].
    split; [reflexivity | discriminate].
  - by left.
  - exists w'. split; [exact Hrun |]. split; [exact Ht | exact Hs].
Defined.

(** X20: an upload that passes the checks, from a sender without an
    entry, whose notice and download succeed, is registered under a new
    shutdown flag, downloaded and handed to a new task, which is stored in
    the entry; the sender is left in [STATE_PROCESSING]. *)
Theorem accepted_upload_starts_a_task (env : upload_env) (user_id : Z) (w : world)
    (warn : bool) (md' : Utils.metadata_dict) :
  user_processing_tasks w !! user_id = None ->
  passes_checks env w warn md' ->
  up_outcome env (Reply downloading_video) = inr tt ->
  up_outcome env Download = inr tt ->
  exists w',
    handle_video_message env user_id w = (w', inr tt)
    /\ user_processing_tasks w'
       = <[user_id := TaskInfo (next_object w) file None None (Some (S (next_object w)))]>
           (user_processing_tasks w)
    /\ user_states w' = <[user_id := STATE_PROCESSING]> (user_states w)
    /\ metadata_file w' = md'
    /\ actions w' = actions w ++ warning_reply warn
                    ++ [Reply downloading_video; Download; CreateTask].
Proof.
  intros Hnone Hchecks Hnotice Hdownload.
  rewrite (passes_checks_run _ _ _ _ _ Hchecks).
  unfold start_upload, bind, set_user_state, modify, new_object, try_register, gets.
  cbn. rewrite Hnone. cbn. rewrite Hnotice. unfold try_except.
  rewrite Hdownload. cbn.
  eexists. split; [reflexivity |]. unfold with_tasks, record. cbn.
  rewrite lookup_insert_eq. cbn.
  split; [apply insert_insert_eq |]. split; [done |]. split; [done |].
  by rewrite <- !app_assoc.
Qed.

Lemma accepted_upload_starts_a_task_witness :
  exists w',
    handle_video_message small_upload 42 idle = (w', inr tt)
    /\ user_processing_tasks w' !! 42 = Some (TaskInfo 0 file None None (Some 1%nat))
    /\ actions w' = [Reply downloading_video; Download; CreateTask].
Proof.
  destruct (accepted_upload_starts_a_task small_upload 42 idle false
              (<["last_capacity_date" := Utils.VStr "2025-03-01"]>
                 (<["daily_capacity" := Utils.VInt Utils.DAILY_CAPACITY]> ∅)))
    as (w' & Hrun & Ht & _ & _ & Ha); try reflexivity.
  - split; [reflexivity |]. split; [eexists; split; [reflexivity | vm_compute; discriminate] |].
    split; [reflexivity | discriminate].
  - exists w'. split; [exact Hrun |]. split; [| exact Ha].
    rewrite Ht. apply lookup_insert_eq.
Defined.

End UploadTheorems.

Module LinkFacts.
Import Py Routes Links LinkSpec.

Lemma drop_own_length {A} (l new : list A) : drop (length l) (l ++ new) = new.
Proof. by rewrite drop_app_length. Qed.

Lemma drop_all_of {A} (l : list A) : drop (length l) l = [].
Proof. apply drop_all. Qed.

End LinkFacts.

Module LinkTheorems.
Import Py Routes Links LinkSpec LinkFacts.

(** X21: a link from a user whose job is registered is answered with
    the scheduled "already processing" reply and changes nothing else:
    the table, the capacity file and the user's state stay as they are
    (an upload at the same point removes the state). *)
Theorem second_link_changes_nothing (env : link_env) (l : link) (user_id : Z)
    (s : state) (info : task_info) :
  user_processing_tasks (shared s) !! user_id = Some info ->
  exists s',
    start_from_link env l user_id s = (s', inr tt)
    /\ user_processing_tasks (shared s') = user_processing_tasks (shared s)
    /\ user_states (shared s') = user_states (shared s)
    /\ metadata_file (shared s') = metadata_file (shared s)
    /\ trace s' = trace s ++ [Did (ScheduleReply processing_video)].
Proof.
  intros Hinfo. unfold start_from_link, bind, on_shared, new_object, try_register, gets.
  cbn. rewrite Hinfo. cbn. rewrite drop_all_of, drop_own_length. cbn.
  eexists. split; [reflexivity |]. cbn. by rewrite app_nil_r.
Qed.

Lemma second_link_changes_nothing_witness :
  exists s',
    start_from_link reply_succeeds youtube_link 42 at_work = (s', inr tt)
    /\ user_states (shared s') !! 42 = Some STATE_PROCESSING
    /\ trace s' = [Did (ScheduleReply processing_video)].
Proof.
  destruct (second_link_changes_nothing reply_succeeds youtube_link 42 at_work
              (TaskInfo 0 youtube None None (Some 1%nat)))
    as (s' & Hrun & _ & Hs & _ & Ht); [reflexivity |].
  exists s'. split; [exact Hrun |]. rewrite Hs. split; [reflexivity | exact Ht].
Defined.

(** X22: when the awaited "processing" reply to a link raises an
    [Exception], the block removes the entry it had written, clears the
    state and returns without creating a task: the table is as before
    the link.  (The reply is inside the [try] here; in the upload handler
    it is not.) *)
Theorem failed_link_reply_cleans_up (env : link_env) (l : link) (user_id : Z)
    (s : state) (capacity : Utils.value) (warn : bool) (md' : Utils.metadata_dict)
    (e : exn) :
  user_processing_tasks (shared s) !! user_id = None ->
  Utils.check_capacity_at_start (li_today env) (metadata_file (shared s))
  = (md', inr (capacity, warn)) ->
  li_reply env = inl e -> is_Exception e = true ->
  exists s',
    start_from_link env l user_id s = (s', inr tt)
    /\ user_processing_tasks (shared s') = user_processing_tasks (shared s)
    /\ user_states (shared s') = delete user_id (user_states (shared s))
    /\ trace s' = trace s ++ warning_scheduled warn ++ [ReplyProcessing l].
Proof.
  intros Hnone Hcheck Hreply He.
  unfold start_from_link, bind, on_shared, new_object, try_register, gets,
    set_user_state, modify, on_metadata, try_except, reply_processing, unregister.
  cbn. rewrite Hnone. cbn. rewrite Hcheck. cbn.
  rewrite !drop_all_of. cbn.
  destruct warn; cbn; rewrite ?drop_own_length, ?drop_all_of, Hreply; cbn;
    rewrite He; cbn; rewrite ?drop_all_of;
    (eexists; split; [reflexivity |]); cbn; rewrite ?app_nil_r, <- ?app_assoc;
    (split; [by apply delete_insert_id |]); (split; [apply delete_insert_eq | done]).
Qed.

Lemma failed_link_reply_cleans_up_witness :
  exists s',
    start_from_link reply_fails twitter_link 42 nobody = (s', inr tt)
    /\ user_processing_tasks (shared s') = ∅
    /\ trace s' = [ReplyProcessing twitter_link].
Proof.
  destruct (failed_link_reply_cleans_up reply_fails twitter_link 42 nobody
              (Utils.VInt 1000) false
              (<["last_capacity_date" := Utils.VStr "2025-03-01"]>
                 (<["daily_capacity" := Utils.VInt Utils.DAILY_CAPACITY]> ∅))
              (Exception "flood wait"))
    as (s' & Hrun & Ht & _ & Htrace); try reflexivity.
  exists s'. split; [exact Hrun |]. split; [exact Ht | exact Htrace].
Defined.

End LinkTheorems.

(* ===================================================================== *)
(** * Cancelling *)
(* ===================================================================== *)

Module CancelFacts.
Import Py Routes Cancel CancelSpec.

Lemma quiet_ret : quiet (ret tt).
Proof. intros s. exists []. simpl. by rewrite app_nil_r. Qed.

Lemma quiet_effect (e : effect) :
  (forall f, e <> SetFlag f) -> quiet (modify (effect_of e)).
Proof. intros He s. exists [e]. simpl. by repeat constructor. Qed.

Lemma quiet_bind (m : M state unit) (k : unit -> M state unit) :
  quiet m -> (forall u, quiet (k u)) -> quiet (bind m k).
Proof.
  intros Hm Hk s. unfold bind. destruct (Hm s) as (l1 & H1 & H2 & H3).
  destruct (m s) as [s1 [e | u]]; simpl in *.
  - by exists l1.
  - destruct (Hk u s1) as (l2 & H4 & H5 & H6). exists (l1 ++ l2).
    rewrite H4, H5, H1, H2, app_assoc. split; [done |]. split; [done |].
    by apply Forall_app.
Qed.

Lemma quiet_await (env : cancel_env) (t : nat) (seconds : Z) :
  quiet (await env t seconds).
Proof.
  intros s. exists [WaitFor t seconds]. unfold await, bind, modify, lift. simpl.
  by repeat constructor.
Qed.

Lemma quiet_try_except (body : M state unit)
    (clauses : list ((exn -> bool) * (exn -> M state unit))) :
  quiet body -> Forall (fun clause => forall e, clause.2 e = ret tt) clauses ->
  quiet (try_except body clauses).
Proof.
  intros Hb Hc s. unfold try_except. destruct (Hb s) as (l & H1 & H2 & H3).
  destruct (body s) as [s1 [e | u]]; simpl in *; [| by exists l].
  exists l. induction Hc as [| [accepts handler] rest Hh _ IH]; simpl; [done |].
  destruct (accepts e); [| exact IH]. simpl in Hh. by rewrite Hh.
Qed.

Lemma quiet_when_running (env : cancel_env) (t : option nat) (body : nat -> M state unit) :
  (forall t, quiet (body t)) -> quiet (when_running env t body).
Proof.
  intros Hb. unfold when_running. destruct t as [t |]; [| apply quiet_ret].
  destruct (negb (is_done env t)); [apply Hb | apply quiet_ret].
Qed.

Lemma quiet_waits (env : cancel_env) (info : task_info) : quiet (waits env info).
Proof.
  unfold waits.
  repeat (apply quiet_bind; [| intros _]);
    apply quiet_when_running; intros t;
    repeat (apply quiet_bind; [by apply quiet_effect | intros _]);
    (apply quiet_try_except; [apply quiet_await | by repeat constructor]).
Qed.

Lemma cancel_unfold (env : cancel_env) (user_id : Z) (s : state) (info : task_info) :
  user_processing_tasks (shared s) !! user_id = Some info ->
  cancel_user_processing env user_id s
  = match waits env info (effect_of (SetFlag (shutdown_flag info)) s) with
    | (s', inr _) => (State (with_tasks (delete user_id) (shared s')) (effects s'), inr tt)
    | (s', inl e) => (s', inl e)
    end.
Proof.
  intros Hinfo. unfold cancel_user_processing, bind at 1, gets. rewrite Hinfo.
  unfold bind at 1, modify at 1. unfold waits.
  set (s0 := effect_of (SetFlag (shutdown_flag info)) s).
  unfold bind.
  repeat match goal with
         | |- context [when_running ?env ?t ?body ?st] =>
             destruct (when_running env t body st) as [? [? | []]]
         end; reflexivity.
Qed.

Lemma when_running_returns (env : cancel_env) (t : option nat)
    (body : nat -> M state unit) (s : state) :
  (forall t', t = Some t' -> is_done env t' = false -> (body t' s).2 = inr tt) ->
  (when_running env t body s).2 = inr tt.
Proof.
  intros Hb. unfold when_running. destruct t as [t |]; [| reflexivity].
  destruct (is_done env t) eqn:Hd; [reflexivity |]. by apply Hb.
Qed.

Lemma waits_return (env : cancel_env) (info : task_info) (s : state) :
  waits_settle env info -> (waits env info s).2 = inr tt.
Proof.
  intros (Hout & Hexec & Htask). unfold waits, bind.
  match goal with
  | |- context [when_running ?env ?t ?body s] =>
      pose proof (when_running_returns env t body s) as H1;
      destruct (when_running env t body s) as [s1 r1]
  end.
  simpl in H1. rewrite H1; clear H1.
  2:{ intros t Ht Hd. specialize (Hout t Ht Hd).
      unfold bind, modify, try_except, await, lift. simpl.
      destruct (wait_for env t) as [e | []]; [| reflexivity].
      simpl in *. by rewrite Hout. }
  match goal with
  | |- context [when_running ?env ?t ?body s1] =>
      pose proof (when_running_returns env t body s1) as H1;
      destruct (when_running env t body s1) as [s2 r2]
  end.
  simpl in H1. rewrite H1; clear H1.
  2:{ intros t Ht Hd. specialize (Hexec t Ht Hd).
      unfold bind, modify, try_except, await, lift. simpl.
      destruct (wait_for env t) as [e | []]; [| reflexivity].
      destruct e; simpl; done. }
  apply when_running_returns. intros t Ht Hd. specialize (Htask t Ht Hd).
  unfold bind, modify, try_except, await, lift. simpl.
  destruct (wait_for env t) as [e | []]; [| reflexivity].
  simpl in *. by rewrite Htask.
Qed.

End CancelFacts.

Module CancelTheorems.
Import Py Routes Cancel CancelSpec CancelFacts.

(** X23: with an entry of the owner in the table,
    [cancel_user_processing] sets the entry's shutdown flag before it
    cancels or waits for anything, and sets no other flag; whether it
    returns or raises, the entry is removed exactly when it returns, and
    no other entry and no user state is touched. *)
Theorem cancel_sets_flag_first (env : cancel_env) (user_id : Z) (s : state)
    (info : task_info) :
  user_processing_tasks (shared s) !! user_id = Some info ->
  exists s' r l,
    cancel_user_processing env user_id s = (s', r)
    /\ effects s' = effects s ++ SetFlag (shutdown_flag info) :: l
    /\ Forall (fun e => forall f, e <> SetFlag f) l
    /\ user_processing_tasks (shared s')
       = (if r is inr _ then delete user_id (user_processing_tasks (shared s))
          else user_processing_tasks (shared s))
    /\ user_states (shared s') = user_states (shared s)
    /\ actions (shared s') = actions (shared s).
Proof.
  intros Hinfo. rewrite (cancel_unfold env user_id s info Hinfo).
  destruct (quiet_waits env info (effect_of (SetFlag (shutdown_flag info)) s))
    as (l & Hshared & Heff & Hl).
  destruct (waits env info (effect_of (SetFlag (shutdown_flag info)) s))
    as [s1 [e | []]]; simpl in *; eexists _, _, l; (split; [reflexivity |]);
    simpl; rewrite Heff, <- app_assoc, Hshared; done.
Qed.

Lemma cancel_sets_flag_first_witness :
  exists s' r l,
    cancel_user_processing responsive 42 running = (s', r)
    /\ effects s' = SetFlag 0 :: l.
Proof.
  destruct (cancel_sets_flag_first responsive 42 running
              (TaskInfo 0 youtube (Some 2%nat) (Some 3%nat) (Some 1%nat)))
    as (s' & r & l & Hrun & Heff & _); [reflexivity |].
  exists s', r, l. split; [exact Hrun | exact Heff].
Defined.

(** X24: when the waits for the entry's tasks settle (the cancelled
    output and processing tasks return, time out or report their
    cancellation, and the wait for the worker is not itself cancelled),
    [cancel_user_processing] returns and the owner can register a job
    again; without an entry it does nothing at all. *)
Theorem cancel_frees_the_owner (env : cancel_env) (user_id : Z) (s : state) :
  (forall info, user_processing_tasks (shared s) !! user_id = Some info ->
                waits_settle env info) ->
  exists s',
    cancel_user_processing env user_id s = (s', inr tt)
    /\ user_processing_tasks (shared s')
       = delete user_id (user_processing_tasks (shared s))
    /\ (user_processing_tasks (shared s) !! user_id = None -> s' = s)
    /\ forall flag ty,
         (try_register user_id flag ty (shared s')).2 = inr true.
Proof.
  intros Hsettle.
  assert (Hfree : forall w' : world,
            user_processing_tasks w' = delete user_id (user_processing_tasks (shared s)) ->
            forall flag ty, (try_register user_id flag ty w').2 = inr true).
  { intros w' Ht flag ty. unfold try_register, bind, gets.
    rewrite Ht, lookup_delete_eq. reflexivity. }
  destruct (user_processing_tasks (shared s) !! user_id) as [info |] eqn:Hinfo.
  - rewrite (cancel_unfold env user_id s info Hinfo).
    pose proof (waits_return env info (effect_of (SetFlag (shutdown_flag info)) s)
                  (Hsettle info eq_refl)) as Hret.
    destruct (quiet_waits env info (effect_of (SetFlag (shutdown_flag info)) s))
      as (l & Hshared & _).
    destruct (waits env info (effect_of (SetFlag (shutdown_flag info)) s))
      as [s1 r]. simpl in Hret, Hshared. subst r.
    eexists. split; [reflexivity |]. simpl. rewrite Hshared. simpl.
    split; [done |]. split; [done |]. by apply Hfree.
  - unfold cancel_user_processing, bind, gets. rewrite Hinfo.
    exists s. split; [reflexivity |]. split; [by rewrite delete_id |].
    split; [done |]. apply Hfree. by rewrite delete_id.
Qed.

Lemma cancel_frees_the_owner_witness :
  exists s',
    cancel_user_processing responsive 42 running = (s', inr tt)
    /\ user_processing_tasks (shared s') !! 42 = None
    /\ (try_register 42 7 file (shared s')).2 = inr true.
Proof.
  destruct (cancel_frees_the_owner responsive 42 running) as (s' & Hrun & Ht & _ & Hfree).
  - intros info. intros [= <-]. repeat split; intros t; intros [= <-]; done.
  - exists s'. split; [exact Hrun |]. split; [| apply Hfree].
    rewrite Ht. apply lookup_delete_eq.
Defined.

(** X25: a [CancelledError] in the wait for the worker is caught by
    neither clause ([asyncio.TimeoutError], [Exception]): it leaves
    [cancel_user_processing] and [cancel_command] before the entry is
    removed, the state cleared, the context reset or an answer sent;
    the flag stays set. *)
Theorem interrupted_cancel_keeps_entry (env : cancel_env) (user_id : Z) (s : state)
    (info : task_info) (worker : nat) :
  user_processing_tasks (shared s) !! user_id = Some info ->
  executor_task info = Some worker ->
  is_done env worker = false ->
  wait_for env worker = inl CancelledError ->
  (forall t, output_task info = Some t -> is_done env t = false ->
             settles (wait_for env t) = true) ->
  exists s' l,
    cancel_command env user_id s = (s', inl CancelledError)
    /\ cancel_user_processing env user_id s = (s', inl CancelledError)
    /\ shared s' = shared s
    /\ effects s' = effects s ++ SetFlag (shutdown_flag info) :: l
                    ++ [WaitFor worker 10].
Proof.
  intros Hinfo Hworker Hdone Hwait Hout.
  assert (Hrun : exists s' l,
            cancel_user_processing env user_id s = (s', inl CancelledError)
            /\ shared s' = shared s
            /\ effects s' = effects s ++ SetFlag (shutdown_flag info) :: l
                            ++ [WaitFor worker 10]).
  { rewrite (cancel_unfold env user_id s info Hinfo). unfold waits.
    set (s0 := effect_of (SetFlag (shutdown_flag info)) s).
    unfold bind at 1.
    match goal with
    | |- context [when_running ?env ?t ?body s0] =>
        pose proof (when_running_returns env t body s0) as H1;
        assert (Hq : quiet (when_running env t body));
        [| destruct (Hq s0) as (l & Hs1 & He1 & _);
           destruct (when_running env t body s0) as [s1 r1]]
    end.
    { apply quiet_when_running. intros t.
      apply quiet_bind; [by apply quiet_effect | intros _].
      apply quiet_try_except; [apply quiet_await | by repeat constructor]. }
    simpl in H1, Hs1, He1. rewrite H1; clear H1.
    2:{ intros t Ht Hd. specialize (Hout t Ht Hd).
        unfold bind, modify, try_except, await, lift. simpl.
        destruct (wait_for env t) as [e | []]; [| reflexivity].
        simpl in *. by rewrite Hout. }
    unfold bind at 1. rewrite Hworker. unfold when_running at 1.
    rewrite Hdone. cbn [negb].
    unfold try_except, await, bind, modify, lift. rewrite Hwait. cbn.
    exists (effect_of (WaitFor worker 10) s1), l. split; [reflexivity |].
    simpl. rewrite Hs1, He1. simpl. by rewrite <- !app_assoc. }
  destruct Hrun as (s' & l & Hrun & Hs & He).
  exists s', l. split; [| done].
  unfold cancel_command. unfold bind at 1. by rewrite Hrun.
Qed.

Lemma interrupted_cancel_keeps_entry_witness :
  exists s' l,
    cancel_command interrupted 42 running = (s', inl CancelledError)
    /\ shared s' = shared running
    /\ effects s' = SetFlag 0 :: l ++ [WaitFor 2 10].
Proof.
  destruct (interrupted_cancel_keeps_entry interrupted 42 running
              (TaskInfo 0 youtube (Some 2%nat) (Some 3%nat) (Some 1%nat)) 2)
    as (s' & l & Hrun & _ & Hs & He); try reflexivity.
  exists s', l. split; [exact Hrun |]. split; [exact Hs | exact He].
Defined.

(** X26: [/cancel] with settling waits, a context reset and an answer
    that succeed leaves the owner with no entry and no state, and answers
    "cancelled" whether or not there was a job to cancel. *)
Theorem cancel_command_clears (env : cancel_env) (user_id : Z) (s : state) :
  (forall info, user_processing_tasks (shared s) !! user_id = Some info ->
                waits_settle env info) ->
  ca_reset_context env = inr tt ->
  ca_outcome env (Reply cancel_success) = inr tt ->
  exists s',
    cancel_command env user_id s = (s', inr tt)
    /\ user_processing_tasks (shared s') = delete user_id (user_processing_tasks (shared s))
    /\ user_states (shared s') = delete user_id (user_states (shared s))
    /\ actions (shared s') = actions (shared s) ++ [Reply cancel_success].
Proof.
  intros Hsettle Hreset Hreply.
  assert (Hrun : exists s1,
            cancel_user_processing env user_id s = (s1, inr tt)
            /\ user_processing_tasks (shared s1)
               = delete user_id (user_processing_tasks (shared s))
            /\ user_states (shared s1) = user_states (shared s)
            /\ actions (shared s1) = actions (shared s)).
  { destruct (user_processing_tasks (shared s) !! user_id) as [info |] eqn:Hinfo.
    - rewrite (cancel_unfold env user_id s info Hinfo).
      pose proof (waits_return env info (effect_of (SetFlag (shutdown_flag info)) s)
                    (Hsettle info eq_refl)) as Hret.
      destruct (quiet_waits env info (effect_of (SetFlag (shutdown_flag info)) s))
        as (l & Hshared & _).
      destruct (waits env info (effect_of (SetFlag (shutdown_flag info)) s))
        as [s1 r]. simpl in Hret, Hshared. subst r.
      eexists. split; [reflexivity |]. simpl. by rewrite Hshared.
    - unfold cancel_user_processing, bind, gets. rewrite Hinfo.
      exists s. split; [reflexivity |]. by rewrite delete_id. }
  destruct Hrun as (s1 & Hrun & Ht & Hs & Ha).
  unfold cancel_command. unfold bind at 1. rewrite Hrun.
  unfold bind, lift, on_shared, set_user_state, modify, perform.
  rewrite Hreset. cbn. rewrite Hreply.
  eexists. split; [reflexivity |]. cbn. by rewrite Ht, Hs, Ha.
Qed.

Lemma cancel_command_clears_witness :
  exists s',
    cancel_command responsive 42 running = (s', inr tt)
    /\ user_processing_tasks (shared s') !! 42 = None
    /\ user_states (shared s') !! 42 = None
    /\ actions (shared s') = [Reply cancel_success].
Proof.
  destruct (cancel_command_clears responsive 42 running)
    as (s' & Hrun & Ht & Hs & Ha); try reflexivity.
  - intros info. intros [= <-]. repeat split; intros t; intros [= <-]; done.
  - exists s'. split; [exact Hrun |].
    rewrite Ht, Hs. split; [apply lookup_delete_eq |].
    split; [apply lookup_delete_eq | exact Ha].
Defined.

End CancelTheorems.

(* ===================================================================== *)
(** * The token file *)
(* ===================================================================== *)

Module TokenFacts.
Import PyStr PyStrFacts Py Tokens TokenSpec StripFacts.

Lemma isspace_newline : isspace newline = true.
Proof. reflexivity. Qed.

Lemma universal_no_cr (pending_cr : bool) (text : str) :
  carriage_return ∉ universal_newlines pending_cr text.
Proof.
  revert pending_cr. induction text as [|c rest IH]; intros b; simpl.
  - apply not_elem_of_nil.
  - destruct (N.eqb_spec c carriage_return) as [-> | Hc].
    + intros Hin. apply elem_of_cons in Hin as [Hin | Hin]; [discriminate | by eapply IH].
    + destruct ((c =? newline)%N && b); [apply IH |].
      intros Hin. apply elem_of_cons in Hin as [Hin | Hin]; [done | by eapply IH].
Qed.

Lemma universal_id (text : str) :
  carriage_return ∉ text -> universal_newlines false text = text.
Proof.
  induction text as [|c rest IH]; intros Hcr; simpl; [done |].
  apply not_elem_of_cons in Hcr as [Hc Hrest].
  destruct (N.eqb_spec c carriage_return) as [-> | _]; [done |].
  rewrite andb_false_r. by rewrite IH.
Qed.

Lemma lines_app_newline (t rest : str) :
  newline ∉ t -> lines (t ++ newline :: rest) = (t ++ [newline]) :: lines rest.
Proof.
  induction t as [|c t IH]; intros Hnl; simpl; [done |].
  apply not_elem_of_cons in Hnl as [Hc Ht].
  destruct (N.eqb_spec c newline) as [-> | _]; [done |].
  by rewrite IH.
Qed.

Lemma lines_render (tokens : list str) :
  Forall (fun t => newline ∉ t) tokens ->
  lines (render tokens) = (fun token => token ++ [newline]) <$> tokens.
Proof.
  induction 1 as [| t tokens Ht _ IH]; [done |].
  unfold render. cbn [fmap list_fmap concat]. rewrite <- app_assoc. simpl.
  rewrite lines_app_newline by done. f_equal. exact IH.
Qed.

(** A line is a stretch of the text without ["\n"], with or without a
    ["\n"] after it. *)
Lemma lines_shape (text : str) :
  Forall (fun line => exists body,
            (newline ∉ body) /\ (forall x, x ∈ body -> x ∈ text)
            /\ (line = body ++ [newline] \/ line = body))
         (lines text).
Proof.
  induction text as [|c rest IH]; simpl; [constructor |].
  destruct (N.eqb_spec c newline) as [-> | Hc].
  - constructor.
    + exists []. split; [apply not_elem_of_nil |].
      split; [by intros x Hx; apply not_elem_of_nil in Hx | by left].
    + eapply Forall_impl; [exact IH |]. intros line (body & H1 & H2 & H3).
      exists body. split; [done |]. split; [| done].
      intros x Hx. right. by apply H2.
  - destruct (lines rest) as [| line more].
    + constructor; [| constructor]. exists [c].
      split; [by intros Hin; apply list_elem_of_singleton in Hin |].
      split; [| by right]. intros x Hx. apply list_elem_of_singleton in Hx as ->. left.
    + apply Forall_cons in IH as [(body & H1 & H2 & H3) IH]. constructor.
      * exists (c :: body). split.
        { intros Hin. apply elem_of_cons in Hin as [Hin | Hin]; [by subst | done]. }
        split.
        { intros x Hx. apply elem_of_cons in Hx as [-> | Hx]; [left | right; by apply H2]. }
        destruct H3 as [-> | ->]; [by left | by right].
      * eapply Forall_impl; [exact IH |]. intros l (b & ? & Hb & ?).
        exists b. split; [done |]. split; [| done].
        intros x Hx. right. by apply Hb.
Qed.

Lemma strip_line (body : str) : strip (body ++ [newline]) = strip body.
Proof. by apply strip_app_space. Qed.

(** What is read from a file is clean. *)
Lemma tokens_of_clean (text : str) : Forall clean (tokens_of text).
Proof.
  unfold tokens_of. apply Forall_fmap.
  apply Forall_forall. intros line Hline.
  apply list_elem_of_In, filter_In in Hline as [Hin Htruthy].
  apply list_elem_of_In in Hin.
  pose proof (proj1 (Forall_forall _ _) (lines_shape (universal_newlines false text))
                _ Hin) as (body & Hnl & Hsub & Hshape).
  assert (Hstrip : strip line = strip body).
  { destruct Hshape as [-> | ->]; [apply strip_line | done]. }
  simpl. rewrite Hstrip in *. split; [by destruct (strip body) |].
  split; [apply strip_idem |]. split.
  - intros Hx. by apply elem_of_strip in Hx.
  - intros Hx. apply elem_of_strip, Hsub in Hx. by apply universal_no_cr in Hx.
Qed.

Lemma render_no_cr (tokens : list str) :
  Forall (fun t => carriage_return ∉ t) tokens -> carriage_return ∉ render tokens.
Proof.
  induction 1 as [| t tokens Ht _ IH]; [apply not_elem_of_nil |].
  unfold render. cbn [fmap list_fmap concat]. rewrite !elem_of_app.
  intros [[Hin | Hin] | Hin]; [done | | done].
  apply list_elem_of_singleton in Hin. discriminate.
Qed.

(** Reading back what [save_tokens] wrote. *)
Lemma tokens_of_render (tokens : list str) :
  Forall one_line tokens ->
  tokens_of (render tokens)
  = strip <$> List.filter (fun t => truthy (strip t)) tokens.
Proof.
  intros Hone. unfold tokens_of.
  rewrite universal_id.
  2:{ apply render_no_cr. eapply Forall_impl; [exact Hone |]. by intros t [_ ?]. }
  rewrite lines_render.
  2:{ eapply Forall_impl; [exact Hone |]. by intros t [? _]. }
  clear Hone. induction tokens as [| t tokens IH]; [done |].
  cbn [fmap list_fmap List.filter]. rewrite strip_line.
  destruct (truthy (strip t)); cbn [fmap list_fmap]; [| exact IH].
  rewrite strip_line. f_equal. exact IH.
Qed.

Lemma clean_tokens_unchanged (tokens : list str) :
  Forall clean tokens ->
  strip <$> List.filter (fun t => truthy (strip t)) tokens = tokens.
Proof.
  induction 1 as [| t tokens (Hne & Hstrip & _) _ IH]; [done |].
  cbn [List.filter]. rewrite (strip_nonempty_truthy t Hne Hstrip).
  cbn [fmap list_fmap]. by rewrite Hstrip, IH.
Qed.

Lemma clean_one_line (tokens : list str) :
  Forall clean tokens -> Forall one_line tokens.
Proof. intros H. eapply Forall_impl; [exact H |]. by intros t (_ & _ & ?). Qed.

Lemma load_tokens_no_env (fs : files) :
  no_env_key fs ->
  load_tokens fs = match api_key_txt fs with
                   | Content text => tokens_of text
                   | _ => []
                   end.
Proof.
  unfold load_tokens. intros [-> | ->]; by destruct (api_key_txt fs).
Qed.

Lemma load_tokens_clean (fs : files) : no_env_key fs -> Forall clean (load_tokens fs).
Proof.
  intros Henv. rewrite load_tokens_no_env by done.
  destruct (api_key_txt fs); [constructor | constructor | apply tokens_of_clean].
Qed.

(** ** The loop of [add_tokens] *)

Lemma add_token_spec (existing : list str) (token : str) :
  add_token existing token = existing
  \/ (add_token existing token = existing ++ [strip token]
      /\ strip token <> [] /\ strip token ∉ existing).
Proof.
  unfold add_token. destruct (strip token) as [|x r] eqn:Hs; simpl; [by left |].
  case_bool_decide; simpl; [by left |]. right. done.
Qed.

Lemma add_token_has (existing : list str) (token : str) :
  strip token <> [] -> strip token ∈ add_token existing token.
Proof.
  unfold add_token. intros Hne. destruct (strip token) as [|x r] eqn:Hs; [done |].
  simpl. case_bool_decide; simpl; [done |]. apply elem_of_app. right. left.
Qed.

Lemma add_all_prefix (new existing : list str) :
  existing `prefix_of` foldl add_token existing new.
Proof.
  revert existing. induction new as [| t new IH]; intros existing; simpl; [done |].
  etrans; [| apply IH].
  destruct (add_token_spec existing t) as [-> | [-> _]]; [done |].
  by apply prefix_app_r.
Qed.

Lemma add_all_keeps (new existing : list str) (x : str) :
  x ∈ existing -> x ∈ foldl add_token existing new.
Proof.
  intros Hx. destruct (add_all_prefix new existing) as [k ->].
  apply elem_of_app. by left.
Qed.

Lemma add_all_has (new existing : list str) (t : str) :
  t ∈ new -> strip t <> [] -> strip t ∈ foldl add_token existing new.
Proof.
  revert existing. induction new as [| u new IH]; intros existing Hin Hne.
  - by apply not_elem_of_nil in Hin.
  - simpl. apply elem_of_cons in Hin as [-> | Hin]; [| by apply IH].
    by apply add_all_keeps, add_token_has.
Qed.

Lemma add_all_NoDup (new existing : list str) :
  NoDup existing -> NoDup (foldl add_token existing new).
Proof.
  revert existing. induction new as [| t new IH]; intros existing Hnd; simpl; [done |].
  apply IH. destruct (add_token_spec existing t) as [-> | (-> & _ & Hnot)]; [done |].
  apply NoDup_app. split; [done |]. split; [| apply NoDup_singleton].
  intros x Hx Hx'. apply list_elem_of_singleton in Hx' as ->. done.
Qed.

Lemma add_all_clean (new existing : list str) :
  Forall clean existing -> Forall (fun t => one_line (strip t)) new ->
  Forall clean (foldl add_token existing new).
Proof.
  intros Hex Hnew. revert existing Hex.
  induction Hnew as [| t new Ht _ IH]; intros existing Hex; simpl; [done |].
  apply IH. destruct (add_token_spec existing t) as [-> | (-> & Hne & _)]; [done |].
  apply Forall_app. split; [done |]. repeat constructor; [done | apply strip_idem | |];
    apply Ht.
Qed.

Lemma add_all_nothing_new (new existing : list str) :
  (forall t, t ∈ new -> strip t <> [] -> strip t ∈ existing) ->
  foldl add_token existing new = existing.
Proof.
  induction new as [| t new IH]; intros Hall; simpl; [done |].
  assert (Ht : add_token existing t = existing).
  { destruct (add_token_spec existing t) as [-> | (_ & Hne & Hnot)]; [done |].
    exfalso. apply Hnot, Hall; [left | done]. }
  rewrite Ht. apply IH. intros u Hu. apply Hall. by right.
Qed.

End TokenFacts.

Module TokenTheorems.
Import PyStr PyStrFacts Py Tokens TokenSpec StripFacts TokenFacts TokenExamples.

(** X27: with no key in the environment, tokens that hold no line break
    are read back from the file [save_tokens] wrote as their stripped
    forms, the blank ones dropped; tokens that are already stripped and
    not empty are read back unchanged. *)
Theorem saved_tokens_load_back (tokens : list str) (fs : files) :
  no_env_key fs -> writable fs = true -> Forall one_line tokens ->
  exists fs',
    save_tokens tokens fs = (fs', inr tt)
    /\ load_tokens fs' = strip <$> List.filter (fun t => truthy (strip t)) tokens
    /\ (Forall clean tokens -> load_tokens fs' = tokens).
Proof.
  intros Henv Hw Hone. unfold save_tokens. rewrite Hw.
  eexists. split; [reflexivity |].
  assert (Hload : load_tokens (Files (OPENROUTER_API_KEY fs) (Content (render tokens)) true)
                  = strip <$> List.filter (fun t => truthy (strip t)) tokens).
  { rewrite load_tokens_no_env by exact Henv. simpl. by apply tokens_of_render. }
  split; [exact Hload |]. intros Hclean. rewrite Hload.
  by apply clean_tokens_unchanged.
Qed.

Lemma saved_tokens_load_back_witness :
  exists fs',
    save_tokens [ab; cd] two_tokens = (fs', inr tt) /\ load_tokens fs' = [ab; cd].
Proof.
  destruct (saved_tokens_load_back [ab; cd] two_tokens) as (fs' & Hsave & _ & Hload).
  - by left.
  - reflexivity.
  - repeat constructor; intros Hin; apply list_elem_of_In in Hin; simpl in Hin;
      intuition discriminate.
  - exists fs'. split; [exact Hsave |]. apply Hload.
    repeat constructor; try discriminate; intros Hin; apply list_elem_of_In in Hin;
      simpl in Hin; intuition discriminate.
Defined.

(** X28: with no key in the environment, every token [load_tokens]
    returns is non-empty, stripped and free of line breaks, whatever the
    file holds; so saving what was loaded and loading again gives the
    same list. *)
Theorem loaded_tokens_are_clean (fs : files) :
  no_env_key fs ->
  Forall clean (load_tokens fs)
  /\ (writable fs = true ->
      load_tokens (save_tokens (load_tokens fs) fs).1 = load_tokens fs).
Proof.
  intros Henv. pose proof (load_tokens_clean fs Henv) as Hclean.
  split; [exact Hclean |]. intros Hw. unfold save_tokens. rewrite Hw. cbn [fst].
  rewrite (load_tokens_no_env (Files _ _ _)) by exact Henv. cbn [api_key_txt].
  rewrite tokens_of_render by (by apply clean_one_line).
  by apply clean_tokens_unchanged.
Qed.

Lemma loaded_tokens_are_clean_witness :
  load_tokens two_tokens = [ab; cd] /\ Forall clean (load_tokens two_tokens).
Proof.
  split; [reflexivity |].
  apply (loaded_tokens_are_clean two_tokens). by left.
Defined.

(** X29: with no key in the environment and a writable file,
    [add_tokens] returns; the tokens loaded before are the first tokens
    loaded afterwards, in the same order; every new token that is not
    blank is among them in its stripped form (the new tokens holding no
    line break); no token is entered twice; and adding the same tokens
    again changes nothing. *)
Theorem add_tokens_extends (new_tokens : list str) (fs : files) :
  no_env_key fs -> writable fs = true ->
  Forall (fun t => one_line (strip t)) new_tokens ->
  exists fs',
    add_tokens new_tokens fs = (fs', inr tt)
    /\ load_tokens fs `prefix_of` load_tokens fs'
    /\ (forall t, t ∈ new_tokens -> strip t <> [] -> strip t ∈ load_tokens fs')
    /\ (NoDup (load_tokens fs) -> NoDup (load_tokens fs'))
    /\ add_tokens new_tokens fs' = (fs', inr tt).
Proof.
  intros Henv Hw Hnew. unfold add_tokens, save_tokens. rewrite Hw.
  set (after := foldl add_token (load_tokens fs) new_tokens).
  assert (Hclean : Forall clean after)
    by (apply add_all_clean; [by apply load_tokens_clean | done]).
  assert (Hload : load_tokens (Files (OPENROUTER_API_KEY fs) (Content (render after)) true)
                  = after).
  { rewrite load_tokens_no_env by exact Henv. simpl.
    rewrite tokens_of_render by (by apply clean_one_line).
    by apply clean_tokens_unchanged. }
  eexists. split; [reflexivity |]. rewrite Hload.
  split; [apply add_all_prefix |].
  split; [intros t Ht Hne; by apply add_all_has |].
  split; [apply add_all_NoDup |].
  cbn [writable OPENROUTER_API_KEY].
  replace (foldl add_token after new_tokens) with after; [done |].
  symmetry. apply add_all_nothing_new. intros t Ht Hne. by apply add_all_has.
Qed.

Lemma add_tokens_extends_witness :
  exists fs',
    add_tokens [[32; 99; 100]%N; []; [101]%N; cd] two_tokens = (fs', inr tt)
    /\ load_tokens two_tokens `prefix_of` load_tokens fs'
    /\ [101]%N ∈ load_tokens fs'.
Proof.
  destruct (add_tokens_extends [[32; 99; 100]%N; []; [101]%N; cd] two_tokens)
    as (fs' & Hadd & Hprefix & Hin & _).
  - by left.
  - reflexivity.
  - repeat constructor; intros Hin; apply list_elem_of_In in Hin;
      vm_compute in Hin; intuition discriminate.
  - exists fs'. split; [exact Hadd |]. split; [exact Hprefix |].
    apply (Hin [101]%N); [| discriminate].
    apply list_elem_of_In. simpl. auto.
Defined.

(** X30: a non-empty [OPENROUTER_API_KEY] hides the file: [load_tokens]
    returns the stripped key alone, whatever the file holds, and
    [add_tokens] then overwrites the file with that key followed by the
    new tokens, so that the tokens the file held are lost. *)
Theorem env_key_hides_the_file (key : str) (new_tokens : list str) (fs : files) :
  OPENROUTER_API_KEY fs = Some key -> key <> [] ->
  load_tokens fs = [strip key]
  /\ get_token_count fs = 1
  /\ get_current_token fs = Some (strip key)
  /\ (writable fs = true ->
      api_key_txt (add_tokens new_tokens fs).1
      = Content (render (foldl add_token [strip key] new_tokens))).
Proof.
  intros Hkey Hne.
  assert (Hload : load_tokens fs = [strip key]).
  { unfold load_tokens. rewrite Hkey. destruct key as [| c key]; [congruence | reflexivity]. }
  split; [exact Hload |].
  split; [unfold get_token_count; by rewrite Hload |].
  split; [unfold get_current_token; by rewrite Hload |].
  intros Hw. unfold add_tokens, save_tokens. rewrite Hw, Hload. reflexivity.
Qed.

Lemma env_key_hides_the_file_witness :
  load_tokens with_env_key = [ab]
  /\ api_key_txt (add_tokens [] with_env_key).1 = Content [97; 98; 10]%N.
Proof.
  destruct (env_key_hides_the_file [32; 97; 98; 10]%N [] with_env_key)
    as (Hload & _ & _ & Hfile); [reflexivity | discriminate |].
  split; [exact Hload | by apply Hfile].
Defined.

End TokenTheorems.
